(** * Glowroot trace extractor: a shallow embedding and its properties

    The program under study is [glowroot_trace_extractor.py].  It scans an
    HTML document for six [<script type="text/json" id="...">] regions with
    a regular expression, decodes each region with [json.loads] (keeping
    the raw text when decoding fails), adds a metadata record and writes
    the result with [json.dump], as one file or as one file per key.

    Conventions of the embedding.
    - A Python [str] is a [list ascii]: the model covers text made of code
      points below 256.  Character predicates ([str.isspace], [str.isupper],
      [str.lower], the [\s] class and [re.IGNORECASE]) are the Python ones
      restricted to that range.
    - The regular expressions of the program are kept as syntax trees and
      run by a backtracking matcher with the priorities of Python's [re]
      (leftmost start, greedy and lazy repetition, ordered alternation).
    - A [dict] is an association list in insertion order with unique keys.
    - Floating point numbers, and the UTF-8 decoder used to read the input,
      belong to the Python runtime; they are the fields of the class
      [Runtime], over which the whole development is parametric.
    - The file system is a finite map from absolute paths to nodes, threaded
      through a small state-and-exception monad.
    - The lines printed on standard output are not modelled, nor are the
      limits of the interpreter (recursion depth, the digit limit of [int]
      conversions). *)

From Stdlib Require Import Strings.Byte Ascii String ZArith Lia Bool Arith List Decimal DecimalString DecimalFacts DecimalPos.
From stdpp Require Import base option list strings gmap.

Set Default Proof Using "Type".
Set Warnings "-register-all".
Local Open Scope char_scope.

(** ** Strings and characters *)

Abbreviation str := (list ascii).

(** A string literal as a Python [str]. *)
Definition lit (s : string) : str := list_ascii_of_string s.

(** The double quote, and a literal in which every single quote stands
    for a double quote (for readable documents). *)
Definition dquote : ascii := "034".

Definition quoted (s : string) : str :=
  map (fun c => if Ascii.eqb c "'" then dquote else c) (lit s).

Definition code (c : ascii) : N := N_of_ascii c.

Definition in_range (lo hi : N) (c : ascii) : bool :=
  ((lo <=? code c) && (code c <=? hi))%N.

(** [str.isspace] for one character; also the class [\s] of a [str] pattern. *)
Definition isspace (c : ascii) : bool :=
  in_range 9 13 c || in_range 28 32 c || (code c =? 133)%N || (code c =? 160)%N.

(** [str.isupper] for one character. *)
Definition isupper (c : ascii) : bool :=
  in_range 65 90 c || in_range 192 214 c || in_range 216 222 c.

(** [str.lower] for one character. *)
Definition lower (c : ascii) : ascii :=
  if isupper c then ascii_of_N (code c + 32) else c.

Definition ascii_eqb (a b : ascii) : bool := Ascii.eqb a b.

(** [s.strip()]. *)
Fixpoint lstrip (s : str) : str :=
  match s with
  | c :: s' => if isspace c then lstrip s' else s
  | [] => []
  end.

Definition rstrip (s : str) : str := rev (lstrip (rev s)).

Definition strip (s : str) : str := rstrip (lstrip s).

(** [s.startswith(p)], and the same up to letter case. *)
Fixpoint startswith (p s : str) : bool :=
  match p, s with
  | [], _ => true
  | a :: p', b :: s' => ascii_eqb a b && startswith p' s'
  | _ :: _, [] => false
  end.

Fixpoint startswith_ci (p s : str) : bool :=
  match p, s with
  | [], _ => true
  | a :: p', b :: s' => ascii_eqb (lower a) (lower b) && startswith_ci p' s'
  | _ :: _, [] => false
  end.

(** [s.replace(old, '')] for a non-empty [old]: every non-overlapping
    occurrence, from the left, is removed.  [skip] counts the characters
    of the current occurrence still to be dropped. *)
Fixpoint remove_all_from (old : str) (skip : nat) (s : str) : str :=
  match s with
  | [] => []
  | c :: s' =>
      match skip with
      | S k => remove_all_from old k s'
      | O => if startswith old s
             then remove_all_from old (length old - 1) s'
             else c :: remove_all_from old 0 s'
      end
  end.

Definition replace_with_empty (old s : str) : str := remove_all_from old 0 s.

(** ** Regular expressions

    The fragment of [re] syntax that the program's two patterns use.
    Repetition is only ever applied to a one-character class
    ([\s+], [[^>]*], [.*?], [.*]). *)

Inductive regex : Type :=
| Eps                                    (* the empty pattern *)
| Chr (c : ascii)                        (* a literal character *)
| Cls (p : ascii -> bool)                (* a character class *)
| Rep (greedy : bool) (p : ascii -> bool)(* [p*] when greedy, [p*?] when lazy *)
| Cat (r1 r2 : regex)                    (* concatenation *)
| Alt (r1 r2 : regex)                    (* [r1|r2] *)
| Grp (r : regex)                        (* the capturing group 1 *)
| Ahead (r : regex)                      (* [(?=r)] *)
| Dollar.                                (* [$] without MULTILINE *)

(** A literal string, [p+], and the classes of the two patterns. *)
Definition lits (w : str) : regex := foldr (fun c r => Cat (Chr c) r) Eps w.
Definition plus (p : ascii -> bool) : regex := Cat (Cls p) (Rep true p).
Definition any_char (dotall : bool) (c : ascii) : bool :=
  dotall || negb (ascii_eqb c "010").
Definition not_gt (c : ascii) : bool := negb (ascii_eqb c ">").

(** A literal under the flags: with IGNORECASE both sides are lowered. *)
Definition chr_eq (ic : bool) (c x : ascii) : bool :=
  if ic then ascii_eqb (lower c) (lower x) else ascii_eqb c x.

(** [$] without MULTILINE holds at the end of the text and just before a
    newline that ends the text. *)
Definition at_end (s : str) : bool :=
  match s with
  | [] => true
  | [c] => ascii_eqb c "010"
  | _ => false
  end.

(** The backtracking matcher, in continuation-passing style.  [s] is the
    text from the current position on, [g] the content of group 1 so far,
    [k] what remains to be matched after [r].  The first success in
    priority order is returned. *)
Fixpoint rmatch {R : Type} (ic : bool) (r : regex) (s : str) (g : option str)
    (k : str -> option str -> option R) : option R :=
  match r with
  | Eps => k s g
  | Chr c =>
      match s with
      | x :: s' => if chr_eq ic c x then k s' g else None
      | [] => None
      end
  | Cls p =>
      match s with
      | x :: s' => if p x then k s' g else None
      | [] => None
      end
  | Rep true p =>
      (fix more (t : str) : option R :=
         match t with
         | x :: t' =>
             if p x
             then match more t' with
                  | Some res => Some res
                  | None => k t g
                  end
             else k t g
         | [] => k [] g
         end) s
  | Rep false p =>
      (fix more (t : str) : option R :=
         match k t g with
         | Some res => Some res
         | None =>
             match t with
             | x :: t' => if p x then more t' else None
             | [] => None
             end
         end) s
  | Cat r1 r2 => rmatch ic r1 s g (fun s' g' => rmatch ic r2 s' g' k)
  | Alt r1 r2 =>
      match rmatch ic r1 s g k with
      | Some res => Some res
      | None => rmatch ic r2 s g k
      end
  | Grp r1 =>
      rmatch ic r1 s g
        (fun s' _ => k s' (Some (take (length s - length s') s)))
  | Ahead r1 =>
      match rmatch ic r1 s g (fun _ g' => Some g') with
      | Some g' => k s g'
      | None => None
      end
  | Dollar => if at_end s then k s g else None
  end.

(** A match object: the text after the match and the content of group 1. *)
Record re_match : Type := MkMatch { m_after : str; m_group1 : option str }.

Definition match_at (ic : bool) (r : regex) (s : str) : option re_match :=
  rmatch ic r s None (fun s' g => Some (MkMatch s' g)).

(** [re.search]: the match at the leftmost position that has one; the
    position after the last character is tried too. *)
Fixpoint re_search (ic : bool) (r : regex) (s : str) : option re_match :=
  match match_at ic r s with
  | Some mt => Some mt
  | None =>
      match s with
      | [] => None
      | _ :: s' => re_search ic r s'
      end
  end.

(** [match.group(1)]. *)
Definition group1 (mt : re_match) : str := default [] (m_group1 mt).

(** [re.sub(r, '', s)]: every non-overlapping match, from the left, is
    removed.  An empty match removes nothing and the scan moves on by one
    character.  The fuel is the number of scan steps, each of which
    consumes at least one character. *)
Fixpoint sub_empty_fuel (n : nat) (ic : bool) (r : regex) (s : str) : str :=
  match n with
  | O => s
  | S n' =>
      match match_at ic r s with
      | Some mt =>
          if (length (m_after mt) <? length s)%nat
          then sub_empty_fuel n' ic r (m_after mt)
          else match s with
               | [] => []
               | c :: s' => c :: sub_empty_fuel n' ic r s'
               end
      | None =>
          match s with
          | [] => []
          | c :: s' => c :: sub_empty_fuel n' ic r s'
          end
      end
  end.

Definition re_sub_empty (ic : bool) (r : regex) (s : str) : str :=
  sub_empty_fuel (S (length s)) ic r s.

(** ** The Python runtime

    What the program takes from the interpreter and cannot be written as a
    function on 8-bit text: floating point numbers with their two
    conversions, and the UTF-8 text reader. *)

Class Runtime : Type := {
  (** Python's [float]. *)
  pyfloat : Type;
  (** [float(s)] on a JSON number literal that has a fraction or an exponent. *)
  float_of_literal : str -> pyfloat;
  (** [float('nan')], [float('inf')], [float('-inf')]. *)
  float_nan : pyfloat;
  float_inf : pyfloat;
  float_neg_inf : pyfloat;
  (** The text [json] writes for a float: [float.__repr__], or one of
      [NaN], [Infinity], [-Infinity]. *)
  float_text : pyfloat -> str;
  (** [open(path, 'r', encoding='utf-8').read()] on the bytes of a file;
      [None] stands for [UnicodeDecodeError]. *)
  utf8_decode : list byte -> option str
}.

(** ** JSON values *)

Inductive json `{Runtime} : Type :=
| JNull
| JBool (b : bool)
| JInt (z : Z)
| JFloat (f : pyfloat)
| JStr (s : str)
| JArr (items : list json)
| JObj (members : list (str * json)).

(** A [dict] with [str] keys, in insertion order. *)
Abbreviation dict := (list (str * json)).

Definition str_eqb (a b : str) : bool := bool_decide (a = b).

(** [d[key] = value]: an existing key keeps its place. *)
Fixpoint dict_set `{Runtime} (d : dict) (key : str) (value : json) : dict :=
  match d with
  | [] => [(key, value)]
  | (k, v) :: d' =>
      if str_eqb k key then (k, value) :: d' else (k, v) :: dict_set d' key value
  end.

(** [d[key]], [None] standing for [KeyError]. *)
Fixpoint dict_get `{Runtime} (d : dict) (key : str) : option json :=
  match d with
  | [] => None
  | (k, v) :: d' => if str_eqb k key then Some v else dict_get d' key
  end.

(** [list(d.keys())]. *)
Definition dict_keys `{Runtime} (d : dict) : list str := map fst d.

(** [{**a, **b}] continued from [a]. *)
Definition dict_update `{Runtime} (a b : dict) : dict :=
  fold_left (fun d kv => dict_set d (fst kv) (snd kv)) b a.

(** ** [json.dump]

    The encoder of Python's [json] with [ensure_ascii=False], in the two
    layouts the program asks for: [separators=(',', ':')] and [indent=2]. *)

Inductive layout : Type := Compact | Indent2.

Definition hex_digit (n : N) : ascii :=
  if (n <? 10)%N then ascii_of_N (48 + n) else ascii_of_N (87 + n).

(** One character inside a string literal. *)
Definition escape_char (c : ascii) : str :=
  if ascii_eqb c dquote then ["\"; dquote]
  else if ascii_eqb c "\" then ["\"; "\"]
  else if ascii_eqb c "010" then ["\"; "n"]
  else if ascii_eqb c "013" then ["\"; "r"]
  else if ascii_eqb c "009" then ["\"; "t"]
  else if ascii_eqb c "008" then ["\"; "b"]
  else if ascii_eqb c "012" then ["\"; "f"]
  else if (code c <? 32)%N
       then ["\"; "u"; "0"; "0"; hex_digit (code c / 16); hex_digit (code c mod 16)]
       else [c].

Definition encode_str (s : str) : str :=
  dquote :: flat_map escape_char s ++ [dquote].

Fixpoint uint_chars (d : uint) : str :=
  match d with
  | Nil => []
  | D0 d' => "0" :: uint_chars d'
  | D1 d' => "1" :: uint_chars d'
  | D2 d' => "2" :: uint_chars d'
  | D3 d' => "3" :: uint_chars d'
  | D4 d' => "4" :: uint_chars d'
  | D5 d' => "5" :: uint_chars d'
  | D6 d' => "6" :: uint_chars d'
  | D7 d' => "7" :: uint_chars d'
  | D8 d' => "8" :: uint_chars d'
  | D9 d' => "9" :: uint_chars d'
  end.

(** [int.__repr__]. *)
Definition encode_int (z : Z) : str :=
  match z with
  | Z0 => ["0"]
  | Zpos p => uint_chars (Pos.to_uint p)
  | Zneg p => "-" :: uint_chars (Pos.to_uint p)
  end.

(** ['\n' + indent * level], and nothing in the compact layout. *)
Definition newline_indent (ly : layout) (level : nat) : str :=
  match ly with
  | Compact => []
  | Indent2 => "010" :: repeat " " (2 * level)
  end.

Definition item_separator (ly : layout) (level : nat) : str :=
  "," :: newline_indent ly level.

Definition key_separator (ly : layout) : str :=
  match ly with
  | Compact => [":"]
  | Indent2 => [":"; " "]
  end.

(** [sep.join(chunks)]. *)
Fixpoint join (sep : str) (chunks : list str) : str :=
  match chunks with
  | [] => []
  | [c] => c
  | c :: rest => c ++ sep ++ join sep rest
  end.

Fixpoint encode `{Runtime} (ly : layout) (level : nat) (v : json) : str :=
  match v with
  | JNull => lit "null"
  | JBool true => lit "true"
  | JBool false => lit "false"
  | JInt z => encode_int z
  | JFloat f => float_text f
  | JStr s => encode_str s
  | JArr [] => lit "[]"
  | JArr items =>
      "[" :: newline_indent ly (S level)
        ++ join (item_separator ly (S level)) (map (encode ly (S level)) items)
        ++ newline_indent ly level ++ ["]"]
  | JObj [] => lit "{}"
  | JObj members =>
      "{" :: newline_indent ly (S level)
        ++ join (item_separator ly (S level))
             (map (fun kv => encode_str (fst kv) ++ key_separator ly
                               ++ encode ly (S level) (snd kv)) members)
        ++ newline_indent ly level ++ ["}"]
  end.

(** The text [json.dump(data, f, ...)] writes. *)
Definition json_dumps `{Runtime} (compact : bool) (data : json) : str :=
  encode (if compact then Compact else Indent2) 0 data.

(** ** [json.loads]

    The decoder of Python's [json] in its default, strict configuration,
    as its scanner is written: [scan_once] dispatches on the first
    character, [scanstring] reads a string literal, and objects and arrays
    loop over their members. *)

(** The [WHITESPACE] of the decoder: space, tab, newline, carriage return. *)
Definition json_ws (c : ascii) : bool :=
  ascii_eqb c " " || ascii_eqb c "009" || ascii_eqb c "010" || ascii_eqb c "013".

Fixpoint skip_ws (s : str) : str :=
  match s with
  | c :: s' => if json_ws c then skip_ws s' else s
  | [] => []
  end.

Definition is_digit (c : ascii) : bool := in_range 48 57 c.

Definition hex_value (c : ascii) : option N :=
  if in_range 48 57 c then Some (code c - 48)%N
  else if in_range 97 102 c then Some (code c - 87)%N
  else if in_range 65 70 c then Some (code c - 55)%N
  else None.

(** The four hexadecimal digits of a [\u] escape.  A code point above 255
    has no counterpart in 8-bit text and is refused here. *)
Definition decode_u4 (a b c d : ascii) : option ascii :=
  match hex_value a, hex_value b, hex_value c, hex_value d with
  | Some x, Some y, Some z, Some w =>
      if ((x =? 0) && (y =? 0))%N then Some (ascii_of_N (16 * z + w)) else None
  | _, _, _, _ => None
  end.

(** [scanstring], entered just after the opening quote: the content of the
    literal and the text after its closing quote. *)
Fixpoint scanstring (s : str) : option (str * str) :=
  match s with
  | [] => None
  | c :: s1 =>
      if ascii_eqb c dquote then Some ([], s1)
      else if ascii_eqb c "\" then
        match s1 with
        | [] => None
        | e :: s2 =>
            let simple (x : ascii) :=
              match scanstring s2 with
              | Some (t, r) => Some (x :: t, r)
              | None => None
              end in
            if ascii_eqb e dquote then simple dquote
            else if ascii_eqb e "\" then simple "\"
            else if ascii_eqb e "/" then simple "/"
            else if ascii_eqb e "b" then simple "008"
            else if ascii_eqb e "f" then simple "012"
            else if ascii_eqb e "n" then simple "010"
            else if ascii_eqb e "r" then simple "013"
            else if ascii_eqb e "t" then simple "009"
            else if ascii_eqb e "u" then
              match s2 with
              | h1 :: h2 :: h3 :: h4 :: s3 =>
                  match decode_u4 h1 h2 h3 h4 with
                  | Some x =>
                      match scanstring s3 with
                      | Some (t, r) => Some (x :: t, r)
                      | None => None
                      end
                  | None => None
                  end
              | _ => None
              end
            else None
        end
      else if (code c <? 32)%N then None
      else
        match scanstring s1 with
        | Some (t, r) => Some (c :: t, r)
        | None => None
        end
  end.

(** The longest prefix of digits, and the rest. *)
Fixpoint span_digits (s : str) : str * str :=
  match s with
  | c :: s' =>
      if is_digit c then let '(d, r) := span_digits s' in (c :: d, r) else ([], s)
  | [] => ([], [])
  end.

Fixpoint chars_uint (ds : str) : uint :=
  match ds with
  | [] => Nil
  | c :: ds' =>
      let u := chars_uint ds' in
      match (code c - 48)%N with
      | 0 => D0 u | 1 => D1 u | 2 => D2 u | 3 => D3 u | 4 => D4 u
      | 5 => D5 u | 6 => D6 u | 7 => D7 u | 8 => D8 u | _ => D9 u
      end%N
  end.

(** [int(s)] on an integer literal: an optional minus sign and digits. *)
Definition int_of_literal (negative : bool) (digits : str) : Z :=
  if negative then (- Z.of_N (N.of_uint (chars_uint digits)))%Z
  else Z.of_N (N.of_uint (chars_uint digits)).

(** The integer part [0|[1-9][0-9]*] at the head of [s]. *)
Definition scan_int_part (s : str) : option (str * str) :=
  match s with
  | c :: s' =>
      if ascii_eqb c "0" then Some (["0"], s')
      else if in_range 49 57 c
           then let '(d, r) := span_digits s' in Some (c :: d, r)
           else None
  | [] => None
  end.

(** The optional fraction [\.[0-9]+]. *)
Definition scan_frac (s : str) : str * str :=
  match s with
  | p :: ((c :: _) as s') =>
      if ascii_eqb p "." && is_digit c
      then let '(d, r) := span_digits s' in (p :: d, r)
      else ([], s)
  | _ => ([], s)
  end.

(** The optional exponent [[eE][-+]?[0-9]+]; without a digit the scanner
    backtracks to before the [e]. *)
Definition scan_exp (s : str) : str * str :=
  match s with
  | e :: s1 =>
      if ascii_eqb e "e" || ascii_eqb e "E" then
        let '(sign, s2) :=
          match s1 with
          | c :: s2 => if ascii_eqb c "-" || ascii_eqb c "+" then ([c], s2) else ([], s1)
          | [] => ([], s1)
          end in
        match span_digits s2 with
        | ([], _) => ([], s)
        | (d, r) => (e :: sign ++ d, r)
        end
      else ([], s)
  | [] => ([], s)
  end.

(** [_match_number]: a number literal at the head of [s], as an [int] when
    it has neither fraction nor exponent and as a [float] otherwise. *)
Definition scan_sign (s : str) : bool * str :=
  match s with
  | c :: s' => if ascii_eqb c "-" then (true, s') else (false, s)
  | [] => (false, s)
  end.

Definition scan_number `{Runtime} (s : str) : option (json * str) :=
  let '(negative, s0) := scan_sign s in
  match scan_int_part s0 with
  | None => None
  | Some (ip, s1) =>
      let '(fp, s2) := scan_frac s1 in
      let '(ep, s3) := scan_exp s2 in
      match fp, ep with
      | [], [] => Some (JInt (int_of_literal negative ip), s3)
      | _, _ =>
          Some (JFloat (float_of_literal
                          ((if negative then ["-"] else []) ++ ip ++ fp ++ ep)), s3)
      end
  end.

(** A fixed word at the head of [s]. *)
Definition scan_word {A} (w : str) (a : A) (s : str) : option (A * str) :=
  if startswith w s then Some (a, drop (length w) s) else None.

(** [scan_once] with the loops of [_parse_object] and [_parse_array].  The
    fuel bounds the depth of the calls; [json_loads] supplies more than
    any successful scan of its input can use. *)
Fixpoint scan_once `{Runtime} (n : nat) (s : str) : option (json * str) :=
  match n with
  | O => None
  | S n' =>
      match s with
      | [] => None
      | c :: s1 =>
          if ascii_eqb c dquote then
            match scanstring s1 with
            | Some (t, r) => Some (JStr t, r)
            | None => None
            end
          else if ascii_eqb c "{" then
            match skip_ws s1 with
            | [] => None
            | c2 :: r => if ascii_eqb c2 "}" then Some (JObj [], r)
                         else parse_object n' (c2 :: r) []
            end
          else if ascii_eqb c "[" then
            match skip_ws s1 with
            | [] => None
            | c2 :: r => if ascii_eqb c2 "]" then Some (JArr [], r)
                         else parse_array n' (c2 :: r) []
            end
          else if ascii_eqb c "n" then scan_word (lit "null") JNull s
          else if ascii_eqb c "t" then scan_word (lit "true") (JBool true) s
          else if ascii_eqb c "f" then scan_word (lit "false") (JBool false) s
          else if ascii_eqb c "N" then scan_word (lit "NaN") (JFloat float_nan) s
          else if ascii_eqb c "I" then scan_word (lit "Infinity") (JFloat float_inf) s
          else if ascii_eqb c "-" && startswith (lit "-Infinity") s
               then scan_word (lit "-Infinity") (JFloat float_neg_inf) s
          else scan_number s
      end
  end
with parse_array `{Runtime} (n : nat) (s : str) (acc : list json)
    : option (json * str) :=
  match n with
  | O => None
  | S n' =>
      match scan_once n' s with
      | None => None
      | Some (v, r) =>
          match skip_ws r with
          | [] => None
          | c :: r' =>
              if ascii_eqb c "]" then Some (JArr (acc ++ [v]), r')
              else if ascii_eqb c "," then parse_array n' (skip_ws r') (acc ++ [v])
              else None
          end
      end
  end
with parse_object `{Runtime} (n : nat) (s : str) (acc : dict)
    : option (json * str) :=
  match n with
  | O => None
  | S n' =>
      match s with
      | [] => None
      | q :: s1 =>
          if ascii_eqb q dquote then
            match scanstring s1 with
            | None => None
            | Some (key, r) =>
                match skip_ws r with
                | [] => None
                | c :: r1 =>
                    if ascii_eqb c ":" then
                      match scan_once n' (skip_ws r1) with
                      | None => None
                      | Some (v, r2) =>
                          match skip_ws r2 with
                          | [] => None
                          | c2 :: r3 =>
                              if ascii_eqb c2 "}"
                              then Some (JObj (dict_set acc key v), r3)
                              else if ascii_eqb c2 ","
                              then parse_object n' (skip_ws r3) (dict_set acc key v)
                              else None
                          end
                      end
                    else None
                end
            end
          else None
      end
  end.

(** [json.loads(s)]: one value between optional whitespace and nothing
    else; [None] stands for [json.JSONDecodeError]. *)
Definition json_loads `{Runtime} (s : str) : option json :=
  match scan_once (2 * length s + 2) (skip_ws s) with
  | Some (v, r) => match skip_ws r with [] => Some v | _ :: _ => None end
  | None => None
  end.

(** ** The extractor: scanning the document *)

(** [GlowrootTraceExtractor.JSON_SCRIPT_IDS]. *)
Definition JSON_SCRIPT_IDS : list str :=
  [ lit "headerJson"; lit "entriesJson"; lit "queriesJson";
    lit "sharedQueryTextsJson"; lit "mainThreadProfileJson";
    lit "auxThreadProfileJson" ].

(** The opening tag of the pattern of [_extract_json_from_html]:
    [<script\s+type="text/json"\s+id="{script_id}"[^>]*>].  The identifier
    is spliced into the pattern as literal characters, which is what the
    interpolation does for identifiers made of letters. *)
Definition open_tag_pattern (script_id : str) : regex :=
  Cat (lits (lit "<script"))
 (Cat (plus isspace)
 (Cat (lits (lit "type=" ++ dquote :: lit "text/json" ++ [dquote]))
 (Cat (plus isspace)
 (Cat (lits (lit "id=" ++ dquote :: script_id ++ [dquote]))
 (Cat (Rep true not_gt)
      (Chr ">")))))).

(** The rest of that pattern: [(.*?)(?=<script|</body>|$)], with DOTALL. *)
Definition body_pattern : regex :=
  Cat (Grp (Rep false (any_char true)))
      (Ahead (Alt (lits (lit "<script")) (Alt (lits (lit "</body>")) Dollar))).

Definition script_pattern (script_id : str) : regex :=
  Cat (open_tag_pattern script_id) body_pattern.

(** The pattern of the clean-up step: [</script>.*$], with DOTALL. *)
Definition cleanup_pattern : regex :=
  Cat (lits (lit "</script>")) (Cat (Rep true (any_char true)) Dollar).

(** [_camel_to_snake]; [i] is the index that [enumerate] supplies. *)
Fixpoint camel_from (i : nat) (camel_str : str) : str :=
  match camel_str with
  | [] => []
  | char :: rest =>
      (if isupper char && (0 <? i)%nat then ["_"] else [])
        ++ lower char :: camel_from (S i) rest
  end.

Definition _camel_to_snake (camel_str : str) : str := camel_from 0 camel_str.

(** [self._camel_to_snake(script_id.replace('Json', ''))]. *)
Definition output_key (script_id : str) : str :=
  _camel_to_snake (replace_with_empty (lit "Json") script_id).

(** What the loop body finds for one identifier, before decoding: no
    match; a match whose cleaned content is empty; or the cleaned content. *)
Inductive span : Type :=
| NotFound
| FoundEmpty
| Found (content : str).

Definition extract_span (script_id html_content : str) : span :=
  match re_search true (script_pattern script_id) html_content with
  | Some mt =>
      let content := strip (group1 mt) in
      let content := re_sub_empty false cleanup_pattern content in
      let content := strip content in
      match content with
      | _ :: _ => Found content
      | [] => FoundEmpty
      end
  | None => NotFound
  end.

(** One turn of the loop of [_extract_json_from_html]. *)
Definition extract_step `{Runtime} (html_content : str) (extracted : dict)
    (script_id : str) : dict :=
  match extract_span script_id html_content with
  | Found content =>
      match json_loads content with
      | Some json_data => dict_set extracted (output_key script_id) json_data
      | None =>
          dict_set extracted (output_key script_id ++ lit "_raw") (JStr content)
      end
  | FoundEmpty => extracted
  | NotFound => extracted
  end.

Definition extract_over `{Runtime} (html_content : str) (ids : list str)
    (extracted : dict) : dict :=
  fold_left (extract_step html_content) ids extracted.

Definition _extract_json_from_html `{Runtime} (html_content : str) : dict :=
  extract_over html_content JSON_SCRIPT_IDS [].

(** ** Paths, files and exceptions *)

(** A [pathlib] path on a POSIX system: whether it is anchored at the
    root, and its components.  Components are opaque names. *)
Record Path : Type := MkPath { is_absolute : bool; parts : list str }.

Fixpoint split_slash (s cur : str) : list str :=
  match s with
  | [] => [cur]
  | c :: s' =>
      if ascii_eqb c "/" then cur :: split_slash s' [] else split_slash s' (cur ++ [c])
  end.

Definition real_part (x : str) : bool :=
  negb (str_eqb x []) && negb (str_eqb x ["."]).

(** [Path(s)]. *)
Definition path_of_str (s : str) : Path :=
  MkPath (startswith ["/"] s) (filter (fun x => real_part x = true) (split_slash s [])).

(** [str(p)]. *)
Definition path_str (p : Path) : str :=
  if is_absolute p then "/" :: join ["/"] (parts p)
  else match parts p with
       | [] => ["."]
       | _ => join ["/"] (parts p)
       end.

(** [p / s]. *)
Definition path_join (p : Path) (s : str) : Path :=
  let q := path_of_str s in
  if is_absolute q then q else MkPath (is_absolute p) (parts p ++ parts q).

(** [p.parent], [p.name], [p.stem]. *)
Definition path_parent (p : Path) : Path :=
  MkPath (is_absolute p) (removelast (parts p)).

Definition path_name (p : Path) : str := List.last (parts p) [].

(** [name.rfind('.')]. *)
Fixpoint rfind_dot (name : str) (i : nat) (found : option nat) : option nat :=
  match name with
  | [] => found
  | c :: name' =>
      rfind_dot name' (S i) (if ascii_eqb c "." then Some i else found)
  end.

Definition path_stem (p : Path) : str :=
  let name := path_name p in
  match rfind_dot name 0 None with
  | Some i => if (0 <? i)%nat && (i <? length name - 1)%nat then take i name else name
  | None => name
  end.

Inductive node : Type :=
| File (data : list byte)
| Dir.

Abbreviation filesystem := (gmap (list str) node).

(** What the run reads from its environment and never changes: the
    working directory and the value of [datetime.now().isoformat()]. *)
Record environ : Type := MkEnviron { cwd : list str; now_isoformat : str }.

(** [p.absolute()], and the key of [p] in the file system. *)
Definition path_absolute (e : environ) (p : Path) : Path :=
  if is_absolute p then p else MkPath true (cwd e ++ parts p).

Definition resolve (e : environ) (p : Path) : list str := parts (path_absolute e p).

(** The root always exists and is a directory. *)
Definition node_at (fs : filesystem) (ap : list str) : option node :=
  match ap with
  | [] => Some Dir
  | _ => fs !! ap
  end.

Inductive exn : Type :=
| FileNotFoundError (message : str)
| IsADirectoryError
| NotADirectoryError
| FileExistsError
| KeyError (key : str).

(** Computations that read and write the file system and may raise. *)
Definition io (A : Type) : Type := filesystem -> filesystem * (exn + A).

Definition ret {A} (a : A) : io A := fun fs => (fs, inr a).
Definition raise {A} (x : exn) : io A := fun fs => (fs, inl x).
Definition bind {A B} (m : io A) (f : A -> io B) : io B :=
  fun fs =>
    match m fs with
    | (fs', inr a) => f a fs'
    | (fs', inl x) => (fs', inl x)
    end.

Notation "'do' x <- m ; f" := (bind m (fun x => f))
  (at level 10, x name, m at level 100, f at level 200).

(** [p.exists()]. *)
Definition path_exists (e : environ) (p : Path) : io bool :=
  fun fs => (fs, inr (bool_decide (is_Some (node_at fs (resolve e p))))).

(** The bytes behind [open(p, 'r')]. *)
Definition open_read (e : environ) (p : Path) : io (list byte) :=
  fun fs =>
    match node_at fs (resolve e p) with
    | Some (File data) => (fs, inr data)
    | Some Dir => (fs, inl IsADirectoryError)
    | None => (fs, inl (FileNotFoundError (path_str p)))
    end.

(** Text mode translates [\r\n] and [\r] into [\n] on reading. *)
Fixpoint universal_newlines (s : str) : str :=
  match s with
  | [] => []
  | c :: s' =>
      if ascii_eqb c "013" then
        match s' with
        | d :: s'' => if ascii_eqb d "010" then "010" :: universal_newlines s''
                      else "010" :: universal_newlines s'
        | [] => ["010"]
        end
      else c :: universal_newlines s'
  end.

(** [open(p, 'r', encoding='latin-1').read()]: every byte is a character. *)
Definition latin1_read (data : list byte) : str :=
  universal_newlines (map ascii_of_byte data).

(** UTF-8 for code points below 256. *)
Definition utf8_encode_char (c : ascii) : list byte :=
  if (code c <? 128)%N then [byte_of_ascii c]
  else [ byte_of_ascii (ascii_of_N (192 + code c / 64));
         byte_of_ascii (ascii_of_N (128 + code c mod 64)) ].

Definition utf8_encode (s : str) : list byte := flat_map utf8_encode_char s.

(** [open(p, 'w', encoding='utf-8')] followed by writing [text]. *)
Definition write_text (e : environ) (p : Path) (text : str) : io unit :=
  fun fs =>
    let ap := resolve e p in
    match node_at fs ap with
    | Some Dir => (fs, inl IsADirectoryError)
    | _ =>
        match node_at fs (removelast ap) with
        | Some Dir => (<[ap := File (utf8_encode text)]> fs, inr tt)
        | Some (File _) => (fs, inl NotADirectoryError)
        | None => (fs, inl (FileNotFoundError (path_str p)))
        end
    end.

(** [p.mkdir(parents=True, exist_ok=True)], walking down from the root:
    missing directories are created, existing ones are kept, and a file in
    the way raises. *)
Fixpoint mkdir_from (visited todo : list str) : io unit :=
  match todo with
  | [] => ret tt
  | d :: todo' =>
      fun fs =>
        let ap := visited ++ [d] in
        match fs !! ap with
        | None => mkdir_from ap todo' (<[ap := Dir]> fs)
        | Some Dir => mkdir_from ap todo' fs
        | Some (File _) =>
            (fs, inl (match todo' with [] => FileExistsError | _ => NotADirectoryError end))
        end
  end.

Definition mkdir_parents (e : environ) (p : Path) : io unit :=
  mkdir_from [] (resolve e p).

(** ** The extractor: orchestration and output *)

(** The body of the [try] / [except UnicodeDecodeError] of
    [extract_from_file]: UTF-8 first, Latin-1 when that fails. *)
Definition read_html `{Runtime} (e : environ) (html_path : Path) : io str :=
  do data <- open_read e html_path;
  match utf8_decode data with
  | Some html_content => ret html_content
  | None =>
      do data' <- open_read e html_path;
      ret (latin1_read data')
  end.

(** [self.extraction_metadata]. *)
Definition extraction_metadata `{Runtime} (e : environ) (html_path : Path)
    (extracted_data : dict) : dict :=
  [ (lit "source_file", JStr (path_name html_path));
    (lit "source_path", JStr (path_str (path_absolute e html_path)));
    (lit "extraction_time", JStr (now_isoformat e));
    (lit "tool_version", JStr (lit "1.0.0"));
    (lit "extracted_scripts", JArr (map JStr (dict_keys extracted_data))) ].

Definition extract_from_file `{Runtime} (e : environ) (html_file_path : str)
    : io dict :=
  let html_path := path_of_str html_file_path in
  do found <- path_exists e html_path;
  if negb found
  then raise (FileNotFoundError (lit "HTML file not found: " ++ html_file_path))
  else
    do html_content <- read_html e html_path;
    let extracted_data := _extract_json_from_html html_content in
    let metadata := extraction_metadata e html_path extracted_data in
    ret (dict_update [(lit "extraction_metadata", JObj metadata)] extracted_data).

Definition _save_combined_file `{Runtime} (e : environ) (data : dict)
    (output_path : Path) (compact : bool) : io unit :=
  do _ <- mkdir_parents e (path_parent output_path);
  write_text e output_path (json_dumps compact (JObj data)).

(** The loop of [_save_separate_files] over [data.items()]. *)
Fixpoint save_items `{Runtime} (e : environ) (base_path : Path) (compact : bool)
    (items : dict) : io unit :=
  match items with
  | [] => ret tt
  | (key, value) :: rest =>
      if negb (str_eqb key (lit "extraction_metadata"))
      then
        do _ <- write_text e (path_join base_path (key ++ lit ".json"))
                  (json_dumps compact value);
        save_items e base_path compact rest
      else save_items e base_path compact rest
  end.

Definition _save_separate_files `{Runtime} (e : environ) (data : dict)
    (output_path : Path) (compact : bool) : io unit :=
  let base_path := path_join (path_parent output_path) (path_stem output_path) in
  do _ <- mkdir_parents e base_path;
  let metadata_file := path_join base_path (lit "extraction_metadata.json") in
  match dict_get data (lit "extraction_metadata") with
  | None => fun fs =>
      (* the file is opened before the missing key is looked up *)
      match write_text e metadata_file [] fs with
      | (fs', inr _) => (fs', inl (KeyError (lit "extraction_metadata")))
      | (fs', inl x) => (fs', inl x)
      end
  | Some metadata =>
      do _ <- write_text e metadata_file (json_dumps compact metadata);
      save_items e base_path compact data
  end.

Definition save_to_file `{Runtime} (e : environ) (data : dict)
    (output_path : str) (separate_files compact : bool) : io unit :=
  let output_path_obj := path_of_str output_path in
  if separate_files
  then _save_separate_files e data output_path_obj compact
  else _save_combined_file e data output_path_obj compact.

(** The parsed command line. *)
Record arguments : Type := MkArguments {
  input_file : str;
  output : str;
  separate : bool;
  pretty : bool;
  output_dir : option str
}.

(** [main] after [parse_args]: the final file system and the exit status. *)
Definition main `{Runtime} (e : environ) (args : arguments)
    (fs : filesystem) : filesystem * Z :=
  let output_path :=
    match output_dir args with
    | Some ((_ :: _) as dir) =>
        if separate args
        then path_join (path_of_str dir) (lit "extracted_data")
        else path_join (path_of_str dir) (lit "extracted_trace_data.json")
    | _ => path_of_str (output args)
    end in
  let body :=
    do extracted_data <- extract_from_file e (input_file args);
    let compact_mode := negb (pretty args) in
    save_to_file e extracted_data (path_str output_path) (separate args) compact_mode in
  match body fs with
  | (fs', inr _) => (fs', 0%Z)
  | (fs', inl _) => (fs', 1%Z)
  end.

(** ** The specification's reading of the scan

    These definitions follow the words of the specification rather than
    the program: the opening marker as a textual form, the captured span
    as "everything up to the next stop", the clean-up as a cut at the
    closing token, the key as "suffix stripped, separators inserted,
    lowercased".  The theorems relate them to the definitions above. *)

Fixpoint drop_while (p : ascii -> bool) (s : str) : str :=
  match s with
  | c :: s' => if p c then drop_while p s' else s
  | [] => []
  end.

(** One or more whitespace characters at the head of [s]; the text after them. *)
Definition after_spaces (s : str) : option str :=
  match s with
  | c :: s' => if isspace c then Some (drop_while isspace s') else None
  | [] => None
  end.

Definition type_attribute : str := lit "type=" ++ dquote :: lit "text/json" ++ [dquote].
Definition id_attribute (script_id : str) : str :=
  lit "id=" ++ dquote :: script_id ++ [dquote].

(** The opening marker at the head of [s], letter case apart: the tag
    name, whitespace, the type attribute, whitespace, the id attribute,
    anything up to the first [>].  The result is the text after the [>]. *)
Definition open_marker (script_id s : str) : option str :=
  if startswith_ci (lit "<script") s then
    match after_spaces (drop 7 s) with
    | Some s1 =>
        if startswith_ci type_attribute s1 then
          match after_spaces (drop (length type_attribute) s1) with
          | Some s2 =>
              if startswith_ci (id_attribute script_id) s2 then
                match drop_while not_gt (drop (length (id_attribute script_id)) s2) with
                | c :: rest => if ascii_eqb c ">" then Some rest else None
                | [] => None
                end
              else None
          | None => None
          end
        else None
    | None => None
    end
  else None.

(** The first position of [s], from the left, where [f] has a result. *)
Fixpoint first_suffix {A} (f : str -> option A) (s : str) : option A :=
  match f s with
  | Some a => Some a
  | None =>
      match s with
      | [] => None
      | _ :: s' => first_suffix f s'
      end
  end.

(** The text just after the first opening marker of [script_id]. *)
Definition first_open (script_id html_content : str) : option str :=
  first_suffix (open_marker script_id) html_content.

(** The next marker of the same kind, or the end-of-body marker. *)
Definition next_marker (s : str) : bool :=
  startswith_ci (lit "<script") s || startswith_ci (lit "</body>") s.

(** Everything up to, and not including, the first position where [stop]
    holds, or up to the end. *)
Fixpoint take_until (stop : str -> bool) (s : str) : str :=
  if stop s then []
  else match s with
       | c :: s' => c :: take_until stop s'
       | [] => []
       end.

(** [s] cut at the first occurrence of [token], when there is one. *)
Definition cut_at (token : str) (s : str) : str := take_until (startswith token) s.

Definition closing_token : str := lit "</script>".

(** Where the lazy [(.*?)] of the pattern stops: at a next marker, or
    where [$] holds. *)
Definition body_stop (s : str) : bool := next_marker s || at_end s.

(** The span of one marker as the specification words it. *)
Definition span_spec (script_id html_content : str) : span :=
  match first_open script_id html_content with
  | None => NotFound
  | Some body =>
      match strip (cut_at closing_token (take_until next_marker body)) with
      | [] => FoundEmpty
      | c :: content => Found (c :: content)
      end
  end.

(** [s] without the suffix [suffix], when it ends with it. *)
Definition strip_suffix (suffix s : str) : str :=
  if bool_decide (drop (length s - length suffix) s = suffix)
  then take (length s - length suffix) s
  else s.

(** A separator before every upper-case letter but the first character. *)
Fixpoint separate_words (first : bool) (s : str) : str :=
  match s with
  | [] => []
  | c :: s' =>
      if isupper c && negb first then "_" :: c :: separate_words false s'
      else c :: separate_words false s'
  end.

(** Key normalization as the specification words it. *)
Definition normalize_spec (script_id : str) : str :=
  map lower (separate_words true (strip_suffix (lit "Json") script_id)).

(** Text made of whitespace only, and text free of whitespace. *)
Definition all_space (ws : str) : Prop := Forall (fun c => isspace c = true) ws.
Definition no_space (w : str) : Prop := Forall (fun c => isspace c = false) w.

(** Two texts that differ in letter case at most. *)
Definition same_letters (a b : str) : Prop := map lower a = map lower b.

(** The textual form of an opening marker at the head of [s], with [rest]
    after it: the tag name, whitespace, the type attribute with double
    quotes, whitespace, the id attribute with double quotes, anything but
    [>], and [>]; letters in either case. *)
Definition opening_form (script_id s rest : str) : Prop :=
  exists name ws1 ty ws2 ida junk,
    s = name ++ ws1 ++ ty ++ ws2 ++ ida ++ junk ++ ">" :: rest
    /\ same_letters name (lit "<script")
    /\ ws1 <> [] /\ all_space ws1
    /\ same_letters ty type_attribute
    /\ ws2 <> [] /\ all_space ws2
    /\ same_letters ida (id_attribute script_id)
    /\ Forall (fun c => c <> ">") junk.

(** The opening tag in its usual spelling. *)
Definition plain_open_tag (script_id : str) : str :=
  lit "<script" ++ " " :: type_attribute ++ " " :: id_attribute script_id ++ [">"].

(** Text without the character [<]. *)
Definition no_lt (s : str) : Prop := Forall (fun c => c <> "<") s.

(** [w] occurs in [s]; and the same up to letter case. *)
Fixpoint occurs (w s : str) : bool :=
  startswith w s || match s with [] => false | _ :: s' => occurs w s' end.

Fixpoint occurs_ci (w s : str) : bool :=
  startswith_ci w s || match s with [] => false | _ :: s' => occurs_ci w s' end.

(** Text that holds no script tag. *)
Definition no_script_tag (s : str) : Prop := occurs_ci (lit "<script") s = false.

(** The inside of a script element, after its [<], in one of the forms
    the pattern does not accept: the id attribute before the type
    attribute; the type attribute in single quotes; the id attribute in
    single quotes; or the tag name followed by something that is not
    whitespace. *)
Definition malformed_interior (interior : str) : Prop :=
  (exists ws id' more, all_space ws
     /\ interior = lit "script" ++ ws ++ id_attribute id' ++ more)
  \/ (exists ws more, all_space ws
        /\ interior = lit "script" ++ ws ++ lit "type='text/json'" ++ more)
  \/ (exists ws ws' more, ws <> [] /\ all_space ws /\ all_space ws'
        /\ interior = lit "script" ++ ws ++ type_attribute ++ ws' ++ lit "id='" ++ more)
  \/ (exists c more, isspace c = false /\ interior = lit "script" ++ c :: more).

(** ** Values that [json] writes and reads back *)

(** Every object of the value has distinct keys, as a [dict] has. *)
Fixpoint json_wf `{Runtime} (v : json) : Prop :=
  match v with
  | JArr items =>
      (fix all (l : list json) : Prop :=
         match l with [] => True | x :: l' => json_wf x /\ all l' end) items
  | JObj members =>
      NoDup (map fst members)
      /\ (fix all (l : list (str * json)) : Prop :=
            match l with [] => True | kv :: l' => json_wf (snd kv) /\ all l' end) members
  | _ => True
  end.

(** The text written for a float reads back as that float. *)
Definition float_roundtrip `{Runtime} (f : pyfloat) : Prop :=
  json_loads (float_text f) = Some (JFloat f).

(** Every float of the value reads back from its text. *)
Fixpoint floats_ok `{Runtime} (v : json) : Prop :=
  match v with
  | JFloat f => float_roundtrip f
  | JArr items =>
      (fix all (l : list json) : Prop :=
         match l with [] => True | x :: l' => floats_ok x /\ all l' end) items
  | JObj members =>
      (fix all (l : list (str * json)) : Prop :=
         match l with [] => True | kv :: l' => floats_ok (snd kv) /\ all l' end) members
  | _ => True
  end.

(** The depth of calls the scanner needs to read the value back. *)
Fixpoint weight `{Runtime} (v : json) : nat :=
  match v with
  | JArr items =>
      S ((fix total (l : list json) : nat :=
            match l with [] => 0 | x :: l' => S (weight x) + total l' end) items)
  | JObj members =>
      S ((fix total (l : list (str * json)) : nat :=
            match l with [] => 0 | kv :: l' => S (weight (snd kv)) + total l' end) members)
  | _ => 1
  end.

(** What follows a value in a text that [json] wrote: nothing, a comma, a
    closing bracket or a newline. *)
Definition delimited (rest : str) : Prop :=
  match rest with
  | [] => True
  | c :: _ => c = "," \/ c = "]" \/ c = "}" \/ c = "010"
  end.

(** The six keys, in the order of the identifiers. *)
Definition normalized_keys : list str :=
  [ lit "header"; lit "entries"; lit "queries"; lit "shared_query_texts";
    lit "main_thread_profile"; lit "aux_thread_profile" ].

(** The text the orchestrator works on, given the bytes of the input. *)
Definition html_of_bytes `{Runtime} (data : list byte) : str :=
  match utf8_decode data with
  | Some html_content => html_content
  | None => latin1_read data
  end.

Definition metadata_key : str := lit "extraction_metadata".

(** The Combined Output for a given extraction result: the metadata
    record under its reserved key, then the extracted keys. *)
Definition combined `{Runtime} (e : environ) (html_file_path : str)
    (extracted : dict) : dict :=
  (metadata_key, JObj (extraction_metadata e (path_of_str html_file_path) extracted))
    :: extracted.


(** A Combined Output is a value [extract_from_file] returns. *)
Definition combined_output `{Runtime} (data : dict) : Prop :=
  exists e html_file_path fs fs',
    extract_from_file e html_file_path fs = (fs', inr data).

(** ** Further notions used by the properties *)

(** The two keys one identifier can produce. *)
Definition keys_of (script_id : str) : list str :=
  [output_key script_id; output_key script_id ++ lit "_raw"].

(** What one marker adds to the result: its decoded value under its key,
    its raw text under the key with [_raw], or nothing. *)
Definition marker_entry `{Runtime} (html script_id : str) : dict :=
  match extract_span script_id html with
  | Found content =>
      match json_loads content with
      | Some json_data => [(output_key script_id, json_data)]
      | None => [(output_key script_id ++ lit "_raw", JStr content)]
      end
  | _ => []
  end.

(** Some position of [s] satisfies [here]. *)
Fixpoint occurs_by (here : str -> bool) (s : str) : bool :=
  here s || match s with [] => false | _ :: s' => occurs_by here s' end.

(** What may follow the content of a region: the end of the document, the
    closing tag, or the next marker. *)
Definition region_end (ending : str) : Prop :=
  ending = [] \/ startswith closing_token ending = true \/ next_marker ending = true.

(** Text made of the whitespace of the JSON grammar only. *)
Definition all_json_ws (ws : str) : Prop := Forall (fun c => json_ws c = true) ws.

(** The depth of calls the loops of the scanner need for a list of
    values. *)
Fixpoint weights `{Runtime} (l : list json) : nat :=
  match l with
  | [] => 0
  | x :: l' => S (weight x) + weights l'
  end.

(** ** What a run leaves on the file system *)

(** Every path of [fs] is still there in [fs'], and a directory is still a
    directory. *)
Definition never_removes (fs fs' : filesystem) : Prop :=
  forall q, (fs !! q = Some Dir -> fs' !! q = Some Dir)
            /\ (is_Some (fs !! q) -> is_Some (fs' !! q)).

(** Every node of [fs] outside [written] is the same in [fs']. *)
Definition kept_outside (written : list str -> Prop) (fs fs' : filesystem) : Prop :=
  forall q n, ~ written q -> fs !! q = Some n -> fs' !! q = Some n.

(** A name with no [/] in it: one component of a path. *)
Definition slash_free (s : str) : Prop := Forall (fun c => c <> "/") s.

(** [base_path / f"{key}.json"], as a key of the file system. *)
Definition data_file (e : environ) (base_path : Path) (key : str) : list str :=
  resolve e (path_join base_path (key ++ lit ".json")).

(** A path as [Path(s)] builds it: every component is a name other than
    the empty one and [.], with no [/] in it. *)
Definition clean_path (p : Path) : Prop :=
  Forall (fun x => real_part x = true /\ slash_free x) (parts p).

(** The output path [main] settles on. *)
Definition chosen_output (args : arguments) : Path :=
  match output_dir args with
  | Some ((_ :: _) as dir) =>
      if separate args
      then path_join (path_of_str dir) (lit "extracted_data")
      else path_join (path_of_str dir) (lit "extracted_trace_data.json")
  | _ => path_of_str (output args)
  end.

(** The keys of the metadata record, in its order. *)
Definition metadata_keys : list str :=
  [ lit "source_file"; lit "source_path"; lit "extraction_time"; lit "tool_version";
    lit "extracted_scripts" ].

(** What the scanner is asked to show for one value: written at any
    level and followed by a delimiter, it is read back, and the scanner
    stops where the delimiter starts, whitespace apart. *)
Definition reads_back `{Runtime} (ly : layout) (v : json) : Prop :=
  json_wf v -> floats_ok v ->
  forall level n rest, weight v <= n -> delimited rest ->
  exists r, scan_once n (skip_ws (encode ly level v ++ rest)) = Some (v, r)
            /\ skip_ws r = skip_ws rest.



(** ** A runtime to compute with

    Floats are kept as the literal that denotes them, and the UTF-8 reader
    accepts the encodings of code points below 256.  The theorems below
    hold for every runtime; this one runs the examples. *)

Fixpoint utf8_decode_8bit (data : list byte) : option str :=
  match data with
  | [] => Some []
  | b :: data' =>
      let n := code (ascii_of_byte b) in
      if (n <? 128)%N then
        match utf8_decode_8bit data' with
        | Some t => Some (ascii_of_byte b :: t)
        | None => None
        end
      else if ((n =? 194) || (n =? 195))%N then
        match data' with
        | b2 :: data'' =>
            let m := code (ascii_of_byte b2) in
            if ((128 <=? m) && (m <? 192))%N then
              match utf8_decode_8bit data'' with
              | Some t => Some (ascii_of_N ((n - 192) * 64 + (m - 128)) :: t)
              | None => None
              end
            else None
        | [] => None
        end
      else None
  end.

Definition literal_runtime : Runtime := {|
  pyfloat := str;
  float_of_literal := fun s => s;
  float_nan := lit "NaN";
  float_inf := lit "Infinity";
  float_neg_inf := lit "-Infinity";
  float_text := fun f => f;
  utf8_decode := fun data => universal_newlines <$> utf8_decode_8bit data
|}.

Definition bytes_of (s : string) : list byte := map byte_of_ascii (lit s).

Definition sample_environ : environ :=
  MkEnviron [lit "work"] (lit "2024-01-01T00:00:00").

(** The end-to-end example of the specification: one header region. *)
Definition sample_html : str :=
  quoted "<html><script type='text/json' id='headerJson'>{'a':1}</script></html>".

Definition sample_fs : filesystem :=
  {[ [lit "work"] := Dir;
     [lit "work"; lit "trace.html"] := File (map byte_of_ascii sample_html) ]}.





(** A Latin-1 file: the byte 233 alone is not UTF-8. *)
Definition latin1_bytes : list byte :=
  map byte_of_ascii
    (quoted "<script type='text/json' id='headerJson'>'caf" ++ ["233"]
       ++ quoted "'</script>").

Definition latin1_fs : filesystem :=
  {[ [lit "work"] := Dir;
     [lit "work"; lit "trace.html"] := File latin1_bytes ]}.

(** A region whose id is written in upper case. *)
Definition upper_id_html : str :=
  quoted "<script type='text/json' id='HEADERJSON'>{'a':1}</script>".

(** A region whose attribute names and type are written in upper case. *)
Definition upper_type_html : str :=
  quoted "<script TYPE='TEXT/JSON' ID='headerJson'>{'a':1}</script>".

(** Data to save: the metadata and one region. *)
Definition sample_data : list (str * @json literal_runtime) :=
  [ (lit "extraction_metadata", JObj [(lit "tool_version", JStr (lit "1.0.0"))]);
    (lit "header", JObj [(lit "a", JInt 1); (lit "b", JArr [JNull; JBool true])]) ].

(** [sample_fs] after the combined file [out/data.json] was saved. *)
Definition saved_fs : filesystem :=
  <[ [lit "work"; lit "out"; lit "data.json"] :=
       File (map byte_of_ascii
               (quoted "{'extraction_metadata':{'tool_version':'1.0.0'},'header':{'a':1,'b':[null,true]}}")) ]>
    (<[ [lit "work"; lit "out"] := Dir ]> sample_fs).

(** [sample_fs] after the directories [out] and [out/data] were made. *)
Definition made_fs : filesystem :=
  <[ [lit "work"; lit "out"; lit "data"] := Dir ]>
    (<[ [lit "work"; lit "out"] := Dir ]> sample_fs).

(** [sample_fs] after [sample_data] was saved as separate files under
    [out/data]. *)
Definition separate_fs : filesystem :=
  <[ [lit "work"; lit "out"; lit "data"; lit "header.json"] :=
       File (map byte_of_ascii (quoted "{'a':1,'b':[null,true]}")) ]>
    (<[ [lit "work"; lit "out"; lit "data"; lit "extraction_metadata.json"] :=
          File (map byte_of_ascii (quoted "{'tool_version':'1.0.0'}")) ]> made_fs).

(** A dictionary without the metadata record. *)
Definition bare_data : list (str * @json literal_runtime) :=
  [ (lit "header", JObj [(lit "a", JInt 1)]) ].

(** [sample_fs] after a run that saved the combined file [out.json]. *)
Definition run_fs : filesystem :=
  <[ [lit "work"; lit "out.json"] :=
       File (map byte_of_ascii
               (quoted "{'extraction_metadata':{'source_file':'trace.html','source_path':'/work/trace.html','extraction_time':'2024-01-01T00:00:00','tool_version':'1.0.0','extracted_scripts':['header']},'header':{'a':1}}")) ]>
    sample_fs.

(** * Properties *)

(** ** Characters *)

Ltac each_ascii c :=
  destruct c as [[|] [|] [|] [|] [|] [|] [|] [|]].

Lemma ascii_eqb_eq (a b : ascii) : ascii_eqb a b = true <-> a = b.
Proof. apply Ascii.eqb_eq. Qed.

Lemma ascii_eqb_refl (a : ascii) : ascii_eqb a a = true.
Proof. apply Ascii.eqb_refl. Qed.

Lemma ascii_eqb_neq (a b : ascii) : ascii_eqb a b = false <-> a <> b.
Proof. apply Ascii.eqb_neq. Qed.

Lemma lower_idem (c : ascii) : lower (lower c) = lower c.
Proof. each_ascii c; reflexivity. Qed.

(** No whitespace character is a letter, a digit or punctuation of the
    patterns: lowering it gives none of their characters. *)
Lemma space_not_letter (c : ascii) :
  isspace c = true -> in_range 33 126 (lower c) = false.
Proof. each_ascii c; vm_compute; congruence. Qed.

Lemma lower_gt (c : ascii) : lower c = ">" -> c = ">".
Proof. each_ascii c; vm_compute; congruence. Qed.

Lemma lower_lt (c : ascii) : lower c = "<" -> c = "<".
Proof. each_ascii c; vm_compute; congruence. Qed.

Lemma chr_eq_space (c x : ascii) :
  in_range 33 126 (lower c) = true -> isspace x = true -> chr_eq true c x = false.
Proof.
  intros Hc Hx. unfold chr_eq. apply ascii_eqb_neq. intros E.
  apply space_not_letter in Hx. congruence.
Qed.

Lemma chr_eq_gt (x : ascii) : chr_eq true ">" x = negb (not_gt x).
Proof.
  unfold chr_eq, not_gt. rewrite negb_involutive.
  destruct (ascii_eqb x ">") eqn:E.
  - apply ascii_eqb_eq in E. subst. reflexivity.
  - apply ascii_eqb_neq. intros E'. apply ascii_eqb_neq in E. apply E.
    apply lower_gt. symmetry. exact E'.
Qed.

(** ** The matcher on the shapes of the two patterns *)

Lemma first_suffix_ext {A} (f f' : str -> option A) (s : str) :
  (forall t, f t = f' t) -> first_suffix f s = first_suffix f' s.
Proof.
  intros E. induction s as [|c s IH]; cbn [first_suffix]; rewrite E; [reflexivity|].
  rewrite IH. reflexivity.
Qed.

Lemma first_suffix_fmap {A B} (h : A -> B) (f : str -> option A) (s : str) :
  first_suffix (fun t => h <$> f t) s = h <$> first_suffix f s.
Proof.
  induction s as [|c s IH]; cbn [first_suffix]; destruct (f _); try reflexivity.
  exact IH.
Qed.

Section Matcher.
Context {R : Type}.
Implicit Types (k : str -> option str -> option R) (s t w : str) (g : option str).

Lemma rmatch_Cat ic r1 r2 s g k :
  rmatch ic (Cat r1 r2) s g k = rmatch ic r1 s g (fun s' g' => rmatch ic r2 s' g' k).
Proof. reflexivity. Qed.

Lemma rmatch_Alt ic r1 r2 s g k :
  rmatch ic (Alt r1 r2) s g k =
  match rmatch ic r1 s g k with Some res => Some res | None => rmatch ic r2 s g k end.
Proof. reflexivity. Qed.

Lemma rmatch_Chr ic c s g k :
  rmatch ic (Chr c) s g k =
  match s with x :: s' => if chr_eq ic c x then k s' g else None | [] => None end.
Proof. reflexivity. Qed.

Lemma rmatch_Dollar ic s g k :
  rmatch ic Dollar s g k = if at_end s then k s g else None.
Proof. reflexivity. Qed.

(** A literal word is matched exactly when the text starts with it. *)
Lemma rmatch_lits_ci w s g k :
  rmatch true (lits w) s g k =
  if startswith_ci w s then k (drop (length w) s) g else None.
Proof.
  revert s. induction w as [|c w IH]; intros s; [reflexivity|].
  destruct s as [|x s]; [reflexivity|].
  cbn [lits foldr rmatch startswith_ci length drop]. fold (lits w).
  unfold chr_eq. destruct (ascii_eqb (lower c) (lower x)); [apply IH | reflexivity].
Qed.

Lemma rmatch_lits_cs w s g k :
  rmatch false (lits w) s g k =
  if startswith w s then k (drop (length w) s) g else None.
Proof.
  revert s. induction w as [|c w IH]; intros s; [reflexivity|].
  destruct s as [|x s]; [reflexivity|].
  cbn [lits foldr rmatch startswith length drop]. fold (lits w).
  unfold chr_eq. destruct (ascii_eqb c x); [apply IH | reflexivity].
Qed.

(** A greedy repetition gives back nothing when what follows it cannot
    start with a character of the class. *)
Lemma rmatch_Rep_greedy ic p s g k :
  (forall x t, p x = true -> k (x :: t) g = None) ->
  rmatch ic (Rep true p) s g k = k (drop_while p s) g.
Proof.
  intros Hk. cbn [rmatch].
  induction s as [|x s IH]; [reflexivity|].
  cbn [drop_while]. destruct (p x) eqn:Hp; [|reflexivity].
  rewrite IH. destruct (k (drop_while p s) g) eqn:E; [reflexivity|].
  apply Hk, Hp.
Qed.

(** A lazy [.*?] under DOTALL stops at the first position where the
    rest of the pattern matches. *)
Lemma rmatch_Rep_lazy ic s g k :
  rmatch ic (Rep false (any_char true)) s g k = first_suffix (fun t => k t g) s.
Proof.
  cbn [rmatch]. induction s as [|x s IH]; cbn [first_suffix].
  - destruct (k [] g); reflexivity.
  - destruct (k (x :: s) g); [reflexivity|]. exact IH.
Qed.

Lemma rmatch_spaces s g k :
  (forall x t, isspace x = true -> k (x :: t) g = None) ->
  rmatch true (plus isspace) s g k =
  match after_spaces s with Some s' => k s' g | None => None end.
Proof.
  intros Hk. unfold plus, after_spaces. rewrite rmatch_Cat.
  destruct s as [|x s]; [reflexivity|]. cbn [rmatch].
  destruct (isspace x); [|reflexivity].
  apply (rmatch_Rep_greedy true isspace s g k Hk).
Qed.

Lemma rmatch_word_no_space c w r x t g k :
  in_range 33 126 (lower c) = true -> isspace x = true ->
  rmatch true (Cat (lits (c :: w)) r) (x :: t) g k = None.
Proof.
  intros Hc Hx. rewrite rmatch_Cat, rmatch_lits_ci. cbn [startswith_ci].
  fold (chr_eq true c x). rewrite (chr_eq_space c x Hc Hx). reflexivity.
Qed.

(** The opening tag is matched exactly on the textual form [open_marker]. *)
Lemma rmatch_open_tag script_id s g k :
  rmatch true (open_tag_pattern script_id) s g k =
  match open_marker script_id s with Some rest => k rest g | None => None end.
Proof.
  unfold open_tag_pattern, open_marker.
  rewrite rmatch_Cat, rmatch_lits_ci.
  destruct (startswith_ci (lit "<script") s); [|reflexivity].
  change (length (lit "<script")) with 7.
  rewrite rmatch_Cat, rmatch_spaces.
  2:{ intros x t Hx. apply rmatch_word_no_space; [reflexivity | exact Hx]. }
  destruct (after_spaces (drop 7 s)) as [s1|]; [|reflexivity].
  fold type_attribute. rewrite rmatch_Cat, rmatch_lits_ci.
  destruct (startswith_ci type_attribute s1); [|reflexivity].
  rewrite rmatch_Cat, rmatch_spaces.
  2:{ intros x t Hx. apply rmatch_word_no_space; [reflexivity | exact Hx]. }
  destruct (after_spaces (drop (length type_attribute) s1)) as [s2|]; [|reflexivity].
  fold (id_attribute script_id). rewrite rmatch_Cat, rmatch_lits_ci.
  destruct (startswith_ci (id_attribute script_id) s2); [|reflexivity].
  rewrite rmatch_Cat, rmatch_Rep_greedy.
  2:{ intros x t Hx. rewrite rmatch_Chr, chr_eq_gt, Hx. reflexivity. }
  rewrite rmatch_Chr.
  destruct (drop_while not_gt _) as [|c rest] eqn:E; [reflexivity|].
  rewrite chr_eq_gt. unfold not_gt. rewrite negb_involutive.
  destruct (ascii_eqb c ">"); reflexivity.
Qed.

End Matcher.

Lemma rmatch_Ahead {R} ic r (s : str) (g : option str) (k : str -> option str -> option R) :
  rmatch ic (Ahead r) s g k =
  match rmatch ic r s g (fun _ g' => Some g') with Some g' => k s g' | None => None end.
Proof. reflexivity. Qed.

(** The look-ahead [(?=<script|</body>|$)]. *)
Lemma rmatch_lookahead {R} (t : str) (g : option str) (k : str -> option str -> option R) :
  rmatch true (Ahead (Alt (lits (lit "<script")) (Alt (lits (lit "</body>")) Dollar))) t g k =
  if body_stop t then k t g else None.
Proof.
  rewrite rmatch_Ahead, !rmatch_Alt, !rmatch_lits_ci, rmatch_Dollar.
  unfold body_stop, next_marker.
  destruct (startswith_ci (lit "<script") t); [reflexivity|].
  destruct (startswith_ci (lit "</body>") t); [reflexivity|].
  destruct (at_end t); reflexivity.
Qed.

Lemma first_stop_capture {R} (pre t : str) (h : str -> option str -> R) :
  first_suffix
    (fun u => if body_stop u
              then Some (h u (Some (take (length (pre ++ t) - length u) (pre ++ t))))
              else None) t =
  Some (h (drop (length (take_until body_stop t)) t) (Some (pre ++ take_until body_stop t))).
Proof.
  revert pre. induction t as [|c t IH]; intros pre.
  - cbn. rewrite app_nil_r, Nat.sub_0_r, firstn_all. reflexivity.
  - cbn [first_suffix take_until]. destruct (body_stop (c :: t)) eqn:E.
    + cbn [drop]. rewrite app_nil_r.
      replace (length (pre ++ c :: t) - length (c :: t)) with (length pre)
        by (rewrite length_app; cbn [length]; lia).
      rewrite take_app_length. reflexivity.
    + specialize (IH (pre ++ [c])). rewrite <- !app_assoc in IH. cbn in IH.
      cbn [length drop]. exact IH.
Qed.

Lemma rmatch_Grp {R} ic r (s : str) (g : option str) (k : str -> option str -> option R) :
  rmatch ic (Grp r) s g k =
  rmatch ic r s g (fun s' _ => k s' (Some (take (length s - length s') s))).
Proof. reflexivity. Qed.

(** The body of the pattern captures up to the first stop; nothing
    follows it in the pattern, so the first stop is final. *)
Lemma rmatch_body {R} (s : str) (g : option str) (h : str -> option str -> R) :
  rmatch true body_pattern s g (fun s' g' => Some (h s' g')) =
  Some (h (drop (length (take_until body_stop s)) s) (Some (take_until body_stop s))).
Proof.
  unfold body_pattern. rewrite rmatch_Cat, rmatch_Grp, rmatch_Rep_lazy.
  etransitivity; [|exact (first_stop_capture [] s h)].
  apply first_suffix_ext. intros u. rewrite rmatch_lookahead. reflexivity.
Qed.

(** One attempt of the whole pattern at the head of [s]. *)
Lemma match_at_script_pattern (script_id s : str) :
  match_at true (script_pattern script_id) s =
  (fun body => MkMatch (drop (length (take_until body_stop body)) body)
                       (Some (take_until body_stop body)))
    <$> open_marker script_id s.
Proof.
  unfold match_at, script_pattern. rewrite rmatch_Cat, rmatch_open_tag.
  destruct (open_marker script_id s) as [body|]; [|reflexivity].
  apply (rmatch_body body None MkMatch).
Qed.

Lemma re_search_first_suffix ic r (s : str) :
  re_search ic r s = first_suffix (match_at ic r) s.
Proof. induction s as [|c s IH]; cbn; [reflexivity|]. rewrite IH. reflexivity. Qed.

(** [re.search] with the program's pattern: the first opening marker, and
    the text after it up to the first stop. *)
Lemma re_search_script_pattern (script_id html : str) :
  group1 <$> re_search true (script_pattern script_id) html =
  take_until body_stop <$> first_open script_id html.
Proof.
  rewrite re_search_first_suffix.
  rewrite (first_suffix_ext _ _ _ (match_at_script_pattern script_id)).
  rewrite first_suffix_fmap. unfold first_open.
  destruct (first_suffix (open_marker script_id) html); reflexivity.
Qed.

(** ** The clean-up substitution *)

Lemma rmatch_Rep_greedy_cons {R} ic p (x : ascii) (t : str) (g : option str)
    (k : str -> option str -> option R) :
  rmatch ic (Rep true p) (x :: t) g k =
  if p x
  then match rmatch ic (Rep true p) t g k with
       | Some res => Some res
       | None => k (x :: t) g
       end
  else k (x :: t) g.
Proof. reflexivity. Qed.

Lemma rmatch_greedy_to_end {R} ic (t : str) (g : option str) (h : str -> option str -> R) :
  rmatch ic (Cat (Rep true (any_char true)) Dollar) t g (fun s' g' => Some (h s' g')) =
  Some (h [] g).
Proof.
  rewrite rmatch_Cat.
  induction t as [|x t IH]; [reflexivity|].
  rewrite rmatch_Rep_greedy_cons, IH. reflexivity.
Qed.

Lemma match_at_cleanup (s : str) :
  match_at false cleanup_pattern s =
  if startswith closing_token s then Some (MkMatch [] None) else None.
Proof.
  unfold match_at, cleanup_pattern. rewrite rmatch_Cat, rmatch_lits_cs.
  fold closing_token. destruct (startswith closing_token s); [|reflexivity].
  apply (rmatch_greedy_to_end false _ None MkMatch).
Qed.

Lemma sub_empty_fuel_nil (n : nat) : sub_empty_fuel n false cleanup_pattern [] = [].
Proof. destruct n; reflexivity. Qed.

Lemma sub_empty_fuel_cleanup (n : nat) (s : str) :
  length s < n -> sub_empty_fuel n false cleanup_pattern s = cut_at closing_token s.
Proof.
  revert s. induction n as [|n IH]; intros s Hn; [lia|].
  cbn [sub_empty_fuel]. rewrite match_at_cleanup.
  unfold cut_at. destruct s as [|c s].
  - reflexivity.
  - cbn [take_until]. destruct (startswith closing_token (c :: s)) eqn:E.
    + cbn [m_after length]. apply sub_empty_fuel_nil.
    + f_equal. apply IH. cbn [length] in Hn. lia.
Qed.

(** [re.sub(r'</script>.*$', '', content)] cuts at the first closing token. *)
Lemma re_sub_cleanup (s : str) :
  re_sub_empty false cleanup_pattern s = cut_at closing_token s.
Proof. apply sub_empty_fuel_cleanup. lia. Qed.

(** ** Trimming and cutting *)

Lemma lstrip_app_space (ws z : str) : all_space ws -> lstrip (ws ++ z) = lstrip z.
Proof.
  induction 1 as [|c ws Hc _ IH]; [reflexivity|]. cbn. rewrite Hc. exact IH.
Qed.

Lemma lstrip_space (ws : str) : all_space ws -> lstrip ws = [].
Proof. intros H. rewrite <- (app_nil_r ws). rewrite lstrip_app_space; auto. Qed.

Lemma lstrip_split (s : str) : exists ws, all_space ws /\ s = ws ++ lstrip s.
Proof.
  induction s as [|c s (ws & Hws & E)].
  - exists []. split; [constructor | reflexivity].
  - cbn. destruct (isspace c) eqn:Hc.
    + exists (c :: ws). split; [constructor; assumption|]. cbn. f_equal. exact E.
    + exists []. split; [constructor | reflexivity].
Qed.

Lemma lstrip_app (z ws : str) :
  lstrip (z ++ ws) = match lstrip z with [] => lstrip ws | _ => lstrip z ++ ws end.
Proof.
  induction z as [|c z IH]; cbn.
  - destruct (lstrip ws); reflexivity.
  - destruct (isspace c); [exact IH | reflexivity].
Qed.

Lemma all_space_rev (ws : str) : all_space ws -> all_space (rev ws).
Proof. apply Forall_rev. Qed.

Lemma rstrip_app_space (z ws : str) : all_space ws -> rstrip (z ++ ws) = rstrip z.
Proof.
  intros H. unfold rstrip. rewrite rev_app_distr.
  rewrite lstrip_app_space; [reflexivity | apply all_space_rev, H].
Qed.

Lemma rstrip_split (s : str) : exists ws, all_space ws /\ s = rstrip s ++ ws.
Proof.
  destruct (lstrip_split (rev s)) as (ws & Hws & E).
  exists (rev ws). split; [apply all_space_rev, Hws|].
  unfold rstrip. rewrite <- rev_app_distr, <- E, rev_involutive. reflexivity.
Qed.

Lemma strip_app_space_l (ws z : str) : all_space ws -> strip (ws ++ z) = strip z.
Proof. intros H. unfold strip. rewrite lstrip_app_space; auto. Qed.

Lemma strip_app_space_r (z ws : str) : all_space ws -> strip (z ++ ws) = strip z.
Proof.
  intros H. unfold strip. rewrite lstrip_app.
  destruct (lstrip z) eqn:E.
  - rewrite lstrip_space; auto.
  - rewrite rstrip_app_space; auto.
Qed.

Lemma startswith_app (w z rest : str) :
  startswith w z = true -> startswith w (z ++ rest) = true.
Proof.
  revert z. induction w as [|a w IH]; intros z; [reflexivity|].
  destruct z as [|c z]; cbn; [discriminate|].
  destruct (ascii_eqb a c); cbn; [apply IH | discriminate].
Qed.

Lemma startswith_app_space (w z ws : str) :
  no_space w -> all_space ws -> startswith w (z ++ ws) = startswith w z.
Proof.
  intros Hw Hws. revert z. induction Hw as [|a w Ha _ IH]; intros z; [reflexivity|].
  destruct z as [|c z]; cbn.
  - destruct Hws as [|x ws Hx _]; [reflexivity|]. cbn.
    destruct (ascii_eqb a x) eqn:E; [|reflexivity].
    apply ascii_eqb_eq in E. congruence.
  - rewrite IH. reflexivity.
Qed.

Lemma take_until_nil (stop : str -> bool) : take_until stop [] = [].
Proof. cbn. destruct (stop []); reflexivity. Qed.

Section Cut.
Variable token : str.
Hypothesis token_no_space : no_space token.
Hypothesis token_nonempty : token <> [].

Lemma startswith_token_space (c : ascii) (s : str) :
  isspace c = true -> startswith token (c :: s) = false.
Proof using token_no_space token_nonempty.
  intros Hc. destruct token_no_space as [|a w Ha _]; [congruence|]. cbn.
  destruct (ascii_eqb a c) eqn:E; [|reflexivity].
  apply ascii_eqb_eq in E. congruence.
Qed.

Lemma cut_at_app_space_l (ws z : str) :
  all_space ws -> cut_at token (ws ++ z) = ws ++ cut_at token z.
Proof using token_no_space token_nonempty.
  induction 1 as [|c ws Hc _ IH]; [reflexivity|].
  unfold cut_at in *. cbn [app take_until].
  rewrite (startswith_token_space c _ Hc). f_equal. exact IH.
Qed.

Lemma cut_at_app_space_r (z ws : str) :
  all_space ws ->
  cut_at token (z ++ ws) = cut_at token z \/
  (cut_at token z = z /\ cut_at token (z ++ ws) = z ++ ws).
Proof using token_no_space token_nonempty.
  intros Hws. unfold cut_at. induction z as [|c z IH].
  - right. split; [apply take_until_nil|].
    cbn [app]. pose proof (cut_at_app_space_l ws [] Hws) as H.
    unfold cut_at in H. rewrite take_until_nil, app_nil_r in H. exact H.
  - cbn [app take_until].
    change (c :: z ++ ws) with ((c :: z) ++ ws).
    rewrite (startswith_app_space token (c :: z) ws token_no_space Hws).
    destruct (startswith token (c :: z)); [left; reflexivity|].
    destruct IH as [IH | [IH1 IH2]].
    + left. cbn [app]. f_equal. exact IH.
    + right. cbn [app]. split; f_equal; assumption.
Qed.

Lemma strip_cut_app_space (z ws : str) :
  all_space ws -> strip (cut_at token (z ++ ws)) = strip (cut_at token z).
Proof using token_no_space token_nonempty.
  intros Hws. destruct (cut_at_app_space_r z ws Hws) as [E | [E1 E2]].
  - rewrite E. reflexivity.
  - rewrite E1, E2. apply strip_app_space_r, Hws.
Qed.

(** Trimming before the cut changes nothing once the result is trimmed. *)
Lemma strip_cut_strip (x : str) :
  strip (cut_at token (strip x)) = strip (cut_at token x).
Proof using token_no_space token_nonempty.
  destruct (lstrip_split x) as (ws & Hws & Ex).
  destruct (rstrip_split (lstrip x)) as (ws' & Hws' & Ey).
  fold (strip x) in Ey.
  rewrite Ex at 2. rewrite Ey.
  rewrite cut_at_app_space_l by assumption.
  rewrite strip_app_space_l by assumption.
  rewrite strip_cut_app_space by assumption. reflexivity.
Qed.
End Cut.

Lemma closing_token_no_space : no_space closing_token.
Proof. repeat constructor. Qed.

Lemma closing_token_nonempty : closing_token <> [].
Proof. discriminate. Qed.

(** The lazy group stops where the specification says, or one newline
    earlier when the document ends with a newline. *)
Lemma take_until_body_stop (s : str) :
  take_until next_marker s = take_until body_stop s \/
  take_until next_marker s = take_until body_stop s ++ ["010"].
Proof.
  induction s as [|c s IH]; [left; reflexivity|].
  cbn [take_until]. unfold body_stop at 1 3.
  destruct (next_marker (c :: s)) eqn:E; [left; reflexivity|].
  cbn [orb]. destruct (at_end (c :: s)) eqn:E2.
  - right. destruct s as [|d s]; [|discriminate]. cbn in E2.
    apply ascii_eqb_eq in E2. subst c. reflexivity.
  - destruct IH as [IH | IH]; [left | right]; rewrite IH; reflexivity.
Qed.

Lemma strip_cut_body (body : str) :
  strip (cut_at closing_token (strip (take_until body_stop body))) =
  strip (cut_at closing_token (take_until next_marker body)).
Proof.
  rewrite (strip_cut_strip _ closing_token_no_space closing_token_nonempty).
  destruct (take_until_body_stop body) as [E | E]; rewrite E; [reflexivity|].
  symmetry. apply (strip_cut_app_space _ closing_token_no_space closing_token_nonempty).
  repeat constructor.
Qed.

(** The span the program extracts is the span of the specification. *)
Lemma extract_span_spec (script_id html : str) :
  extract_span script_id html = span_spec script_id html.
Proof.
  unfold extract_span, span_spec.
  pose proof (re_search_script_pattern script_id html) as H.
  destruct (re_search true (script_pattern script_id) html) as [mt|];
    destruct (first_open script_id html) as [body|]; cbn in H; try discriminate;
    [|reflexivity].
  injection H as H. rewrite H, re_sub_cleanup, strip_cut_body.
  destruct (strip _); reflexivity.
Qed.

(** ** Dictionaries *)

Section Dict.
Context `{Runtime}.
Implicit Types (d : dict) (k : str) (v : json).

Lemma str_eqb_eq (a b : str) : str_eqb a b = true <-> a = b.
Proof. unfold str_eqb. apply bool_decide_eq_true. Qed.

Lemma str_eqb_refl (a : str) : str_eqb a a = true.
Proof. apply str_eqb_eq. reflexivity. Qed.

Lemma str_eqb_neq (a b : str) : str_eqb a b = false <-> a <> b.
Proof. unfold str_eqb. apply bool_decide_eq_false. Qed.



Lemma dict_get_None d k : dict_get d k = None <-> k ∉ dict_keys d.
Proof.
  induction d as [|[k0 v0] d IH]; cbn.
  - split; [intros _; apply not_elem_of_nil | reflexivity].
  - rewrite not_elem_of_cons. destruct (str_eqb k0 k) eqn:E.
    + apply str_eqb_eq in E. split; [discriminate | intros [? _]; congruence].
    + apply str_eqb_neq in E. rewrite IH. split; [split; [congruence | assumption] | tauto].
Qed.

Lemma dict_get_elem d k v :
  NoDup (dict_keys d) -> (k, v) ∈ d -> dict_get d k = Some v.
Proof.
  induction d as [|[k0 v0] d IH]; cbn.
  - intros _ Hin. apply elem_of_nil in Hin. destruct Hin.
  - intros Hnd Hin. apply NoDup_cons in Hnd as [Hnd Hnd'].
    apply elem_of_cons in Hin as [E | Hin].
    + injection E as -> ->. rewrite str_eqb_refl. reflexivity.
    + destruct (str_eqb k0 k) eqn:E.
      * apply str_eqb_eq in E. subst k0. exfalso. apply Hnd.
        apply (list_elem_of_fmap_2 fst) in Hin. exact Hin.
      * apply IH; assumption.
Qed.

(** Setting a new key appends it; the other entries stay in place. *)
Lemma dict_set_new d k v : k ∉ dict_keys d -> dict_set d k v = d ++ [(k, v)].
Proof.
  induction d as [|[k0 v0] d IH]; cbn; [reflexivity|]. intros Hn.
  apply not_elem_of_cons in Hn as [Hne Hn].
  destruct (str_eqb k0 k) eqn:E.
  - apply str_eqb_eq in E. congruence.
  - rewrite IH by assumption. reflexivity.
Qed.

Lemma dict_keys_set d k v :
  dict_keys (dict_set d k v) =
  dict_keys d ++ (if bool_decide (k ∈ dict_keys d) then [] else [k]).
Proof.
  unfold dict_keys. induction d as [|[k0 v0] d IH]; cbn; [reflexivity|].
  destruct (str_eqb k0 k) eqn:E; cbn.
  - apply str_eqb_eq in E. subst. rewrite bool_decide_eq_true_2 by apply list_elem_of_here.
    rewrite app_nil_r. reflexivity.
  - rewrite IH. apply str_eqb_neq in E. f_equal.
    rewrite (bool_decide_ext (k ∈ k0 :: map fst d) (k ∈ map fst d)); [reflexivity|].
    rewrite elem_of_cons. split; [intros [?|?]; congruence | tauto].
Qed.

Lemma dict_set_NoDup d k v : NoDup (dict_keys d) -> NoDup (dict_keys (dict_set d k v)).
Proof.
  intros Hnd. rewrite dict_keys_set. case_bool_decide as Hk.
  - rewrite app_nil_r. exact Hnd.
  - apply NoDup_app. split; [exact Hnd|]. split; [|apply NoDup_singleton].
    intros x Hx Hx'. apply list_elem_of_singleton in Hx'. congruence.
Qed.

(** Updating with a dictionary of fresh, distinct keys appends it. *)
Lemma dict_update_fresh (a b : dict) :
  NoDup (dict_keys b) -> (forall k, k ∈ dict_keys b -> k ∉ dict_keys a) ->
  dict_update a b = a ++ b.
Proof.
  unfold dict_update. revert a. induction b as [|[k v] b IH]; intros a Hnd Hfresh; cbn.
  - rewrite app_nil_r. reflexivity.
  - cbn in Hnd. apply NoDup_cons in Hnd as [Hnd Hnd'].
    rewrite dict_set_new by (apply Hfresh; apply list_elem_of_here).
    rewrite IH; [rewrite <- app_assoc; reflexivity | exact Hnd' |].
    intros k' Hk'. unfold dict_keys. rewrite fmap_app, elem_of_app. cbn.
    intros [Ha | Hb].
    + apply (Hfresh k'); [apply list_elem_of_further, Hk' | exact Ha].
    + apply list_elem_of_singleton in Hb. subst k'. apply Hnd, Hk'.
Qed.
End Dict.

(** ** The extraction loop *)

Section Loop.
Context `{Runtime}.
Implicit Types (d : dict) (html : str).

Lemma output_keys : map output_key JSON_SCRIPT_IDS = normalized_keys.
Proof. reflexivity. Qed.


Lemma extract_step_NoDup html d id :
  NoDup (dict_keys d) -> NoDup (dict_keys (extract_step html d id)).
Proof.
  intros Hd. unfold extract_step.
  destruct (extract_span id html); try assumption.
  destruct (json_loads content); apply dict_set_NoDup, Hd.
Qed.

Lemma extract_step_keys html d id k :
  k ∈ dict_keys (extract_step html d id) ->
  k ∈ dict_keys d \/ k = output_key id \/ k = output_key id ++ lit "_raw".
Proof.
  unfold extract_step.
  destruct (extract_span id html); auto.
  destruct (json_loads content); rewrite dict_keys_set, elem_of_app;
    case_bool_decide; rewrite ?elem_of_nil, ?list_elem_of_singleton; tauto.
Qed.

Lemma extract_over_NoDup html ids d :
  NoDup (dict_keys d) -> NoDup (dict_keys (extract_over html ids d)).
Proof.
  revert d. induction ids as [|id ids IH]; intros d Hd; [exact Hd|].
  apply IH, extract_step_NoDup, Hd.
Qed.

Lemma extract_over_keys html ids d k :
  k ∈ dict_keys (extract_over html ids d) ->
  k ∈ dict_keys d \/
  exists id, id ∈ ids /\ (k = output_key id \/ k = output_key id ++ lit "_raw").
Proof.
  revert d. induction ids as [|id ids IH]; intros d Hk; [left; exact Hk|].
  apply IH in Hk as [Hk | (id' & Hid' & Hk)].
  - apply extract_step_keys in Hk as [Hk | Hk]; [left; exact Hk|].
    right. exists id. split; [apply list_elem_of_here | exact Hk].
  - right. exists id'. split; [apply list_elem_of_further, Hid' | exact Hk].
Qed.






End Loop.

(** ** The orchestrator *)

Section Orchestrator.
Context `{Runtime}.

Lemma marker_keys_not_metadata (id : str) :
  id ∈ JSON_SCRIPT_IDS ->
  output_key id <> metadata_key /\ output_key id ++ lit "_raw" <> metadata_key.
Proof.
  unfold JSON_SCRIPT_IDS. rewrite !elem_of_cons, elem_of_nil.
  intros [->|[->|[->|[->|[->|[->|[]]]]]]]; split; discriminate.
Qed.

Lemma extracted_keys_fresh (html k : str) :
  k ∈ dict_keys (_extract_json_from_html html) -> k <> metadata_key.
Proof.
  intros Hk. apply extract_over_keys in Hk as [Hk | (id & Hid & Hk)].
  - apply elem_of_nil in Hk. destruct Hk.
  - destruct (marker_keys_not_metadata id Hid). destruct Hk; congruence.
Qed.

Lemma extracted_NoDup (html : str) : NoDup (dict_keys (_extract_json_from_html html)).
Proof. apply extract_over_NoDup, NoDup_nil_2. Qed.

(** The dictionary display [{'extraction_metadata': ..., **extracted}]
    puts the metadata first and the extracted keys after it. *)
Lemma dict_update_combined (e : environ) (p html : str) :
  dict_update
    [(lit "extraction_metadata",
      JObj (extraction_metadata e (path_of_str p) (_extract_json_from_html html)))]
    (_extract_json_from_html html) =
  combined e p (_extract_json_from_html html).
Proof.
  rewrite dict_update_fresh; [reflexivity | apply extracted_NoDup |].
  intros k Hk. apply extracted_keys_fresh in Hk. cbn.
  rewrite list_elem_of_singleton. exact Hk.
Qed.

Lemma read_html_file (e : environ) (p : Path) (fs : filesystem) (data : list byte) :
  node_at fs (resolve e p) = Some (File data) ->
  read_html e p fs = (fs, inr (html_of_bytes data)).
Proof.
  intros Hnode. unfold read_html, bind, open_read, html_of_bytes. rewrite Hnode.
  destruct (utf8_decode data); [reflexivity|]. rewrite Hnode. reflexivity.
Qed.

(** On an existing regular file the orchestrator returns the Combined
    Output of the decoded text and leaves the file system as it is. *)
Lemma extract_from_file_file (e : environ) (p : str) (fs : filesystem) (data : list byte) :
  node_at fs (resolve e (path_of_str p)) = Some (File data) ->
  extract_from_file e p fs =
  (fs, inr (combined e p (_extract_json_from_html (html_of_bytes data)))).
Proof.
  intros Hnode. unfold extract_from_file, bind at 1, path_exists.
  rewrite Hnode, bool_decide_eq_true_2 by eauto. cbn [negb].
  unfold bind. rewrite (read_html_file e _ fs data Hnode).
  unfold ret. rewrite dict_update_combined. reflexivity.
Qed.

Lemma extract_from_file_missing (e : environ) (p : str) (fs : filesystem) :
  node_at fs (resolve e (path_of_str p)) = None ->
  extract_from_file e p fs =
  (fs, inl (FileNotFoundError (lit "HTML file not found: " ++ p))).
Proof.
  intros Hnode. unfold extract_from_file, bind, path_exists.
  rewrite Hnode, bool_decide_eq_false_2 by (intros [? ?]; discriminate).
  reflexivity.
Qed.

(** On a directory the existence test passes and opening the path raises. *)
Lemma extract_from_file_directory (e : environ) (p : str) (fs : filesystem) :
  node_at fs (resolve e (path_of_str p)) = Some Dir ->
  extract_from_file e p fs = (fs, inl IsADirectoryError).
Proof.
  intros Hnode. unfold extract_from_file, bind at 1, path_exists.
  rewrite Hnode, bool_decide_eq_true_2 by eauto. cbn [negb].
  unfold bind, read_html, bind, open_read. rewrite Hnode. reflexivity.
Qed.




End Orchestrator.

(** ** Key normalization *)

Lemma camel_from_separate (i : nat) (s : str) :
  camel_from i s = map lower (separate_words (i =? 0)%nat s).
Proof.
  revert i. induction s as [|c s IH]; intros i; [reflexivity|].
  cbn [camel_from separate_words]. rewrite (IH (S i)). cbn [Nat.eqb].
  destruct i as [|i]; cbn [Nat.ltb Nat.leb Nat.eqb negb];
    rewrite ?andb_false_r, ?andb_true_r; [reflexivity|].
  destruct (isupper c); reflexivity.
Qed.

(** The one-pass loop of [_camel_to_snake] is the two-step description:
    separators first, lowering after. *)
Lemma _camel_to_snake_separate (s : str) :
  _camel_to_snake s = map lower (separate_words true s).
Proof. apply (camel_from_separate 0). Qed.

(** C4. Key normalization is a function of the identifier alone, defined
    on every identifier.  On each of the six identifiers it is what the
    specification describes: the suffix [Json] removed, a separator put
    before every upper-case letter but the first character, everything
    lowered.  In particular [headerJson] gives [header],
    [sharedQueryTextsJson] gives [shared_query_texts] and
    [mainThreadProfileJson] gives [main_thread_profile]. *)
Theorem C4_key_normalization :
  Forall (fun script_id => output_key script_id = normalize_spec script_id) JSON_SCRIPT_IDS
  /\ map output_key JSON_SCRIPT_IDS = normalized_keys
  /\ output_key (lit "headerJson") = lit "header"
  /\ output_key (lit "sharedQueryTextsJson") = lit "shared_query_texts"
  /\ output_key (lit "mainThreadProfileJson") = lit "main_thread_profile".
Proof.
  split; [|repeat split; reflexivity].
  unfold JSON_SCRIPT_IDS. repeat apply Forall_cons_2; try apply Forall_nil_2;
    unfold output_key; rewrite _camel_to_snake_separate; reflexivity.
Qed.

(** ** Claims on the scan and the orchestrator *)




(** C7. When nothing exists at the input path, [extract_from_file] raises
    [FileNotFoundError] without touching the file system, and the run ends
    with status 1 and the file system it started with: no output file is
    written. *)
Theorem C7_missing_input `{Runtime} (e : environ) (fs : filesystem) (args : arguments) :
  node_at fs (resolve e (path_of_str (input_file args))) = None ->
  extract_from_file e (input_file args) fs
  = (fs, inl (FileNotFoundError (lit "HTML file not found: " ++ input_file args)))
  /\ main e args fs = (fs, 1%Z).
Proof.
  intros Hnode. pose proof (extract_from_file_missing e _ fs Hnode) as Hx.
  split; [exact Hx|]. unfold main, bind. rewrite Hx. reflexivity.
Qed.

(** C9. Reading the input tries UTF-8 first.  When the UTF-8 decoder
    accepts the bytes, the run works on its text; when it refuses them,
    the run works on the Latin-1 reading of the same bytes; in both cases
    [extract_from_file] returns normally. *)
Theorem C9_encoding_fallback `{Runtime} (e : environ) (fs : filesystem) (p : str)
    (data : list byte) :
  node_at fs (resolve e (path_of_str p)) = Some (File data) ->
  (forall text, utf8_decode data = Some text ->
     read_html e (path_of_str p) fs = (fs, inr text)
     /\ extract_from_file e p fs
        = (fs, inr (combined e p (_extract_json_from_html text))))
  /\ (utf8_decode data = None ->
      read_html e (path_of_str p) fs = (fs, inr (latin1_read data))
      /\ extract_from_file e p fs
         = (fs, inr (combined e p (_extract_json_from_html (latin1_read data))))).
Proof.
  intros Hnode.
  pose proof (read_html_file e _ fs data Hnode) as Hr.
  pose proof (extract_from_file_file e p fs data Hnode) as Hx.
  unfold html_of_bytes in Hr, Hx.
  split; [intros text Hdec | intros Hdec]; rewrite Hdec in Hr, Hx; auto.
Qed.

(** ** The claims at concrete inputs *)




Lemma C7_witness :
  let args := MkArguments (lit "missing.html") (lit "out.json") false false None in
  @extract_from_file literal_runtime sample_environ (lit "missing.html") sample_fs
  = (sample_fs, inl (FileNotFoundError (lit "HTML file not found: missing.html")))
  /\ @main literal_runtime sample_environ args sample_fs = (sample_fs, 1%Z).
Proof.
  refine (@C7_missing_input literal_runtime sample_environ sample_fs
            (MkArguments (lit "missing.html") (lit "out.json") false false None) _).
  vm_compute. reflexivity.
Defined.

Lemma C9_witness :
  @utf8_decode literal_runtime latin1_bytes = None
  /\ @extract_from_file literal_runtime sample_environ (lit "trace.html") latin1_fs
     = (latin1_fs,
        inr (@combined literal_runtime sample_environ (lit "trace.html")
               [(lit "header", JStr (lit "caf" ++ ["233"]))])).
Proof.
  assert (Hdec : @utf8_decode literal_runtime latin1_bytes = None)
    by (vm_compute; reflexivity).
  split; [exact Hdec|].
  assert (Hnode : node_at latin1_fs (resolve sample_environ (path_of_str (lit "trace.html")))
                  = Some (File latin1_bytes)) by (vm_compute; reflexivity).
  refine (eq_trans (proj2 (proj2
    (@C9_encoding_fallback literal_runtime sample_environ latin1_fs (lit "trace.html")
       latin1_bytes Hnode) Hdec)) _).
  assert (Hx : @_extract_json_from_html literal_runtime (latin1_read latin1_bytes)
               = [(lit "header", JStr (lit "caf" ++ ["233"]))])
    by reflexivity.
  rewrite Hx. reflexivity.
Defined.

(** ** The textual form of the opening marker *)

Lemma same_letters_length (a b : str) : same_letters a b -> length a = length b.
Proof. intros E. apply (f_equal length) in E. rewrite !length_map in E. exact E. Qed.

Lemma startswith_ci_same (w w' r : str) :
  same_letters w' w -> startswith_ci w (w' ++ r) = true.
Proof.
  revert w'. induction w as [|a w IH]; intros w' E; [reflexivity|].
  destruct w' as [|b w']; [discriminate|]. injection E as E1 E2. cbn.
  rewrite E1, ascii_eqb_refl. apply IH, E2.
Qed.

Lemma startswith_ci_split (w s : str) :
  startswith_ci w s = true ->
  exists w' r, s = w' ++ r /\ same_letters w' w /\ drop (length w) s = r.
Proof.
  revert s. induction w as [|a w IH]; intros s Hs.
  - exists [], s. repeat split.
  - destruct s as [|b s]; [discriminate|]. cbn in Hs.
    apply andb_prop in Hs as [Hab Hs]. apply ascii_eqb_eq in Hab.
    destruct (IH s Hs) as (w' & r & -> & E & Hd).
    exists (b :: w'), r. repeat split; [|exact Hd].
    unfold same_letters in *. cbn. congruence.
Qed.

Lemma drop_while_app (p : ascii -> bool) (u s : str) :
  Forall (fun c => p c = true) u ->
  (match s with [] => True | c :: _ => p c = false end) ->
  drop_while p (u ++ s) = s.
Proof.
  intros Hu Hs. induction Hu as [|c u Hc _ IH]; cbn.
  - destruct s as [|c s]; [reflexivity|]. cbn. rewrite Hs. reflexivity.
  - rewrite Hc. exact IH.
Qed.

Lemma drop_while_split (p : ascii -> bool) (s : str) :
  exists u, Forall (fun c => p c = true) u /\ s = u ++ drop_while p s.
Proof.
  induction s as [|c s (u & Hu & E)].
  - exists []. split; [constructor | reflexivity].
  - cbn. destruct (p c) eqn:Hc.
    + exists (c :: u). split; [constructor; assumption|]. cbn. f_equal. exact E.
    + exists []. split; [constructor | reflexivity].
Qed.

Lemma after_spaces_split (s s1 : str) :
  after_spaces s = Some s1 -> exists ws, ws <> [] /\ all_space ws /\ s = ws ++ s1.
Proof.
  destruct s as [|c s]; [discriminate|]. cbn.
  destruct (isspace c) eqn:Hc; [|discriminate]. intros [= <-].
  destruct (drop_while_split isspace s) as (u & Hu & E).
  exists (c :: u). split; [discriminate|]. split; [constructor; assumption|].
  cbn. f_equal. exact E.
Qed.

Lemma after_spaces_app (ws s1 : str) :
  ws <> [] -> all_space ws ->
  (match s1 with [] => True | c :: _ => isspace c = false end) ->
  after_spaces (ws ++ s1) = Some s1.
Proof.
  intros Hne Hws Hs1. destruct Hws as [|c ws Hc Hws]; [congruence|].
  cbn. rewrite Hc. f_equal. apply drop_while_app; assumption.
Qed.

Lemma same_letters_head_not_space (w x : str) (c : ascii) :
  same_letters w (c :: x) -> in_range 33 126 (lower c) = true ->
  forall r, match w ++ r with [] => True | d :: _ => isspace d = false end.
Proof.
  intros E Hc r. destruct w as [|d w]; [discriminate|]. injection E as E _.
  cbn. destruct (isspace d) eqn:Hd; [|reflexivity].
  apply space_not_letter in Hd. congruence.
Qed.

(** The recogniser [open_marker] accepts exactly the textual form. *)
Lemma open_marker_form (script_id s rest : str) :
  open_marker script_id s = Some rest <-> opening_form script_id s rest.
Proof.
  split.
  - unfold open_marker. intros Hm.
    destruct (startswith_ci (lit "<script") s) eqn:H1; [|discriminate].
    apply startswith_ci_split in H1 as (name & r1 & -> & Hname & Hd1).
    change (length (lit "<script")) with 7 in Hd1. rewrite Hd1 in Hm.
    destruct (after_spaces r1) as [s1|] eqn:H2; [|discriminate].
    apply after_spaces_split in H2 as (ws1 & Hne1 & Hws1 & ->).
    destruct (startswith_ci type_attribute s1) eqn:H3; [|discriminate].
    apply startswith_ci_split in H3 as (ty & r2 & -> & Hty & Hd2).
    rewrite Hd2 in Hm.
    destruct (after_spaces r2) as [s2|] eqn:H4; [|discriminate].
    apply after_spaces_split in H4 as (ws2 & Hne2 & Hws2 & ->).
    destruct (startswith_ci (id_attribute script_id) s2) eqn:H5; [|discriminate].
    apply startswith_ci_split in H5 as (ida & r3 & -> & Hida & Hd3).
    rewrite Hd3 in Hm.
    destruct (drop_while_split not_gt r3) as (junk & Hjunk & E).
    destruct (drop_while not_gt r3) as [|c rest'] eqn:H6; [discriminate|].
    destruct (ascii_eqb c ">") eqn:Hc; [|discriminate].
    apply ascii_eqb_eq in Hc. subst c. injection Hm as <-.
    exists name, ws1, ty, ws2, ida, junk. rewrite E.
    repeat split; try assumption.
    eapply Forall_impl; [exact Hjunk|]. intros c Hc ->. discriminate.
  - intros (name & ws1 & ty & ws2 & ida & junk & -> & Hname & Hne1 & Hws1
            & Hty & Hne2 & Hws2 & Hida & Hjunk).
    unfold open_marker. rewrite (startswith_ci_same _ _ _ Hname).
    change 7 with (length (lit "<script")).
    rewrite <- (same_letters_length _ _ Hname), drop_app_length.
    rewrite after_spaces_app; try assumption.
    2:{ apply (same_letters_head_not_space ty _ _ Hty). reflexivity. }
    rewrite (startswith_ci_same _ _ _ Hty).
    rewrite <- (same_letters_length _ _ Hty), drop_app_length.
    rewrite after_spaces_app; try assumption.
    2:{ apply (same_letters_head_not_space ida _ _ Hida). reflexivity. }
    rewrite (startswith_ci_same _ _ _ Hida).
    rewrite <- (same_letters_length _ _ Hida), drop_app_length.
    rewrite drop_while_app; [rewrite ascii_eqb_refl; reflexivity | | reflexivity].
    eapply Forall_impl; [exact Hjunk|]. intros c Hc. unfold not_gt.
    apply negb_true_iff, ascii_eqb_neq, Hc.
Qed.

Lemma first_suffix_Some {A} (f : str -> option A) (s : str) (a : A) :
  first_suffix f s = Some a -> exists pre t, s = pre ++ t /\ f t = Some a.
Proof.
  induction s as [|c s IH]; cbn [first_suffix].
  - destruct (f []) eqn:E; [|discriminate]. intros [= <-]. exists [], []. auto.
  - destruct (f (c :: s)) eqn:E.
    + intros [= <-]. exists [], (c :: s). auto.
    + intros Hs. destruct (IH Hs) as (pre & t & -> & Ht). exists (c :: pre), t. auto.
Qed.

Lemma first_suffix_is_Some {A} (f : str -> option A) (pre t : str) :
  is_Some (f t) -> is_Some (first_suffix f (pre ++ t)).
Proof.
  intros Ht. induction pre as [|c pre IH].
  - destruct Ht as [x Hx]. destruct t as [|c t]; cbn [app first_suffix]; rewrite Hx; eauto.
  - cbn [app first_suffix]. destruct (f (c :: pre ++ t)); eauto.
Qed.

Lemma extract_span_NotFound (script_id html : str) :
  extract_span script_id html = NotFound <-> first_open script_id html = None.
Proof.
  rewrite extract_span_spec. unfold span_spec.
  destruct (first_open script_id html); [|tauto].
  destruct (strip _); split; discriminate.
Qed.

(** A marker is found exactly when the textual form occurs somewhere. *)
Lemma marker_found_iff (script_id html : str) :
  extract_span script_id html <> NotFound <->
  exists pre tail rest, html = pre ++ tail /\ opening_form script_id tail rest.
Proof.
  rewrite extract_span_NotFound. unfold first_open. split.
  - intros Hf. destruct (first_suffix (open_marker script_id) html) as [rest|] eqn:E;
      [|congruence].
    apply first_suffix_Some in E as (pre & tail & -> & Hm).
    exists pre, tail, rest. split; [reflexivity|]. apply open_marker_form, Hm.
  - intros (pre & tail & rest & -> & Hform). apply open_marker_form in Hform.
    destruct (first_suffix_is_Some (open_marker script_id) pre tail) as [x Hx]; [eauto|].
    congruence.
Qed.

Lemma first_open_skip (script_id u t : str) :
  no_lt u -> first_open script_id (u ++ t) = first_open script_id t.
Proof.
  intros Hu. unfold first_open. induction Hu as [|c u Hc _ IH]; [reflexivity|].
  cbn [app first_suffix].
  replace (open_marker script_id (c :: u ++ t)) with (@None str); [exact IH|].
  unfold open_marker. cbn [lit list_ascii_of_string startswith_ci].
  destruct (ascii_eqb (lower "<") (lower c)) eqn:E; [|reflexivity].
  apply ascii_eqb_eq in E. exfalso. apply Hc, lower_lt. symmetry. exact E.
Qed.

Lemma startswith_ci_before_lt (w u r : str) :
  Forall (fun x => ascii_eqb (lower x) (lower "<") = false) w ->
  startswith_ci w (u ++ "<" :: r) = true -> startswith_ci w u = true.
Proof.
  intros Hw. revert u. induction Hw as [|x w Hx _ IH]; intros u; [reflexivity|].
  destruct u as [|c u]; cbn.
  - rewrite Hx. discriminate.
  - intros Hs. apply andb_prop in Hs as [-> Hs]. apply IH, Hs.
Qed.

(** A script tag cannot begin in [pre] and end in what follows a [<]. *)
Lemma first_open_skip_tags (script_id pre r : str) :
  no_script_tag pre ->
  first_open script_id (pre ++ "<" :: r) = first_open script_id ("<" :: r).
Proof.
  unfold no_script_tag, first_open. induction pre as [|c pre IH]; [reflexivity|].
  cbn [occurs_ci]. intros Hpre. apply orb_false_elim in Hpre as [Hhere Hpre].
  cbn [app first_suffix].
  replace (open_marker script_id (c :: pre ++ "<" :: r)) with (@None str);
    [apply IH, Hpre|].
  unfold open_marker.
  destruct (startswith_ci (lit "<script") (c :: pre ++ "<" :: r)) eqn:E; [|reflexivity].
  exfalso. change (lit "<script") with ("<" :: lit "script") in E, Hhere.
  cbn [startswith_ci] in E, Hhere.
  apply andb_prop in E as [E1 E2]. rewrite E1 in Hhere. cbn [andb] in Hhere.
  apply (startswith_ci_before_lt (lit "script")) in E2; [congruence|].
  repeat constructor.
Qed.

(** An element whose inside has no [<] and which is not an opening
    marker hides nothing: the scan goes on after it. *)
Lemma absent_element (script_id pre interior tail : str) :
  no_script_tag pre -> no_lt interior -> first_open script_id tail = None ->
  open_marker script_id ("<" :: interior ++ tail) = None ->
  extract_span script_id (pre ++ "<" :: interior ++ tail) = NotFound.
Proof.
  intros Hpre Hint Htail Hopen. apply extract_span_NotFound.
  rewrite first_open_skip_tags by assumption.
  unfold first_open. cbn [first_suffix]. rewrite Hopen.
  fold (first_open script_id (interior ++ tail)).
  rewrite first_open_skip by assumption. exact Htail.
Qed.

Lemma open_marker_after_name (script_id r : str) :
  open_marker script_id ("<" :: lit "script" ++ r) =
  match after_spaces r with
  | Some s1 =>
      if startswith_ci type_attribute s1 then
        match after_spaces (drop (length type_attribute) s1) with
        | Some s2 =>
            if startswith_ci (id_attribute script_id) s2 then
              match drop_while not_gt (drop (length (id_attribute script_id)) s2) with
              | c :: rest => if ascii_eqb c ">" then Some rest else None
              | [] => None
              end
            else None
        | None => None
        end
      else None
  | None => None
  end.
Proof. reflexivity. Qed.

Lemma after_spaces_maybe (ws more : str) :
  all_space ws -> (match more with [] => True | c :: _ => isspace c = false end) ->
  after_spaces (ws ++ more) = match ws with [] => None | _ => Some more end.
Proof.
  intros Hws Hmore. destruct ws as [|c ws].
  - destruct more as [|d more]; [reflexivity|]. cbn. rewrite Hmore. reflexivity.
  - apply after_spaces_app; [discriminate | assumption | assumption].
Qed.

(** After the tag name and whitespace, text that is not the type
    attribute makes the element no opening marker. *)
Lemma open_marker_no_type (script_id ws more : str) :
  all_space ws -> (match more with [] => True | c :: _ => isspace c = false end) ->
  startswith_ci type_attribute more = false ->
  open_marker script_id ("<" :: lit "script" ++ ws ++ more) = None.
Proof.
  intros Hws Hmore Hty. rewrite open_marker_after_name, after_spaces_maybe by assumption.
  destruct ws; [reflexivity|]. rewrite Hty. reflexivity.
Qed.

Lemma open_marker_malformed (script_id interior tail : str) :
  malformed_interior interior -> open_marker script_id ("<" :: interior ++ tail) = None.
Proof.
  intros [(ws & id' & more & Hws & ->) | [(ws & more & Hws & ->)
          | [(ws & ws' & more & Hne & Hws & Hws' & ->) | (c & more & Hc & ->)]]].
  - rewrite <- !app_assoc. apply open_marker_no_type; [assumption | reflexivity..].
  - rewrite <- !app_assoc. apply open_marker_no_type; [assumption | reflexivity..].
  - rewrite <- !app_assoc. rewrite open_marker_after_name.
    rewrite after_spaces_app by (assumption || reflexivity).
    rewrite (startswith_ci_same type_attribute type_attribute) by reflexivity.
    rewrite drop_app_length.
    rewrite after_spaces_maybe by (assumption || reflexivity).
    destruct ws'; reflexivity.
  - rewrite <- !app_assoc. rewrite open_marker_after_name. cbn [app after_spaces].
    rewrite Hc. reflexivity.
Qed.

Lemma id_attribute_same_letters (id' script_id : str) :
  same_letters id' script_id -> same_letters (id_attribute id') (id_attribute script_id).
Proof.
  unfold same_letters, id_attribute. intros E.
  cbn [lit list_ascii_of_string app map]. rewrite !map_app, E. reflexivity.
Qed.

Lemma plain_open_tag_form (script_id id' tail : str) :
  same_letters id' script_id -> opening_form script_id (plain_open_tag id' ++ tail) tail.
Proof.
  intros E. exists (lit "<script"), [" "], type_attribute, [" "], (id_attribute id'), [].
  split.
  { unfold plain_open_tag.
    repeat (rewrite <- app_assoc || rewrite <- app_comm_cons). reflexivity. }
  repeat split; try discriminate; try (repeat constructor; fail).
  apply id_attribute_same_letters, E.
Qed.

Lemma no_lt_forallb (s : str) :
  forallb (fun c => negb (ascii_eqb c "<")) s = true -> no_lt s.
Proof.
  intros Hs. apply Forall_forall. intros c Hc. apply list_elem_of_In in Hc.
  apply (proj1 (forallb_forall _ _) Hs) in Hc.
  apply negb_true_iff, ascii_eqb_neq in Hc. exact Hc.
Qed.

Lemma all_space_forallb (s : str) : forallb isspace s = true -> all_space s.
Proof.
  intros Hs. apply Forall_forall. intros c Hc. apply list_elem_of_In in Hc.
  apply (proj1 (forallb_forall _ _) Hs), Hc.
Qed.

(** ** Claims on the form of the opening marker *)

(** C8, as the code has it.  The flag IGNORECASE covers the whole pattern,
    the identifier included: a typed JSON script region whose id differs
    from the identifier in letter case only is found as that identifier's
    region, and when no script tag comes before it the span extracted is
    the one that the same region with the exact id gives. *)
Theorem C8_identifier_case_ignored (script_id id' pre tail : str) :
  same_letters id' script_id ->
  extract_span script_id (pre ++ plain_open_tag id' ++ tail) <> NotFound
  /\ (no_script_tag pre ->
      first_open script_id (pre ++ plain_open_tag id' ++ tail) = Some tail
      /\ extract_span script_id (pre ++ plain_open_tag id' ++ tail)
         = extract_span script_id (plain_open_tag script_id ++ tail)).
Proof.
  intros E. split.
  - apply marker_found_iff. exists pre, (plain_open_tag id' ++ tail), tail.
    split; [reflexivity | apply plain_open_tag_form, E].
  - intros Hpre.
    assert (Hopen : forall i, same_letters i script_id ->
              first_open script_id (plain_open_tag i ++ tail) = Some tail).
    { intros i Hi. apply (plain_open_tag_form script_id i tail) in Hi.
      apply open_marker_form in Hi. unfold first_open.
      destruct (plain_open_tag i ++ tail) eqn:Et; cbn [first_suffix]; rewrite Hi; reflexivity. }
    assert (H1 : first_open script_id (pre ++ plain_open_tag id' ++ tail) = Some tail).
    { change (plain_open_tag id' ++ tail)
        with ("<" :: drop 1 (plain_open_tag id' ++ tail)).
      rewrite first_open_skip_tags by assumption. apply Hopen, E. }
    split; [exact H1|]. rewrite !extract_span_spec. unfold span_spec.
    rewrite H1, (Hopen script_id) by reflexivity. reflexivity.
Qed.

(** C8 as stated fails: the region below carries the id in upper case,
    the document has no region with the id as written, and the header is
    extracted from it all the same. *)
Lemma C8_counterexample :
  lit "HEADERJSON" <> lit "headerJson"
  /\ same_letters (lit "HEADERJSON") (lit "headerJson")
  /\ upper_id_html = plain_open_tag (lit "HEADERJSON") ++ quoted "{'a':1}</script>"
  /\ occurs (id_attribute (lit "headerJson")) upper_id_html = false
  /\ extract_span (lit "headerJson") upper_id_html = Found (quoted "{'a':1}")
  /\ @_extract_json_from_html literal_runtime upper_id_html
     = [(lit "header", JObj [(lit "a", JInt 1)])].
Proof. repeat split; try discriminate; reflexivity. Qed.

Lemma C8_witness :
  extract_span (lit "headerJson") upper_id_html <> NotFound.
Proof.
  refine (proj1 (C8_identifier_case_ignored (lit "headerJson") (lit "HEADERJSON") []
                   (quoted "{'a':1}</script>") _)).
  vm_compute. reflexivity.
Defined.

(** C10, as the code has it.  A marker is found exactly when the document
    holds, somewhere, the tag name, whitespace, the type attribute in
    double quotes, whitespace, the id attribute in double quotes, anything
    but [>], and [>], each up to letter case.  An element that lists the id
    before the type, writes an attribute in single quotes, or has
    something else than whitespace after the tag name is not a marker: a
    document that holds no other candidate has the marker absent. *)
Theorem C10_marker_textual_form (script_id : str) :
  (forall html,
     extract_span script_id html <> NotFound <->
     exists pre tail rest, html = pre ++ tail /\ opening_form script_id tail rest)
  /\ (forall pre interior tail,
        malformed_interior interior ->
        no_script_tag pre -> no_lt interior -> first_open script_id tail = None ->
        extract_span script_id (pre ++ "<" :: interior ++ tail) = NotFound).
Proof.
  split; [intros html; apply marker_found_iff|].
  intros pre interior tail Hbad Hpre Hint Htail.
  apply absent_element; try assumption. apply open_marker_malformed, Hbad.
Qed.

(** C10 as stated fails on letter case: the region below is found, and
    the document does not hold the type attribute in its exact spelling. *)
Lemma C10_counterexample :
  occurs type_attribute upper_type_html = false
  /\ extract_span (lit "headerJson") upper_type_html = Found (quoted "{'a':1}")
  /\ @_extract_json_from_html literal_runtime upper_type_html
     = [(lit "header", JObj [(lit "a", JInt 1)])].
Proof. repeat split; reflexivity. Qed.

Lemma C10_witness :
  extract_span (lit "headerJson")
    (lit "<html>" ++ "<" :: quoted "script id='headerJson' type='text/json'>{'a':1}"
       ++ lit "</script></html>") = NotFound
  /\ extract_span (lit "headerJson")
       (lit "<html>" ++ "<" :: lit "script type='text/json' id='headerJson'>1"
          ++ lit "</script></html>") = NotFound
  /\ extract_span (lit "headerJson")
       (lit "<html>" ++ "<" :: quoted "script/type='text/json' id='headerJson'>1"
          ++ lit "</script></html>") = NotFound.
Proof.
  pose proof (proj2 (C10_marker_textual_form (lit "headerJson"))) as Habsent.
  assert (Hpre : no_script_tag (lit "<html>")) by reflexivity.
  assert (Htail : first_open (lit "headerJson") (lit "</script></html>") = None)
    by (vm_compute; reflexivity).
  assert (Hsp : all_space [" "]) by (apply all_space_forallb; reflexivity).
  split; [|split]; apply Habsent; try assumption.
  - left. exists [" "], (lit "headerJson"), (quoted " type='text/json'>{'a':1}").
    split; [exact Hsp | reflexivity].
  - apply no_lt_forallb. reflexivity.
  - right. left. exists [" "], (lit " id='headerJson'>1").
    split; [exact Hsp | reflexivity].
  - apply no_lt_forallb. reflexivity.
  - right. right. right. exists "/", (quoted "type='text/json' id='headerJson'>1").
    split; reflexivity.
  - apply no_lt_forallb. reflexivity.
Defined.

(** * Further properties of the code *)

(** ** The result of the scan, marker by marker *)

Lemma keys_NoDup : NoDup (flat_map keys_of JSON_SCRIPT_IDS).
Proof. apply (bool_decide_unpack _). reflexivity. Qed.

Lemma marker_entry_keys `{Runtime} (html script_id k : str) :
  k ∈ dict_keys (marker_entry html script_id) -> k ∈ keys_of script_id.
Proof.
  unfold marker_entry, keys_of.
  destruct (extract_span script_id html); cbn; try (intros Hk; apply elem_of_nil in Hk; tauto).
  destruct (json_loads content); cbn; rewrite list_elem_of_singleton; intros ->;
    [apply list_elem_of_here | apply list_elem_of_further, list_elem_of_here].
Qed.

Lemma extract_step_entry `{Runtime} (html : str) (d : dict) (script_id : str) :
  (forall k, k ∈ keys_of script_id -> k ∉ dict_keys d) ->
  extract_step html d script_id = d ++ marker_entry html script_id.
Proof.
  intros Hfresh. unfold extract_step, marker_entry.
  destruct (extract_span script_id html); rewrite ?app_nil_r; try reflexivity.
  destruct (json_loads content); apply dict_set_new, Hfresh; unfold keys_of;
    [apply list_elem_of_here | apply list_elem_of_further, list_elem_of_here].
Qed.

Lemma extract_over_entries `{Runtime} (html : str) (ids : list str) (d : dict) :
  NoDup (flat_map keys_of ids) ->
  (forall k, k ∈ flat_map keys_of ids -> k ∉ dict_keys d) ->
  extract_over html ids d = d ++ flat_map (marker_entry html) ids.
Proof.
  revert d. induction ids as [|id ids IH]; intros d Hnd Hfresh.
  - cbn. rewrite app_nil_r. reflexivity.
  - cbn [flat_map] in Hnd, Hfresh. apply NoDup_app in Hnd as (_ & Hdisj & Hnd).
    cbn [extract_over fold_left flat_map].
    fold (extract_over html ids (extract_step html d id)).
    rewrite extract_step_entry by (intros k Hk; apply Hfresh, elem_of_app; auto).
    rewrite IH, <- app_assoc; [reflexivity | exact Hnd |].
    intros k Hk. unfold dict_keys. rewrite fmap_app, elem_of_app. intros [Hd | He].
    + apply (Hfresh k); [apply elem_of_app; auto | exact Hd].
    + apply marker_entry_keys in He. apply (Hdisj k He Hk).
Qed.

Lemma extract_by_marker `{Runtime} (html : str) :
  _extract_json_from_html html = flat_map (marker_entry html) JSON_SCRIPT_IDS.
Proof.
  unfold _extract_json_from_html.
  rewrite extract_over_entries; [reflexivity | apply keys_NoDup |].
  intros k _. apply not_elem_of_nil.
Qed.

(** X1. The result of [_extract_json_from_html] is the concatenation, in
    the order of the identifiers, of what each marker contributes on its
    own: one entry under the key or the raw key, or nothing.  It has at
    most six entries. *)
Theorem X1_result_by_marker `{Runtime} (html : str) :
  _extract_json_from_html html = flat_map (marker_entry html) JSON_SCRIPT_IDS
  /\ length (_extract_json_from_html html) <= 6.
Proof.
  pose proof (extract_by_marker html) as E.
  split; [exact E|]. rewrite E. unfold JSON_SCRIPT_IDS. cbn [flat_map].
  rewrite !length_app. cbn [length].
  assert (Hone : forall id, length (marker_entry html id) <= 1).
  { intros id. unfold marker_entry. destruct (extract_span id html); cbn; try lia.
    destruct (json_loads content); cbn; lia. }
  pose proof (Hone (lit "headerJson")). pose proof (Hone (lit "entriesJson")).
  pose proof (Hone (lit "queriesJson")). pose proof (Hone (lit "sharedQueryTextsJson")).
  pose proof (Hone (lit "mainThreadProfileJson")). pose proof (Hone (lit "auxThreadProfileJson")).
  lia.
Qed.

(** ** Documents without script tags *)

Lemma first_open_no_tag (script_id html : str) :
  no_script_tag html -> first_open script_id html = None.
Proof.
  unfold no_script_tag, first_open. induction html as [|c html IH]; cbn [occurs_ci first_suffix].
  - intros _. reflexivity.
  - intros Hn. apply orb_false_elim in Hn as [Hhere Hn].
    unfold open_marker at 1. rewrite Hhere. apply IH, Hn.
Qed.

(** X2. A document that holds no script tag, the empty document included,
    gives an empty result; read from a file, it gives a Combined Output
    made of the metadata alone, with an empty list of extracted keys. *)
Theorem X2_no_script_tag `{Runtime} (e : environ) (fs : filesystem) (p : str)
    (data : list byte) :
  node_at fs (resolve e (path_of_str p)) = Some (File data) ->
  no_script_tag (html_of_bytes data) ->
  _extract_json_from_html (html_of_bytes data) = []
  /\ extract_from_file e p fs = (fs, inr (combined e p []))
  /\ dict_get (extraction_metadata e (path_of_str p) []) (lit "extracted_scripts")
     = Some (JArr []).
Proof.
  intros Hnode Hno.
  assert (E : _extract_json_from_html (html_of_bytes data) = []).
  { rewrite extract_by_marker.
    assert (Hm : forall id, marker_entry (html_of_bytes data) id = []).
    { intros id. unfold marker_entry.
      rewrite (proj2 (extract_span_NotFound id _) (first_open_no_tag id _ Hno)). reflexivity. }
    unfold JSON_SCRIPT_IDS. cbn [flat_map]. rewrite !Hm. reflexivity. }
  split; [exact E|]. split; [|reflexivity].
  rewrite (extract_from_file_file e p fs data Hnode), E. reflexivity.
Qed.

(** ** What a span can hold *)

Lemma occurs_is_by (w s : str) : occurs w s = occurs_by (startswith w) s.
Proof. induction s as [|c s IH]; cbn; [reflexivity|]. rewrite IH. reflexivity. Qed.

Lemma occurs_ci_is_by (w s : str) : occurs_ci w s = occurs_by (startswith_ci w) s.
Proof. induction s as [|c s IH]; cbn; [reflexivity|]. rewrite IH. reflexivity. Qed.

Lemma startswith_ci_app (w z rest : str) :
  startswith_ci w z = true -> startswith_ci w (z ++ rest) = true.
Proof.
  revert z. induction w as [|a w IH]; intros z; [reflexivity|].
  destruct z as [|c z]; cbn; [discriminate|].
  destruct (ascii_eqb (lower a) (lower c)); cbn; [apply IH | discriminate].
Qed.

Lemma take_until_prefix (stop : str -> bool) (s : str) :
  s = take_until stop s ++ drop (length (take_until stop s)) s.
Proof.
  induction s as [|c s IH]; cbn [take_until]; [destruct (stop []); reflexivity|].
  destruct (stop (c :: s)); [reflexivity|]. cbn. f_equal. exact IH.
Qed.

Section Occurs.
Variable here : str -> bool.
Hypothesis here_app : forall s r, here s = true -> here (s ++ r) = true.
Hypothesis here_nil : here [] = false.

Lemma occurs_by_suffix (a b : str) :
  occurs_by here (a ++ b) = false -> occurs_by here b = false.
Proof using Type.
  induction a as [|c a IH]; [tauto|]. cbn [app occurs_by].
  intros Hn. apply orb_false_elim in Hn as [_ Hn]. apply IH, Hn.
Qed.

Lemma occurs_by_head (s : str) : occurs_by here s = false -> here s = false.
Proof using Type. destruct s; cbn; intros Hn; apply orb_false_elim in Hn; tauto. Qed.

Lemma occurs_by_prefix (a b : str) :
  occurs_by here (a ++ b) = false -> occurs_by here a = false.
Proof using here_app here_nil.
  induction a as [|c a IH]; cbn [app].
  - intros _. cbn. rewrite here_nil. reflexivity.
  - cbn [occurs_by]. intros Hn. apply orb_false_elim in Hn as [Hh Hn].
    rewrite (IH Hn), orb_false_r.
    destruct (here (c :: a)) eqn:E; [|reflexivity].
    apply (here_app _ b) in E. cbn [app] in E. congruence.
Qed.

Lemma occurs_by_infix (a x b : str) :
  occurs_by here (a ++ x ++ b) = false -> occurs_by here x = false.
Proof using here_app here_nil.
  intros Hn. apply occurs_by_suffix in Hn. apply occurs_by_prefix in Hn. exact Hn.
Qed.

(** What is taken before the first stop holds no position that is a stop. *)
Lemma occurs_by_take_until (stop : str -> bool) (s : str) :
  (forall t, here t = true -> stop t = true) ->
  occurs_by here (take_until stop s) = false.
Proof using here_app here_nil.
  intros Hstop. induction s as [|c s IH]; cbn [take_until].
  - destruct (stop []); cbn; rewrite here_nil; reflexivity.
  - destruct (stop (c :: s)) eqn:E; [cbn; rewrite here_nil; reflexivity|].
    cbn [occurs_by]. rewrite IH, orb_false_r.
    destruct (here (c :: take_until stop s)) eqn:Eh; [|reflexivity].
    apply (here_app _ (drop (length (take_until stop s)) s)) in Eh.
    cbn [app] in Eh. rewrite <- take_until_prefix in Eh.
    apply Hstop in Eh. congruence.
Qed.

(** Where no suffix is a stop, everything is taken. *)
Lemma take_until_all (s : str) : occurs_by here s = false -> take_until here s = s.
Proof using Type.
  induction s as [|c s IH]; cbn [occurs_by take_until]; intros Hn;
    apply orb_false_elim in Hn as [Hh Hn]; rewrite Hh; [reflexivity|].
  f_equal. apply IH, Hn.
Qed.
End Occurs.

Lemma strip_infix (x : str) :
  exists ws ws', all_space ws /\ all_space ws' /\ x = ws ++ strip x ++ ws'.
Proof.
  destruct (lstrip_split x) as (ws & Hws & Ex).
  destruct (rstrip_split (lstrip x)) as (ws' & Hws' & Ey).
  exists ws, ws'. split; [exact Hws|]. split; [exact Hws'|].
  unfold strip. rewrite <- Ey. exact Ex.
Qed.

Lemma strip_idem (x : str) : strip (strip x) = strip x.
Proof.
  destruct (strip_infix x) as (ws & ws' & Hws & Hws' & E).
  rewrite E at 2. rewrite strip_app_space_l, strip_app_space_r by assumption.
  reflexivity.
Qed.

Lemma next_marker_script (t : str) :
  startswith_ci (lit "<script") t = true -> next_marker t = true.
Proof. unfold next_marker. intros ->. reflexivity. Qed.

Lemma next_marker_body (t : str) :
  startswith_ci (lit "</body>") t = true -> next_marker t = true.
Proof. unfold next_marker. intros ->. apply orb_true_r. Qed.

(** X3. A span the program extracts is never empty, has no whitespace at
    either end, and holds neither the closing token [</script>], nor a
    script tag, nor the end-of-body marker. *)
Theorem X3_span_is_clean (script_id html content : str) :
  extract_span script_id html = Found content ->
  content <> []
  /\ strip content = content
  /\ occurs closing_token content = false
  /\ occurs_ci (lit "<script") content = false
  /\ occurs_ci (lit "</body>") content = false.
Proof.
  rewrite extract_span_spec. unfold span_spec.
  destruct (first_open script_id html) as [body|]; [|discriminate].
  destruct (strip (cut_at closing_token (take_until next_marker body))) as [|c t] eqn:E;
    [discriminate|].
  intros [= <-]. rewrite <- E. split; [rewrite E; discriminate|].
  split; [apply strip_idem|].
  set (u := take_until next_marker body). set (x := cut_at closing_token u).
  destruct (strip_infix x) as (ws & ws' & _ & _ & Ex).
  assert (Hx : u = x ++ drop (length x) u) by apply take_until_prefix.
  rewrite occurs_is_by, !occurs_ci_is_by. repeat split.
  - apply (occurs_by_infix _ (startswith_app closing_token) eq_refl ws _ ws').
    rewrite <- Ex. apply occurs_by_take_until; auto using startswith_app.
  - apply (occurs_by_infix _ (startswith_ci_app (lit "<script")) eq_refl ws _ ws').
    rewrite <- Ex.
    apply (occurs_by_prefix _ (startswith_ci_app (lit "<script")) eq_refl x (drop (length x) u)).
    rewrite <- Hx. apply occurs_by_take_until;
      auto using startswith_ci_app, next_marker_script.
  - apply (occurs_by_infix _ (startswith_ci_app (lit "</body>")) eq_refl ws _ ws').
    rewrite <- Ex.
    apply (occurs_by_prefix _ (startswith_ci_app (lit "</body>")) eq_refl x (drop (length x) u)).
    rewrite <- Hx. apply occurs_by_take_until;
      auto using startswith_ci_app, next_marker_body.
Qed.

Lemma X3_witness :
  quoted "{'a':1}" <> []
  /\ strip (quoted "{'a':1}") = quoted "{'a':1}"
  /\ occurs closing_token (quoted "{'a':1}") = false
  /\ occurs_ci (lit "<script") (quoted "{'a':1}") = false
  /\ occurs_ci (lit "</body>") (quoted "{'a':1}") = false.
Proof.
  apply (X3_span_is_clean (lit "headerJson") sample_html). reflexivity.
Defined.

(** ** Regions in well-formed and in unterminated documents *)

Lemma first_open_plain (script_id pre tail : str) :
  no_script_tag pre ->
  first_open script_id (pre ++ plain_open_tag script_id ++ tail) = Some tail.
Proof.
  intros Hpre.
  change (plain_open_tag script_id ++ tail)
    with ("<" :: drop 1 (plain_open_tag script_id ++ tail)).
  rewrite first_open_skip_tags by assumption.
  change ("<" :: drop 1 (plain_open_tag script_id ++ tail))
    with (plain_open_tag script_id ++ tail).
  pose proof (plain_open_tag_form script_id script_id tail eq_refl) as Hform.
  apply open_marker_form in Hform. unfold first_open.
  destruct (plain_open_tag script_id ++ tail); cbn [first_suffix]; rewrite Hform; reflexivity.
Qed.

Lemma startswith_before_lt (w u r : str) :
  Forall (fun x => ascii_eqb x "<" = false) w ->
  startswith w (u ++ "<" :: r) = true -> startswith w u = true.
Proof.
  intros Hw. revert u. induction Hw as [|x w Hx _ IH]; intros u; [reflexivity|].
  destruct u as [|c u]; cbn.
  - rewrite Hx. discriminate.
  - intros Hs. apply andb_prop in Hs as [-> Hs]. apply IH, Hs.
Qed.

(** A word that has [<] at its head only cannot begin in [t] and end
    after a later [<]. *)
Lemma no_straddle_ci (a : ascii) (w t r : str) :
  Forall (fun x => ascii_eqb (lower x) (lower "<") = false) w ->
  t <> [] -> startswith_ci (a :: w) t = false ->
  startswith_ci (a :: w) (t ++ "<" :: r) = false.
Proof.
  intros Hw Ht Hn. destruct t as [|c t]; [congruence|]. cbn in *.
  destruct (ascii_eqb (lower a) (lower c)); [|reflexivity]. cbn in *.
  destruct (startswith_ci w (t ++ "<" :: r)) eqn:E; [|reflexivity].
  apply startswith_ci_before_lt in E; [congruence | exact Hw].
Qed.

Lemma no_straddle (a : ascii) (w t r : str) :
  Forall (fun x => ascii_eqb x "<" = false) w ->
  t <> [] -> startswith (a :: w) t = false ->
  startswith (a :: w) (t ++ "<" :: r) = false.
Proof.
  intros Hw Ht Hn. destruct t as [|c t]; [congruence|]. cbn in *.
  destruct (ascii_eqb a c); [|reflexivity]. cbn in *.
  destruct (startswith w (t ++ "<" :: r)) eqn:E; [|reflexivity].
  apply startswith_before_lt in E; [congruence | exact Hw].
Qed.

Lemma take_until_app (stop : str -> bool) (content ending : str) :
  (forall pre t, content = pre ++ t -> t <> [] -> stop (t ++ ending) = false) ->
  take_until stop (content ++ ending) = content ++ take_until stop ending.
Proof.
  induction content as [|c content IH]; intros Hno; [reflexivity|].
  pose proof (Hno [] (c :: content) eq_refl) as Hc. cbn [app] in Hc.
  cbn [app take_until]. rewrite Hc by discriminate.
  f_equal. apply IH. intros pre t -> Ht. apply (Hno (c :: pre) t); [reflexivity | exact Ht].
Qed.

Lemma next_marker_no_straddle (content r : str) :
  occurs_ci (lit "<script") content = false ->
  occurs_ci (lit "</body>") content = false ->
  forall pre t, content = pre ++ t -> t <> [] -> next_marker (t ++ "<" :: r) = false.
Proof.
  rewrite !occurs_ci_is_by. intros H1 H2 pre t -> Ht.
  apply occurs_by_suffix, occurs_by_head in H1, H2.
  unfold next_marker. apply orb_false_intro.
  - apply (no_straddle_ci "<" (lit "script")); [repeat constructor | exact Ht | exact H1].
  - apply (no_straddle_ci "<" (lit "/body>")); [repeat constructor | exact Ht | exact H2].
Qed.

Lemma closing_no_straddle (content r : str) :
  occurs closing_token content = false ->
  forall pre t, content = pre ++ t -> t <> [] ->
    startswith closing_token (t ++ "<" :: r) = false.
Proof.
  rewrite occurs_is_by. intros H1 pre t -> Ht.
  apply occurs_by_suffix, occurs_by_head in H1.
  apply (no_straddle "<" (lit "/script>")); [repeat constructor | exact Ht | exact H1].
Qed.

Lemma startswith_lt_head (w ending : str) :
  startswith ("<" :: w) ending = true -> exists r, ending = "<" :: r.
Proof.
  destruct ending as [|c r]; cbn [startswith]; [discriminate|].
  intros Hs. apply andb_prop in Hs as [E _].
  apply ascii_eqb_eq in E. subst c. eauto.
Qed.

Lemma startswith_ci_lt_head (w ending : str) :
  startswith_ci ("<" :: w) ending = true -> exists r, ending = "<" :: r.
Proof.
  destruct ending as [|c r]; cbn [startswith_ci]; [discriminate|].
  intros Hs. apply andb_prop in Hs as [E _].
  apply ascii_eqb_eq in E. symmetry in E. apply lower_lt in E. subst c. eauto.
Qed.

Lemma startswith_split (w s : str) :
  startswith w s = true -> s = w ++ drop (length w) s.
Proof.
  revert s. induction w as [|a w IH]; intros s; [reflexivity|].
  destruct s as [|c s]; cbn; [discriminate|]. intros Hs.
  apply andb_prop in Hs as [Ha Hs]. apply ascii_eqb_eq in Ha. subst c.
  f_equal. apply IH, Hs.
Qed.

(** The scan for the next marker passes over a closing tag. *)
Lemma take_until_closing (tail : str) :
  take_until next_marker (closing_token ++ tail) = closing_token ++ take_until next_marker tail.
Proof. reflexivity. Qed.

(** The span of a region whose content holds no marker and no closing
    token, whatever ends it. *)
Lemma region_span (script_id pre content ending : str) :
  no_script_tag pre ->
  occurs_ci (lit "<script") content = false ->
  occurs_ci (lit "</body>") content = false ->
  occurs closing_token content = false ->
  region_end ending ->
  extract_span script_id (pre ++ plain_open_tag script_id ++ content ++ ending)
  = match strip content with [] => FoundEmpty | c :: t => Found (c :: t) end.
Proof.
  intros Hpre Hs Hb Hc Hend. rewrite extract_span_spec. unfold span_spec.
  rewrite first_open_plain by assumption.
  assert (Hcut : cut_at closing_token (take_until next_marker (content ++ ending)) = content).
  { assert (Hnm : occurs_by next_marker content = false).
    { rewrite occurs_ci_is_by in Hs, Hb. clear -Hs Hb.
      induction content as [|c content IH]; cbn [occurs_by] in *;
        apply orb_false_elim in Hs as [Hs1 Hs2]; apply orb_false_elim in Hb as [Hb1 Hb2];
        unfold next_marker at 1; rewrite Hs1, Hb1; [reflexivity|]. apply IH; assumption. }
    assert (Hcc : cut_at closing_token content = content).
    { apply take_until_all. rewrite <- occurs_is_by. exact Hc. }
    destruct Hend as [-> | [Hclose | Hnext]].
    - rewrite app_nil_r, (take_until_all _ _ Hnm). exact Hcc.
    - destruct (startswith_lt_head _ _ Hclose) as (r & Er).
      rewrite take_until_app
        by (rewrite Er; apply next_marker_no_straddle; assumption).
      rewrite (startswith_split _ _ Hclose), take_until_closing.
      unfold cut_at. rewrite take_until_app.
      + change (take_until (startswith closing_token) (closing_token ++ ?x)) with (@nil ascii).
        apply app_nil_r.
      + apply closing_no_straddle, Hc.
    - assert (exists r, ending = "<" :: r) as (r & Er).
      { unfold next_marker in Hnext. apply orb_prop in Hnext as [H1 | H1];
          apply startswith_ci_lt_head in H1; exact H1. }
      rewrite take_until_app
        by (rewrite Er; apply next_marker_no_straddle; assumption).
      replace (take_until next_marker ending) with (@nil ascii).
      + rewrite app_nil_r. exact Hcc.
      + destruct ending; cbn [take_until]; rewrite Hnext; reflexivity. }
  rewrite Hcut. destruct (strip content); reflexivity.
Qed.

(** X4. A properly closed region gives its trimmed content.  When no
    script tag comes before the opening tag and the content holds no
    script tag, no end-of-body marker and no closing token, the span of the
    identifier is the content without the whitespace around it, whatever
    follows the closing tag; a content of whitespace only counts as empty. *)
Theorem X4_closed_region (script_id pre content tail : str) :
  no_script_tag pre ->
  occurs_ci (lit "<script") content = false ->
  occurs_ci (lit "</body>") content = false ->
  occurs closing_token content = false ->
  extract_span script_id
    (pre ++ plain_open_tag script_id ++ content ++ closing_token ++ tail)
  = match strip content with [] => FoundEmpty | c :: t => Found (c :: t) end.
Proof.
  intros Hpre Hs Hb Hc. apply region_span; try assumption.
  right. left. reflexivity.
Qed.

Lemma X4_witness :
  extract_span (lit "headerJson")
    (lit "<html>" ++ plain_open_tag (lit "headerJson") ++ quoted " {'a':1} "
       ++ closing_token ++ lit "</html>")
  = Found (quoted "{'a':1}").
Proof.
  apply (X4_closed_region (lit "headerJson") (lit "<html>") (quoted " {'a':1} ")
           (lit "</html>")); reflexivity.
Defined.

(** X5. A region that is never closed runs to the next script tag, to the
    end-of-body marker or to the end of the document: under the same
    conditions on what comes before and on the content, the span is the
    trimmed content. *)
Theorem X5_unterminated_region (script_id pre content ending : str) :
  no_script_tag pre ->
  occurs_ci (lit "<script") content = false ->
  occurs_ci (lit "</body>") content = false ->
  occurs closing_token content = false ->
  ending = [] \/ next_marker ending = true ->
  extract_span script_id (pre ++ plain_open_tag script_id ++ content ++ ending)
  = match strip content with [] => FoundEmpty | c :: t => Found (c :: t) end.
Proof.
  intros Hpre Hs Hb Hc Hend. apply region_span; try assumption.
  unfold region_end. tauto.
Qed.

Lemma X5_witness :
  extract_span (lit "headerJson")
    (lit "<html>" ++ plain_open_tag (lit "headerJson") ++ quoted "{'a':1}"
       ++ quoted "<SCRIPT type='text/json' id='entriesJson'>[]")
  = Found (quoted "{'a':1}")
  /\ extract_span (lit "headerJson")
       (lit "<html>" ++ plain_open_tag (lit "headerJson") ++ quoted "{'a':1}" ++ [])
     = Found (quoted "{'a':1}").
Proof.
  split.
  - apply (X5_unterminated_region (lit "headerJson") (lit "<html>") (quoted "{'a':1}")
             (quoted "<SCRIPT type='text/json' id='entriesJson'>[]"));
      try reflexivity. right. reflexivity.
  - apply (X5_unterminated_region (lit "headerJson") (lit "<html>") (quoted "{'a':1}") []);
      try reflexivity. left. reflexivity.
Defined.

Lemma X2_witness :
  @_extract_json_from_html literal_runtime sample_html <> []
  /\ @extract_from_file literal_runtime sample_environ (lit "trace.html")
       {[ [lit "work"] := Dir;
          [lit "work"; lit "trace.html"] := File (bytes_of "<html><body>no data</body></html>") ]}
     = ({[ [lit "work"] := Dir;
           [lit "work"; lit "trace.html"] := File (bytes_of "<html><body>no data</body></html>") ]},
        inr (@combined literal_runtime sample_environ (lit "trace.html") [])).
Proof.
  split; [discriminate|].
  refine (proj1 (proj2 (@X2_no_script_tag literal_runtime sample_environ _ (lit "trace.html")
            (bytes_of "<html><body>no data</body></html>") _ _))); reflexivity.
Defined.

(** ** Key normalization on arbitrary identifiers *)

Lemma isupper_lower (c : ascii) : isupper (lower c) = false.
Proof. each_ascii c; reflexivity. Qed.

Lemma lower_not_upper (c : ascii) : isupper c = false -> lower c = c.
Proof. unfold lower. intros ->. reflexivity. Qed.

Lemma camel_from_lowercase (i : nat) (s : str) :
  Forall (fun c => isupper c = false) (camel_from i s).
Proof.
  revert i. induction s as [|c s IH]; intros i; cbn [camel_from]; [constructor|].
  apply Forall_app. split.
  - destruct (isupper c && (0 <? i)%nat); repeat constructor.
  - constructor; [apply isupper_lower | apply IH].
Qed.

Lemma camel_from_fixed (i : nat) (s : str) :
  Forall (fun c => isupper c = false) s -> camel_from i s = s.
Proof.
  intros Hs. revert i. induction Hs as [|c s Hc _ IH]; intros i; [reflexivity|].
  cbn [camel_from]. rewrite Hc, (lower_not_upper c Hc), IH. reflexivity.
Qed.

(** X6. The key that [_camel_to_snake] builds holds no upper-case letter;
    a text without upper-case letters is returned as it is, so the
    function applied twice gives what it gives applied once; and the first
    character never gets a separator. *)
Theorem X6_camel_to_snake_lowercase (s : str) :
  Forall (fun c => isupper c = false) (_camel_to_snake s)
  /\ (Forall (fun c => isupper c = false) s -> _camel_to_snake s = s)
  /\ _camel_to_snake (_camel_to_snake s) = _camel_to_snake s
  /\ head (_camel_to_snake s) = lower <$> head s.
Proof.
  unfold _camel_to_snake. split; [apply camel_from_lowercase|].
  split; [apply camel_from_fixed|].
  split; [apply camel_from_fixed, camel_from_lowercase|].
  destruct s as [|c s]; [reflexivity|]. cbn [camel_from Nat.ltb Nat.leb].
  rewrite andb_false_r. reflexivity.
Qed.

Lemma remove_all_J_free (a r : str) :
  Forall (fun c => c <> "J") a ->
  remove_all_from (lit "Json") 0 (a ++ r) = a ++ remove_all_from (lit "Json") 0 r.
Proof.
  induction 1 as [|c a Hc _ IH]; [reflexivity|].
  cbn [app remove_all_from].
  replace (startswith (lit "Json") (c :: a ++ r)) with false; [rewrite IH; reflexivity|].
  symmetry. cbn [lit list_ascii_of_string startswith].
  apply andb_false_intro1, ascii_eqb_neq. congruence.
Qed.

Lemma remove_all_nil (old : str) (k : nat) : remove_all_from old k [] = [].
Proof. reflexivity. Qed.

(** X7. The word [Json] is removed wherever it stands, not only at the
    end: for [a] and [b] without the letter [J], the key of [a ++ "Json" ++
    b ++ "Json"] is the key of [a ++ b]; in particular the key of
    [a ++ "Json"] is [_camel_to_snake a]. *)
Theorem X7_output_key_removes_Json (a b : str) :
  Forall (fun c => c <> "J") a -> Forall (fun c => c <> "J") b ->
  output_key (a ++ lit "Json" ++ b ++ lit "Json") = _camel_to_snake (a ++ b)
  /\ output_key (a ++ lit "Json") = _camel_to_snake a.
Proof.
  intros Ha Hb. unfold output_key, replace_with_empty. split; f_equal.
  - rewrite remove_all_J_free by assumption. f_equal.
    change (remove_all_from (lit "Json") 0 (lit "Json" ++ b ++ lit "Json"))
      with (remove_all_from (lit "Json") 0 (b ++ lit "Json")).
    rewrite remove_all_J_free by assumption.
    change (remove_all_from (lit "Json") 0 (lit "Json")) with (@nil ascii).
    apply app_nil_r.
  - rewrite remove_all_J_free by assumption.
    change (remove_all_from (lit "Json") 0 (lit "Json")) with (@nil ascii).
    apply app_nil_r.
Qed.

Lemma X7_witness :
  output_key (lit "my" ++ lit "Json" ++ lit "Data" ++ lit "Json") = lit "my_data"
  /\ output_key (lit "sharedQueryTexts" ++ lit "Json") = lit "shared_query_texts".
Proof.
  refine (match X7_output_key_removes_Json (lit "my") (lit "Data") _ _ with
          | conj H1 _ => conj H1 _ end).
  - repeat constructor; discriminate.
  - repeat constructor; discriminate.
  - refine (proj2 (X7_output_key_removes_Json (lit "sharedQueryTexts") [] _ _));
      repeat constructor; discriminate.
Defined.

(** ** Reading back what [json] wrote: tokens *)

Lemma json_ind_nested `{Runtime} (P : json -> Prop) :
  P JNull -> (forall b, P (JBool b)) -> (forall z, P (JInt z)) ->
  (forall f, P (JFloat f)) -> (forall s, P (JStr s)) ->
  (forall items, Forall P items -> P (JArr items)) ->
  (forall members, Forall (fun kv => P (snd kv)) members -> P (JObj members)) ->
  forall v, P v.
Proof.
  intros Hnull Hbool Hint Hfloat Hstr Harr Hobj.
  fix IH 1.
  intros [| b | z | f | s | items | members];
    [exact Hnull | apply Hbool | apply Hint | apply Hfloat | apply Hstr | |].
  - apply Harr. revert items. fix IHl 1. intros [|x l]; constructor; [apply IH | apply IHl].
  - apply Hobj. revert members. fix IHl 1. intros [|kv l]; constructor; [apply IH | apply IHl].
Qed.

Lemma json_wf_arr `{Runtime} (items : list json) :
  json_wf (JArr items) <-> Forall json_wf items.
Proof.
  cbn [json_wf]. induction items as [|x l IH]; [split; constructor|].
  rewrite Forall_cons, IH. reflexivity.
Qed.

Lemma json_wf_obj `{Runtime} (members : dict) :
  json_wf (JObj members) <->
  NoDup (dict_keys members) /\ Forall (fun kv => json_wf (snd kv)) members.
Proof.
  cbn [json_wf]. unfold dict_keys. apply and_iff_compat_l.
  induction members as [|x l IH]; [split; constructor|].
  rewrite Forall_cons, IH. reflexivity.
Qed.

Lemma floats_ok_arr `{Runtime} (items : list json) :
  floats_ok (JArr items) <-> Forall floats_ok items.
Proof.
  cbn [floats_ok]. induction items as [|x l IH]; [split; constructor|].
  rewrite Forall_cons, IH. reflexivity.
Qed.

Lemma floats_ok_obj `{Runtime} (members : dict) :
  floats_ok (JObj members) <-> Forall (fun kv => floats_ok (snd kv)) members.
Proof.
  cbn [floats_ok]. induction members as [|x l IH]; [split; constructor|].
  rewrite Forall_cons, IH. reflexivity.
Qed.

Lemma skip_ws_app_ws (ws s : str) : all_json_ws ws -> skip_ws (ws ++ s) = skip_ws s.
Proof. induction 1 as [|c ws Hc _ IH]; [reflexivity|]. cbn. rewrite Hc. exact IH. Qed.

Lemma skip_ws_all (ws : str) : all_json_ws ws <-> skip_ws ws = [].
Proof.
  induction ws as [|c ws IH]; cbn; [split; [reflexivity | constructor]|].
  destruct (json_ws c) eqn:Hc.
  - rewrite <- IH. split; [intros Hws; apply Forall_cons in Hws; tauto|].
    intros Hws. constructor; assumption.
  - split; [|discriminate]. intros Hws. apply Forall_cons in Hws as [Hc' _]. congruence.
Qed.

Lemma skip_ws_app_nonempty (t rest : str) :
  skip_ws t <> [] -> skip_ws (t ++ rest) = skip_ws t ++ rest.
Proof.
  induction t as [|c t IH]; cbn; [congruence|].
  destruct (json_ws c); [exact IH | reflexivity].
Qed.

Lemma skip_ws_app_all (r rest : str) : skip_ws r = [] -> skip_ws (r ++ rest) = skip_ws rest.
Proof. intros Hr. apply skip_ws_app_ws, skip_ws_all, Hr. Qed.

Lemma newline_indent_ws (ly : layout) (level : nat) : all_json_ws (newline_indent ly level).
Proof.
  destruct ly; cbn; [constructor|]. constructor; [reflexivity|].
  apply Forall_forall. intros c Hc. apply list_elem_of_In, repeat_spec in Hc. subst. reflexivity.
Qed.

(** *** String literals *)

Lemma scanstring_escape_char (c : ascii) (t : str) :
  scanstring (escape_char c ++ t) =
  match scanstring t with Some (x, r) => Some (c :: x, r) | None => None end.
Proof. each_ascii c; reflexivity. Qed.

Lemma scanstring_encode (s rest : str) :
  scanstring (flat_map escape_char s ++ dquote :: rest) = Some (s, rest).
Proof.
  induction s as [|c s IH]; [reflexivity|].
  cbn [flat_map]. rewrite <- app_assoc, scanstring_escape_char, IH. reflexivity.
Qed.

(** *** Integers *)

Lemma uint_chars_digits (u : uint) : Forall (fun c => is_digit c = true) (uint_chars u).
Proof. induction u; cbn; constructor; auto. Qed.

Lemma chars_uint_chars (u : uint) : chars_uint (uint_chars u) = u.
Proof.
  induction u; [reflexivity|..]; cbn [uint_chars chars_uint]; rewrite IHu; reflexivity.
Qed.

Lemma delimited_not_digit (rest : str) :
  delimited rest -> match rest with [] => True | c :: _ => is_digit c = false end.
Proof. destruct rest as [|c r]; [tauto|]. intros [->|[->|[->| ->]]]; reflexivity. Qed.

Lemma span_digits_app (s d r rest : str) :
  span_digits s = (d, r) -> delimited rest -> span_digits (s ++ rest) = (d, r ++ rest).
Proof.
  intros Hs Hrest. revert d r Hs. induction s as [|c s IH]; intros d r Hs.
  - cbn in Hs. injection Hs as <- <-. cbn [app].
    apply delimited_not_digit in Hrest. destruct rest as [|c0 r0]; [reflexivity|].
    cbn. rewrite Hrest. reflexivity.
  - cbn [app span_digits] in *. destruct (is_digit c).
    + destruct (span_digits s) as [d' r'] eqn:E. injection Hs as <- <-.
      rewrite (IH d' r' eq_refl). reflexivity.
    + injection Hs as <- <-. reflexivity.
Qed.

Lemma span_digits_all (ds : str) :
  Forall (fun c => is_digit c = true) ds -> span_digits ds = (ds, []).
Proof.
  induction 1 as [|c ds Hc _ IH]; [reflexivity|]. cbn. rewrite Hc, IH. reflexivity.
Qed.

Lemma to_uint_head (p : positive) :
  exists c ds, uint_chars (Pos.to_uint p) = c :: ds /\ in_range 49 57 c = true.
Proof.
  assert (Hn : unorm (Pos.to_uint p) = Pos.to_uint p).
  { rewrite <- (DecimalPos.Unsigned.to_of (Pos.to_uint p)).
    rewrite DecimalPos.Unsigned.of_to. reflexivity. }
  pose proof (DecimalPos.Unsigned.to_uint_nonzero p) as Hz.
  pose proof (DecimalPos.Unsigned.to_uint_nonnil p) as Hnil.
  destruct (Pos.to_uint p) as [|u|u|u|u|u|u|u|u|u|u];
    [congruence | | cbn [uint_chars]; eexists _, _; split; reflexivity ..].
  exfalso. rewrite DecimalFacts.unorm_D0 in Hn. unfold unorm in Hn.
  pose proof (DecimalFacts.nzhead_nonzero u u) as Hh.
  destruct (nzhead u) eqn:E; congruence.
Qed.

Lemma scan_tail_delimited (rest : str) :
  delimited rest -> scan_frac rest = ([], rest) /\ scan_exp rest = ([], rest).
Proof.
  destruct rest as [|c r]; [split; reflexivity|].
  intros [->|[->|[->| ->]]]; split; try reflexivity; destruct r; reflexivity.
Qed.

Lemma scan_number_int (negative : bool) (p : positive) (rest : str) :
  delimited rest ->
  scan_int_part (uint_chars (Pos.to_uint p) ++ rest)
  = Some (uint_chars (Pos.to_uint p), rest).
Proof.
  intros Hrest. destruct (to_uint_head p) as (c & ds & E & Hc).
  pose proof (uint_chars_digits (Pos.to_uint p)) as Hd. rewrite E in *.
  apply Forall_cons in Hd as [_ Hd].
  cbn [app scan_int_part].
  replace (ascii_eqb c "0") with false.
  2:{ symmetry. apply ascii_eqb_neq. intros ->. discriminate. }
  rewrite Hc.
  rewrite (span_digits_app ds ds [] rest (span_digits_all ds Hd) Hrest). reflexivity.
Qed.

Lemma scan_number_parts `{Runtime} (s s0 ip s1 : str) (negative : bool) :
  scan_sign s = (negative, s0) -> scan_int_part s0 = Some (ip, s1) ->
  scan_frac s1 = ([], s1) -> scan_exp s1 = ([], s1) ->
  scan_number s = Some (JInt (int_of_literal negative ip), s1).
Proof. intros H1 H2 H3 H4. unfold scan_number. rewrite H1, H2, H3, H4. reflexivity. Qed.

Lemma int_of_literal_to_uint (p : positive) :
  int_of_literal false (uint_chars (Pos.to_uint p)) = Zpos p
  /\ int_of_literal true (uint_chars (Pos.to_uint p)) = Zneg p.
Proof.
  unfold int_of_literal. rewrite chars_uint_chars.
  change (N.of_uint (Pos.to_uint p)) with (Pos.of_uint (Pos.to_uint p)).
  rewrite DecimalPos.Unsigned.of_to. split; reflexivity.
Qed.

Lemma scan_number_encode_int `{Runtime} (z : Z) (rest : str) :
  delimited rest -> scan_number (encode_int z ++ rest) = Some (JInt z, rest).
Proof.
  intros Hrest. destruct (scan_tail_delimited rest Hrest) as [Hf He].
  destruct z as [|p|p]; unfold encode_int.
  - apply (scan_number_parts _ ("0" :: rest) ["0"] rest false); auto.
  - rewrite <- (proj1 (int_of_literal_to_uint p)).
    apply (scan_number_parts _ (uint_chars (Pos.to_uint p) ++ rest)); auto.
    + destruct (to_uint_head p) as (c & ds & E & Hc). rewrite E. cbn [app scan_sign].
      replace (ascii_eqb c "-") with false; [reflexivity|].
      symmetry. apply ascii_eqb_neq. intros ->. discriminate.
    + apply (scan_number_int false p rest Hrest).
  - rewrite <- (proj2 (int_of_literal_to_uint p)).
    apply (scan_number_parts _ (uint_chars (Pos.to_uint p) ++ rest)); auto.
    apply (scan_number_int true p rest Hrest).
Qed.

Lemma scan_once_digit `{Runtime} (n : nat) (c : ascii) (s : str) :
  is_digit c = true -> scan_once (S n) (c :: s) = scan_number (c :: s).
Proof. each_ascii c; try discriminate; reflexivity. Qed.

Lemma scan_once_minus_digit `{Runtime} (n : nat) (c : ascii) (s : str) :
  is_digit c = true -> scan_once (S n) ("-" :: c :: s) = scan_number ("-" :: c :: s).
Proof. each_ascii c; try discriminate; reflexivity. Qed.

Lemma in_range_digit (c : ascii) : in_range 49 57 c = true -> is_digit c = true.
Proof. each_ascii c; try discriminate; reflexivity. Qed.

Lemma scan_once_encode_int `{Runtime} (n : nat) (z : Z) (rest : str) :
  delimited rest -> scan_once (S n) (encode_int z ++ rest) = Some (JInt z, rest).
Proof.
  intros Hrest. rewrite <- (scan_number_encode_int z rest Hrest).
  destruct z as [|p|p]; unfold encode_int.
  - apply scan_once_digit. reflexivity.
  - destruct (to_uint_head p) as (c & ds & -> & Hc).
    apply scan_once_digit, in_range_digit, Hc.
  - destruct (to_uint_head p) as (c & ds & -> & Hc).
    apply scan_once_minus_digit, in_range_digit, Hc.
Qed.
(** *** Tokens followed by more text *)

Lemma scan_sign_app (c : ascii) (u rest : str) :
  scan_sign ((c :: u) ++ rest)
  = (fst (scan_sign (c :: u)), snd (scan_sign (c :: u)) ++ rest).
Proof. cbn. destruct (ascii_eqb c "-"); reflexivity. Qed.

Lemma scan_int_part_app (s ip s1 rest : str) :
  scan_int_part s = Some (ip, s1) -> delimited rest ->
  scan_int_part (s ++ rest) = Some (ip, s1 ++ rest).
Proof.
  intros Hs Hrest. destruct s as [|c s]; [discriminate|].
  cbn [app scan_int_part] in *. destruct (ascii_eqb c "0").
  - injection Hs as <- <-. reflexivity.
  - destruct (in_range 49 57 c); [|discriminate].
    destruct (span_digits s) as [d r] eqn:E. injection Hs as <- <-.
    rewrite (span_digits_app s d r rest E Hrest). reflexivity.
Qed.

Lemma scan_frac_app (s fp s2 rest : str) :
  scan_frac s = (fp, s2) -> delimited rest -> scan_frac (s ++ rest) = (fp, s2 ++ rest).
Proof.
  intros Hs Hrest. pose proof (delimited_not_digit rest Hrest) as Hnd.
  destruct s as [|p [|c s]].
  - injection Hs as <- <-. apply (scan_tail_delimited rest Hrest).
  - injection Hs as <- <-. cbn [app]. destruct rest as [|c0 r0]; [reflexivity|].
    cbn [scan_frac]. rewrite Hnd, andb_false_r. reflexivity.
  - cbn [app scan_frac] in *. destruct (ascii_eqb p "." && is_digit c).
    + destruct (span_digits (c :: s)) as [d r] eqn:E. injection Hs as <- <-.
      change (c :: s ++ rest) with ((c :: s) ++ rest).
      rewrite (span_digits_app (c :: s) d r rest E Hrest). reflexivity.
    + injection Hs as <- <-. reflexivity.
Qed.

Lemma delimited_not_sign (rest : str) :
  delimited rest ->
  match rest with
  | [] => True
  | c :: _ => ascii_eqb c "-" || ascii_eqb c "+" = false
              /\ ascii_eqb c "e" || ascii_eqb c "E" = false
  end.
Proof.
  destruct rest as [|c r]; [tauto|]. intros [->|[->|[->| ->]]]; split; reflexivity.
Qed.

Lemma scan_exp_app (s ep s3 rest : str) :
  scan_exp s = (ep, s3) -> delimited rest -> scan_exp (s ++ rest) = (ep, s3 ++ rest).
Proof.
  intros Hs Hrest. pose proof (delimited_not_digit rest Hrest) as Hnd.
  pose proof (delimited_not_sign rest Hrest) as Hns.
  destruct s as [|e s1].
  - injection Hs as <- <-. apply (scan_tail_delimited rest Hrest).
  - cbn [app scan_exp] in *. destruct (ascii_eqb e "e" || ascii_eqb e "E").
    2:{ injection Hs as <- <-. reflexivity. }
    destruct s1 as [|c s2].
    + cbn in Hs. injection Hs as <- <-. cbn [app].
      destruct rest as [|c0 r0]; [reflexivity|]. destruct Hns as [Hsg _].
      rewrite Hsg. cbn [span_digits]. rewrite Hnd. reflexivity.
    + cbn [app]. destruct (ascii_eqb c "-" || ascii_eqb c "+").
      * destruct (span_digits s2) as [d r] eqn:E.
        rewrite (span_digits_app s2 d r rest E Hrest).
        destruct d; injection Hs as <- <-; reflexivity.
      * destruct (span_digits (c :: s2)) as [d r] eqn:E.
        change (c :: s2 ++ rest) with ((c :: s2) ++ rest).
        rewrite (span_digits_app (c :: s2) d r rest E Hrest).
        destruct d; injection Hs as <- <-; reflexivity.
Qed.

Lemma scan_number_app `{Runtime} (u : str) (v : json) (r0 rest : str) :
  scan_number u = Some (v, r0) -> delimited rest ->
  scan_number (u ++ rest) = Some (v, r0 ++ rest).
Proof.
  intros Hu Hrest. destruct u as [|c u]; [discriminate|].
  unfold scan_number in *. rewrite scan_sign_app.
  destruct (scan_sign (c :: u)) as [negative s0]. cbn [fst snd].
  destruct (scan_int_part s0) as [[ip s1]|] eqn:E1; [|discriminate].
  rewrite (scan_int_part_app s0 ip s1 rest E1 Hrest).
  destruct (scan_frac s1) as [fp s2] eqn:E2.
  rewrite (scan_frac_app s1 fp s2 rest E2 Hrest).
  destruct (scan_exp s2) as [ep s3] eqn:E3.
  rewrite (scan_exp_app s2 ep s3 rest E3 Hrest).
  destruct fp, ep; injection Hu as <- <-; reflexivity.
Qed.

Lemma scan_word_app {A} (w : str) (a x : A) (u r rest : str) :
  scan_word w a u = Some (x, r) -> scan_word w a (u ++ rest) = Some (x, r ++ rest).
Proof.
  unfold scan_word. destruct (startswith w u) eqn:E; [|discriminate].
  intros [= <- <-]. rewrite (startswith_app w u rest E).
  rewrite (startswith_split w u E) at 1. rewrite <- app_assoc, drop_app_length. reflexivity.
Qed.

Lemma parse_array_shape `{Runtime} (n : nat) (s : str) (acc : list json) (v : json) (r : str) :
  parse_array n s acc = Some (v, r) -> exists l, v = JArr l.
Proof.
  revert s acc. induction n as [|n IH]; intros s acc; [discriminate|].
  cbn [parse_array]. destruct (scan_once n s) as [[x r1]|]; [|discriminate].
  destruct (skip_ws r1) as [|c r2]; [discriminate|].
  destruct (ascii_eqb c "]"); [intros [= <- <-]; eauto|].
  destruct (ascii_eqb c ","); [apply IH | discriminate].
Qed.

Lemma parse_object_shape `{Runtime} (n : nat) (s : str) (acc : dict) (v : json) (r : str) :
  parse_object n s acc = Some (v, r) -> exists m, v = JObj m.
Proof.
  revert s acc. induction n as [|n IH]; intros s acc; [discriminate|].
  cbn [parse_object]. destruct s as [|q s1]; [discriminate|].
  destruct (ascii_eqb q dquote); [|discriminate].
  destruct (scanstring s1) as [[key r1]|]; [|discriminate].
  destruct (skip_ws r1) as [|c r2]; [discriminate|].
  destruct (ascii_eqb c ":"); [|discriminate].
  destruct (scan_once n (skip_ws r2)) as [[x r3]|]; [|discriminate].
  destruct (skip_ws r3) as [|c2 r4]; [discriminate|].
  destruct (ascii_eqb c2 "}"); [intros [= <- <-]; eauto|].
  destruct (ascii_eqb c2 ","); [apply IH | discriminate].
Qed.

Lemma startswith_app_delimited (w s rest : str) :
  Forall (fun a => ~ delimited [a]) w -> delimited rest ->
  startswith w (s ++ rest) = startswith w s.
Proof.
  intros Hw Hrest. revert s. induction Hw as [|a w Ha _ IH]; intros s; [reflexivity|].
  destruct s as [|c s]; cbn [app startswith].
  - destruct rest as [|c0 r0]; [reflexivity|]. cbn [startswith].
    destruct (ascii_eqb a c0) eqn:E; [|reflexivity].
    apply ascii_eqb_eq in E. subst c0. exfalso. apply Ha. exact Hrest.
  - rewrite IH. reflexivity.
Qed.

Lemma minus_infinity_no_delimiter : Forall (fun a => ~ delimited [a]) (lit "-Infinity").
Proof.
  repeat (apply Forall_cons_2; [intros [?|[?|[?|?]]]; discriminate|]). apply Forall_nil_2.
Qed.

(** A float that the scanner reads from [u] is read from [u] followed by
    a delimiter as well. *)
Lemma scan_once_float_app `{Runtime} (n m : nat) (u : str) (f : pyfloat) (r0 rest : str) :
  scan_once (S n) u = Some (JFloat f, r0) -> delimited rest ->
  scan_once (S m) (u ++ rest) = Some (JFloat f, r0 ++ rest).
Proof.
  intros Hu Hrest. destruct u as [|c u]; [discriminate|].
  cbn [scan_once app] in *.
  destruct (ascii_eqb c dquote).
  { destruct (scanstring u) as [[t r]|]; discriminate. }
  destruct (ascii_eqb c "{").
  { destruct (skip_ws u) as [|c2 r]; [discriminate|].
    destruct (ascii_eqb c2 "}"); [discriminate|].
    apply parse_object_shape in Hu as [x Hx]. discriminate. }
  destruct (ascii_eqb c "[").
  { destruct (skip_ws u) as [|c2 r]; [discriminate|].
    destruct (ascii_eqb c2 "]"); [discriminate|].
    apply parse_array_shape in Hu as [x Hx]. discriminate. }
  destruct (ascii_eqb c "n").
  { unfold scan_word in Hu. destruct (startswith _ _); discriminate. }
  destruct (ascii_eqb c "t").
  { unfold scan_word in Hu. destruct (startswith _ _); discriminate. }
  destruct (ascii_eqb c "f").
  { unfold scan_word in Hu. destruct (startswith _ _); discriminate. }
  destruct (ascii_eqb c "N").
  { apply (scan_word_app _ _ _ (c :: u) r0 rest Hu). }
  destruct (ascii_eqb c "I").
  { apply (scan_word_app _ _ _ (c :: u) r0 rest Hu). }
  change (c :: u ++ rest) with ((c :: u) ++ rest).
  rewrite (startswith_app_delimited (lit "-Infinity") (c :: u) rest
             minus_infinity_no_delimiter Hrest).
  destruct (ascii_eqb c "-" && startswith (lit "-Infinity") (c :: u)).
  { apply (scan_word_app _ _ _ (c :: u) r0 rest Hu). }
  apply scan_number_app; assumption.
Qed.
(** ** Reading back what [json] wrote: values *)

Lemma weight_arr `{Runtime} (items : list json) : weight (JArr items) = S (weights items).
Proof.
  cbn [weight]. f_equal.
  induction items as [|x l IH]; [reflexivity|]. cbn [weights]. rewrite <- IH. reflexivity.
Qed.

Lemma weight_obj `{Runtime} (members : dict) :
  weight (JObj members) = S (weights (map snd members)).
Proof.
  cbn [weight]. f_equal.
  induction members as [|x l IH]; [reflexivity|]. cbn [weights map]. rewrite <- IH. reflexivity.
Qed.

Lemma weight_pos `{Runtime} (v : json) : 1 <= weight v.
Proof. destruct v; cbn [weight]; lia. Qed.

Lemma scan_once_nil `{Runtime} (n : nat) : scan_once n [] = None.
Proof. destruct n; reflexivity. Qed.

Lemma scan_once_close `{Runtime} (n : nat) (r : str) : scan_once n ("]" :: r) = None.
Proof. destruct n; reflexivity. Qed.

Lemma float_in_context `{Runtime} (f : pyfloat) (rest : str) (n : nat) :
  float_roundtrip f -> delimited rest ->
  exists r, scan_once (S n) (skip_ws (float_text f ++ rest)) = Some (JFloat f, r)
            /\ skip_ws r = skip_ws rest.
Proof.
  unfold float_roundtrip, json_loads. intros Hf Hrest.
  replace (2 * length (float_text f) + 2) with (S (2 * length (float_text f) + 1)) in Hf by lia.
  destruct (scan_once _ (skip_ws (float_text f))) as [[v r0]|] eqn:E; [|discriminate].
  destruct (skip_ws r0) eqn:Er; [|discriminate]. injection Hf as ->.
  assert (Hne : skip_ws (float_text f) <> []).
  { intros Hn. rewrite Hn in E. discriminate. }
  rewrite (skip_ws_app_nonempty _ rest Hne). exists (r0 ++ rest). split.
  - apply (scan_once_float_app _ n _ f r0 rest E Hrest).
  - apply skip_ws_app_all, Er.
Qed.

Lemma join_map_cons {A} (sep : str) (f : A -> str) (x y : A) (l : list A) :
  join sep (map f (x :: y :: l)) = f x ++ sep ++ join sep (map f (y :: l)).
Proof. reflexivity. Qed.

Lemma delimited_closing (ly : layout) (level : nat) (c : ascii) (rest : str) :
  c = "]" \/ c = "}" -> delimited (newline_indent ly level ++ c :: rest).
Proof. destruct ly; cbn; tauto. Qed.

Lemma skip_ws_closing (ly : layout) (level : nat) (c : ascii) (rest : str) :
  c = "]" \/ c = "}" -> skip_ws (newline_indent ly level ++ c :: rest) = c :: rest.
Proof.
  intros Hc. rewrite skip_ws_app_ws by apply newline_indent_ws.
  destruct Hc as [-> | ->]; reflexivity.
Qed.

Lemma delimited_separator (ly : layout) (level : nat) (rest : str) :
  delimited (item_separator ly level ++ rest).
Proof. cbn. tauto. Qed.

Lemma skip_ws_separator (ly : layout) (level : nat) (rest : str) :
  skip_ws (item_separator ly level ++ rest) = "," :: newline_indent ly level ++ rest.
Proof. reflexivity. Qed.

Lemma encode_int_head (z : Z) :
  exists c t, encode_int z = c :: t /\ json_ws c = false.
Proof.
  destruct z as [|p|p]; cbn [encode_int]; [eauto | | eauto].
  destruct (to_uint_head p) as (c & ds & -> & Hc). exists c, ds. split; [reflexivity|].
  revert Hc. clear. each_ascii c; try discriminate; reflexivity.
Qed.

Lemma parse_array_encode `{Runtime} (ly : layout) (level closing : nat) (rest : str)
    (items : list json) :
  Forall (reads_back ly) items -> Forall json_wf items -> Forall floats_ok items ->
  items <> [] ->
  forall acc n, weights items <= n ->
  parse_array n
    (skip_ws (join (item_separator ly level) (map (encode ly level) items)
              ++ newline_indent ly closing ++ "]" :: rest)) acc
  = Some (JArr (acc ++ items), rest).
Proof.
  intros Hback Hwf Hfl. induction items as [|x xs IH]; [congruence|]. intros _ acc n Hn.
  apply Forall_cons in Hback as [Hx Hback], Hwf as [Hwx Hwf], Hfl as [Hfx Hfl].
  cbn [weights] in Hn. destruct n as [|n]; [lia|]. cbn [parse_array].
  destruct xs as [|y ys].
  - cbn [map join].
    destruct (Hx Hwx Hfx level n (newline_indent ly closing ++ "]" :: rest))
      as (r & Hr & Hskip); [lia | apply delimited_closing; tauto|].
    rewrite Hr, Hskip, skip_ws_closing by tauto.
    change (ascii_eqb "]" "]") with true. reflexivity.
  - rewrite join_map_cons, <- !app_assoc.
    destruct (Hx Hwx Hfx level n
                (item_separator ly level
                 ++ join (item_separator ly level) (map (encode ly level) (y :: ys))
                 ++ newline_indent ly closing ++ "]" :: rest))
      as (r & Hr & Hskip); [lia | apply delimited_separator|].
    rewrite Hr, Hskip, skip_ws_separator.
    change (ascii_eqb "," "]") with false. change (ascii_eqb "," ",") with true. cbv iota.
    rewrite skip_ws_app_ws by apply newline_indent_ws.
    rewrite (IH Hback Hwf Hfl) by (discriminate || lia).
    rewrite <- app_assoc. reflexivity.
Qed.

Lemma skip_ws_key_separator (ly : layout) (rest : str) :
  exists r1, skip_ws (key_separator ly ++ rest) = ":" :: r1 /\ skip_ws r1 = skip_ws rest.
Proof. destruct ly; cbn; eauto. Qed.

Lemma parse_object_encode `{Runtime} (ly : layout) (level closing : nat) (rest : str)
    (members : dict) :
  Forall (fun kv => reads_back ly (snd kv)) members ->
  Forall (fun kv => json_wf (snd kv)) members ->
  Forall (fun kv => floats_ok (snd kv)) members ->
  members <> [] ->
  forall acc n, NoDup (dict_keys (acc ++ members)) -> weights (map snd members) <= n ->
  parse_object n
    (skip_ws (join (item_separator ly level)
                (map (fun kv => encode_str (fst kv) ++ key_separator ly
                                  ++ encode ly level (snd kv)) members)
              ++ newline_indent ly closing ++ "}" :: rest)) acc
  = Some (JObj (acc ++ members), rest).
Proof.
  intros Hback Hwf Hfl. induction members as [|[k x] xs IH]; [congruence|].
  intros _ acc n Hnd Hn.
  apply Forall_cons in Hback as [Hx Hback], Hwf as [Hwx Hwf], Hfl as [Hfx Hfl].
  cbn [snd fst] in Hx, Hwx, Hfx.
  cbn [map weights snd] in Hn. destruct n as [|n]; [lia|].
  assert (Hfresh : k ∉ dict_keys acc).
  { unfold dict_keys in *. rewrite fmap_app in Hnd. apply NoDup_app in Hnd as (_ & Hd & _).
    intros Hk. apply (Hd k Hk). cbn. apply list_elem_of_here. }
  assert (Hstep : forall R, delimited R ->
            exists r, scanstring
                        (flat_map escape_char k
                         ++ dquote :: key_separator ly ++ encode ly level x ++ R)
                      = Some (k, key_separator ly ++ encode ly level x ++ R)
                      /\ (exists r1, skip_ws (key_separator ly ++ encode ly level x ++ R)
                                     = ":" :: r1
                                     /\ scan_once n (skip_ws r1) = Some (x, r))
                      /\ skip_ws r = skip_ws R).
  { intros R HR. destruct (Hx Hwx Hfx level n R) as (r & Hr & Hskip); [lia | exact HR|].
    exists r. split; [apply scanstring_encode|]. split; [|exact Hskip].
    destruct (skip_ws_key_separator ly (encode ly level x ++ R)) as (r1 & E1 & E2).
    exists r1. split; [exact E1|]. rewrite E2. exact Hr. }
  cbn [parse_object]. destruct xs as [|y ys].
  - cbn [map join fst snd]. unfold encode_str at 1. rewrite <- !app_assoc. cbn [app skip_ws].
    change (json_ws dquote) with false. cbv iota.
    change (ascii_eqb dquote dquote) with true. cbv iota.
    rewrite <- (app_assoc (flat_map escape_char k) [dquote]). cbn [app].
    destruct (Hstep (newline_indent ly closing ++ "}" :: rest))
      as (r & Hs & (r1 & E1 & Hr) & Hskip); [apply delimited_closing; tauto|].
    rewrite Hs, E1. change (ascii_eqb ":" ":") with true. cbv iota.
    rewrite Hr, Hskip, skip_ws_closing by tauto.
    change (ascii_eqb "}" "}") with true. cbv iota.
    rewrite dict_set_new by exact Hfresh. reflexivity.
  - rewrite join_map_cons. cbn [fst snd]. unfold encode_str at 1.
    rewrite <- !app_assoc. cbn [app skip_ws].
    change (json_ws dquote) with false. cbv iota.
    change (ascii_eqb dquote dquote) with true. cbv iota.
    rewrite <- (app_assoc (flat_map escape_char k) [dquote]). cbn [app].
    match goal with
    | |- context [item_separator ly level ++ ?X] =>
        destruct (Hstep (item_separator ly level ++ X))
          as (r & Hs & (r1 & E1 & Hr) & Hskip); [apply delimited_separator|]
    end.
    rewrite Hs, E1. change (ascii_eqb ":" ":") with true. cbv iota.
    rewrite Hr, Hskip, skip_ws_separator.
    change (ascii_eqb "," "}") with false. change (ascii_eqb "," ",") with true. cbv iota.
    rewrite skip_ws_app_ws by apply newline_indent_ws.
    rewrite dict_set_new by exact Hfresh.
    rewrite (IH Hback Hwf Hfl); [rewrite <- app_assoc; reflexivity | discriminate | | lia].
    rewrite <- app_assoc. exact Hnd.
Qed.

Lemma parse_array_head `{Runtime} (n : nat) (s : str) (acc : list json) (x : json * str) :
  parse_array n s acc = Some x -> exists c r, s = c :: r /\ ascii_eqb c "]" = false.
Proof.
  destruct n as [|n]; [discriminate|]. destruct s as [|c r]; cbn [parse_array].
  - rewrite scan_once_nil. discriminate.
  - intros Hp. exists c, r. split; [reflexivity|].
    destruct (ascii_eqb c "]") eqn:E; [|reflexivity].
    apply ascii_eqb_eq in E as ->. rewrite scan_once_close in Hp. discriminate.
Qed.

Lemma parse_object_head `{Runtime} (n : nat) (s : str) (acc : dict) (x : json * str) :
  parse_object n s acc = Some x -> exists c r, s = c :: r /\ ascii_eqb c "}" = false.
Proof.
  destruct n as [|n]; [discriminate|]. destruct s as [|c r]; cbn [parse_object]; [discriminate|].
  intros Hp. exists c, r. split; [reflexivity|].
  destruct (ascii_eqb c dquote) eqn:E; [|discriminate].
  apply ascii_eqb_eq in E as ->. reflexivity.
Qed.

(** Every value is read back from its text, in either layout. *)
Lemma scan_encode `{Runtime} (ly : layout) (v : json) : reads_back ly v.
Proof.
  induction v as [| b | z | f | s | items IH | members IH] using json_ind_nested;
    intros Hwf Hfl level n rest Hn Hrest;
    (destruct n as [|n];
       [match type of Hn with weight ?v <= _ => pose proof (weight_pos v) end; lia|]).
  - exists rest. split; reflexivity.
  - exists rest. destruct b; split; reflexivity.
  - exists rest. split; [|reflexivity]. cbn [encode].
    destruct (encode_int_head z) as (c & t & E & Hc).
    assert (Hs : skip_ws (encode_int z ++ rest) = encode_int z ++ rest).
    { rewrite E. cbn. rewrite Hc. reflexivity. }
    rewrite Hs. apply scan_once_encode_int, Hrest.
  - cbn [encode]. apply float_in_context; assumption.
  - exists rest. split; [|reflexivity]. cbn [encode]. unfold encode_str.
    cbn [app skip_ws]. change (json_ws dquote) with false. cbv iota.
    rewrite <- app_assoc. cbn [app].
    cbn [scan_once]. change (ascii_eqb dquote dquote) with true. cbv iota.
    rewrite scanstring_encode. reflexivity.
  - destruct items as [|x xs]; [exists rest; split; reflexivity|].
    exists rest. split; [|reflexivity].
    rewrite weight_arr in Hn. apply json_wf_arr in Hwf. apply floats_ok_arr in Hfl.
    pose proof (parse_array_encode ly (S level) level rest (x :: xs) IH Hwf Hfl
                  ltac:(discriminate) [] n ltac:(lia)) as Hp.
    destruct (parse_array_head _ _ _ _ Hp) as (c & r & E & Hc).
    change (encode ly level (JArr (x :: xs)))
      with ("[" :: newline_indent ly (S level)
              ++ join (item_separator ly (S level)) (map (encode ly (S level)) (x :: xs))
              ++ newline_indent ly level ++ ["]"]).
    cbn [app skip_ws]. change (json_ws "[") with false. cbv iota.
    rewrite <- !app_assoc. cbn [app]. cbn [scan_once].
    change (ascii_eqb "[" dquote) with false. change (ascii_eqb "[" "{") with false.
    change (ascii_eqb "[" "[") with true. cbv iota.
    rewrite skip_ws_app_ws by apply newline_indent_ws.
    rewrite E in Hp |- *. rewrite Hc. exact Hp.
  - destruct members as [|x xs]; [exists rest; split; reflexivity|].
    exists rest. split; [|reflexivity].
    rewrite weight_obj in Hn. apply json_wf_obj in Hwf as [Hnd Hwf]. apply floats_ok_obj in Hfl.
    pose proof (parse_object_encode ly (S level) level rest (x :: xs) IH Hwf Hfl
                  ltac:(discriminate) [] n Hnd ltac:(lia)) as Hp.
    destruct (parse_object_head _ _ _ _ Hp) as (c & r & E & Hc).
    change (encode ly level (JObj (x :: xs)))
      with ("{" :: newline_indent ly (S level)
              ++ join (item_separator ly (S level))
                   (map (fun kv => encode_str (fst kv) ++ key_separator ly
                                     ++ encode ly (S level) (snd kv)) (x :: xs))
              ++ newline_indent ly level ++ ["}"]).
    cbn [app skip_ws]. change (json_ws "{") with false. cbv iota.
    rewrite <- !app_assoc. cbn [app]. cbn [scan_once].
    change (ascii_eqb "{" dquote) with false. change (ascii_eqb "{" "{") with true. cbv iota.
    rewrite skip_ws_app_ws by apply newline_indent_ws.
    rewrite E in Hp |- *. rewrite Hc. exact Hp.
Qed.

(** The fuel [json_loads] starts with is enough for what [json] wrote. *)
Lemma item_separator_length (ly : layout) (level : nat) :
  1 <= length (item_separator ly level).
Proof. cbn. lia. Qed.

Lemma weights_join `{Runtime} (sep : str) (f : json -> str) (items : list json) :
  1 <= length sep ->
  Forall (fun x => weight x <= 2 * length (f x) + 1) items ->
  weights items <= 2 * length (join sep (map f items)) + 2.
Proof.
  intros Hsep. induction 1 as [|x l Hx Hl IH]; [cbn; lia|].
  destruct l as [|y l].
  - cbn [map join weights]. lia.
  - rewrite join_map_cons. cbn [weights] in *. rewrite !length_app. lia.
Qed.

Lemma weights_join_members `{Runtime} (sep : str) (f : str * json -> str)
    (g : json -> str) (members : dict) :
  1 <= length sep ->
  (forall kv, length (g (snd kv)) <= length (f kv)) ->
  Forall (fun kv => weight (snd kv) <= 2 * length (g (snd kv)) + 1) members ->
  weights (map snd members) <= 2 * length (join sep (map f members)) + 2.
Proof.
  intros Hsep Hf. induction 1 as [|x l Hx Hl IH]; [cbn; lia|].
  pose proof (Hf x) as Hfx. destruct l as [|y l].
  - cbn [map join weights]. lia.
  - rewrite join_map_cons. cbn [map weights] in *. rewrite !length_app. lia.
Qed.

Lemma weight_length `{Runtime} (ly : layout) (v : json) (level : nat) :
  weight v <= 2 * length (encode ly level v) + 1.
Proof.
  revert level.
  induction v as [| b | z | f | s | items IH | members IH] using json_ind_nested;
    intros level; try (cbn [weight]; lia).
  - destruct items as [|x xs]; [cbn; lia|]. rewrite weight_arr.
    change (encode ly level (JArr (x :: xs)))
      with ("[" :: newline_indent ly (S level)
              ++ join (item_separator ly (S level)) (map (encode ly (S level)) (x :: xs))
              ++ newline_indent ly level ++ ["]"]).
    pose proof (weights_join (item_separator ly (S level)) (encode ly (S level)) (x :: xs)
                  (item_separator_length ly (S level))) as Hw.
    cbn [length]. rewrite !length_app. cbn [length].
    assert (Hall : Forall (fun x0 => weight x0 <= 2 * length (encode ly (S level) x0) + 1)
                     (x :: xs)).
    { eapply Forall_impl; [exact IH|]. intros a Ha. apply Ha. }
    specialize (Hw Hall). lia.
  - destruct members as [|x xs]; [cbn; lia|]. rewrite weight_obj.
    change (encode ly level (JObj (x :: xs)))
      with ("{" :: newline_indent ly (S level)
              ++ join (item_separator ly (S level))
                   (map (fun kv => encode_str (fst kv) ++ key_separator ly
                                     ++ encode ly (S level) (snd kv)) (x :: xs))
              ++ newline_indent ly level ++ ["}"]).
    pose proof (weights_join_members (item_separator ly (S level))
                  (fun kv => encode_str (fst kv) ++ key_separator ly
                               ++ encode ly (S level) (snd kv))
                  (encode ly (S level)) (x :: xs)
                  (item_separator_length ly (S level))) as Hw.
    cbn [length]. rewrite !length_app. cbn [length].
    assert (Hall : Forall (fun kv => weight (snd kv)
                                     <= 2 * length (encode ly (S level) (snd kv)) + 1)
                     (x :: xs)).
    { eapply Forall_impl; [exact IH|]. intros a Ha. apply Ha. }
    specialize (Hw ltac:(intros kv; cbv beta; rewrite !length_app; lia) Hall). lia.
Qed.

(** [json.loads] reads back what [json.dump] wrote, in either layout. *)
Lemma json_loads_encode `{Runtime} (ly : layout) (v : json) :
  json_wf v -> floats_ok v -> json_loads (encode ly 0 v) = Some v.
Proof.
  intros Hwf Hfl. unfold json_loads.
  destruct (scan_encode ly v Hwf Hfl 0 (2 * length (encode ly 0 v) + 2) [])
    as (r & Hr & Hskip).
  - pose proof (weight_length ly v 0). lia.
  - exact I.
  - rewrite app_nil_r in Hr. rewrite Hr, Hskip. reflexivity.
Qed.

Lemma json_loads_dumps `{Runtime} (compact : bool) (v : json) :
  json_wf v -> floats_ok v -> json_loads (json_dumps compact v) = Some v.
Proof. apply json_loads_encode. Qed.

(** ** Writing files *)


Lemma mkdir_from_dir (todo visited : list str) (fs fs' : filesystem) :
  node_at fs visited = Some Dir ->
  mkdir_from visited todo fs = (fs', inr tt) ->
  node_at fs' (visited ++ todo) = Some Dir.
Proof.
  revert visited fs. induction todo as [|d todo IH]; intros visited fs Hv Hm.
  - injection Hm as <-. rewrite app_nil_r. exact Hv.
  - cbn [mkdir_from] in Hm.
    assert (Hne : forall fs0 : filesystem,
               node_at fs0 (visited ++ [d]) = fs0 !! (visited ++ [d])).
    { intros fs0. destruct visited; reflexivity. }
    rewrite (app_assoc visited [d] todo : visited ++ d :: todo = (visited ++ [d]) ++ todo).
    destruct (fs !! (visited ++ [d])) as [[data|]|] eqn:E.
    + discriminate.
    + apply (IH _ _ ltac:(rewrite Hne; exact E) Hm).
    + apply (IH _ _ ltac:(rewrite Hne; apply lookup_insert_eq) Hm).
Qed.

Lemma mkdir_from_fail (todo visited : list str) (fs fs' : filesystem) (x : exn) :
  mkdir_from visited todo fs = (fs', inl x) ->
  x = FileExistsError \/ x = NotADirectoryError.
Proof.
  revert visited fs. induction todo as [|d todo IH]; intros visited fs Hm; [discriminate|].
  cbn [mkdir_from] in Hm. destruct (fs !! (visited ++ [d])) as [[data|]|] eqn:E.
  - injection Hm as _ <-. destruct todo; tauto.
  - exact (IH _ _ Hm).
  - exact (IH _ _ Hm).
Qed.

Lemma write_text_ok (e : environ) (p : Path) (text : str) (fs fs' : filesystem) :
  write_text e p text fs = (fs', inr tt) ->
  fs' = <[resolve e p := File (utf8_encode text)]> fs
  /\ node_at fs (removelast (resolve e p)) = Some Dir.
Proof.
  unfold write_text. intros Hw.
  destruct (node_at fs (resolve e p)) as [[data|]|];
    destruct (node_at fs (removelast (resolve e p))) as [[data'|]|];
    try discriminate; injection Hw as <-; split; reflexivity.
Qed.

Lemma write_text_fail (e : environ) (p : Path) (text : str) (fs fs' : filesystem) (x : exn) :
  write_text e p text fs = (fs', inl x) -> fs' = fs.
Proof.
  unfold write_text. intros Hw.
  destruct (node_at fs (resolve e p)) as [[data|]|];
    destruct (node_at fs (removelast (resolve e p))) as [[data'|]|];
    try discriminate; injection Hw as <-; reflexivity.
Qed.

Lemma write_text_dir (e : environ) (p : Path) (text : str) (fs fs' : filesystem)
    (r : exn + unit) (q : list str) :
  write_text e p text fs = (fs', r) -> fs !! q = Some Dir -> fs' !! q = Some Dir.
Proof.
  unfold write_text. intros Hw Hq.
  destruct (node_at fs (resolve e p)) as [[data|]|] eqn:E;
    destruct (node_at fs (removelast (resolve e p))) as [[data'|]|];
    injection Hw as <- _; try exact Hq;
    (rewrite lookup_insert_ne; [exact Hq|]);
    intros <-; (destruct (resolve e p); [discriminate|]); cbn [node_at] in E; congruence.
Qed.

Lemma write_text_keeps (e : environ) (p : Path) (text : str) (fs fs' : filesystem)
    (r : exn + unit) (q : list str) (n : node) :
  write_text e p text fs = (fs', r) -> q <> resolve e p ->
  fs !! q = Some n -> fs' !! q = Some n.
Proof.
  unfold write_text. intros Hw Hne Hq.
  destruct (node_at fs (resolve e p)) as [[data|]|];
    destruct (node_at fs (removelast (resolve e p))) as [[data'|]|];
    injection Hw as <- _; try exact Hq;
    (rewrite lookup_insert_ne; [exact Hq | congruence]).
Qed.

Lemma write_text_present (e : environ) (p : Path) (text : str) (fs fs' : filesystem)
    (r : exn + unit) (q : list str) :
  write_text e p text fs = (fs', r) -> is_Some (fs !! q) -> is_Some (fs' !! q).
Proof.
  intros Hw [n Hq]. destruct (decide (q = resolve e p)) as [-> | Hne].
  - destruct r as [x | []].
    + apply write_text_fail in Hw as ->. eauto.
    + apply write_text_ok in Hw as [-> _]. rewrite lookup_insert_eq. eauto.
  - exists n. exact (write_text_keeps _ _ _ _ _ _ _ _ Hw Hne Hq).
Qed.

Lemma never_removes_refl (fs : filesystem) : never_removes fs fs.
Proof. intros q. tauto. Qed.

Lemma never_removes_trans (fs1 fs2 fs3 : filesystem) :
  never_removes fs1 fs2 -> never_removes fs2 fs3 -> never_removes fs1 fs3.
Proof. intros H12 H23 q. destruct (H12 q), (H23 q). tauto. Qed.

Lemma write_text_never_removes (e : environ) (p : Path) (text : str)
    (fs fs' : filesystem) (r : exn + unit) :
  write_text e p text fs = (fs', r) -> never_removes fs fs'.
Proof.
  intros Hw q. split; [apply (write_text_dir _ _ _ _ _ _ _ Hw)|].
  apply (write_text_present _ _ _ _ _ _ _ Hw).
Qed.


Lemma bind_inv {A B} (m : io A) (f : A -> io B) (fs fs' : filesystem) (r : exn + B) :
  bind m f fs = (fs', r) ->
  (exists x, m fs = (fs', inl x) /\ r = inl x)
  \/ (exists fs1 a, m fs = (fs1, inr a) /\ f a fs1 = (fs', r)).
Proof.
  unfold bind. destruct (m fs) as [fs1 [x | a]]; intros Hb.
  - left. injection Hb as <- <-. eauto.
  - right. eauto.
Qed.

Lemma save_combined_inv `{Runtime} (e : environ) (data : dict) (p : Path) (compact : bool)
    (fs fs' : filesystem) (r : exn + unit) :
  _save_combined_file e data p compact fs = (fs', r) ->
  exists fs1 r1,
    mkdir_parents e (path_parent p) fs = (fs1, r1)
    /\ (r1 = inr tt -> write_text e p (json_dumps compact (JObj data)) fs1 = (fs', r))
    /\ (forall x, r1 = inl x -> fs' = fs1 /\ r = inl x).
Proof.
  unfold _save_combined_file. intros Hs.
  apply bind_inv in Hs as [(x & Hm & ->) | (fs1 & [] & Hm & Hw)].
  - exists fs', (inl x). split; [exact Hm|]. split; [discriminate|].
    intros x' [= <-]. tauto.
  - exists fs1, (inr tt). split; [exact Hm|]. split; [intros _; exact Hw | discriminate].
Qed.

Lemma save_combined_written `{Runtime} (e : environ) (data : dict) (p : Path)
    (compact : bool) (fs fs' : filesystem) :
  _save_combined_file e data p compact fs = (fs', inr tt) ->
  fs' !! resolve e p = Some (File (utf8_encode (json_dumps compact (JObj data))))
  /\ node_at fs' (resolve e (path_parent p)) = Some Dir.
Proof.
  intros Hs.
  apply save_combined_inv in Hs as (fs1 & r1 & Hm & Hw & Hx).
  destruct r1 as [x | []]; [destruct (Hx x eq_refl); discriminate|].
  specialize (Hw eq_refl). clear Hx.
  pose proof (mkdir_from_dir _ [] _ _ eq_refl Hm) as Hdir. cbn [app] in Hdir.
  split.
  - destruct (write_text_ok _ _ _ _ _ Hw) as [-> _]. apply lookup_insert_eq.
  - destruct (resolve e (path_parent p)) as [|d ds]; [reflexivity|].
    exact (write_text_dir _ _ _ _ _ _ _ Hw Hdir).
Qed.

(** X8.  When [_save_combined_file] returns, the output path holds the UTF-8
    bytes of the text [json.dump] wrote, [json.loads] reads the saved
    dictionary back from that text, in the compact and in the indented layout
    alike, and the parent of the output path is a directory. *)
Theorem X8_combined_file_reads_back `{Runtime} (e : environ) (data : dict) (p : Path)
    (compact : bool) (fs fs' : filesystem) :
  json_wf (JObj data) -> floats_ok (JObj data) ->
  _save_combined_file e data p compact fs = (fs', inr tt) ->
  fs' !! resolve e p = Some (File (utf8_encode (json_dumps compact (JObj data))))
  /\ json_loads (json_dumps compact (JObj data)) = Some (JObj data)
  /\ node_at fs' (resolve e (path_parent p)) = Some Dir.
Proof.
  intros Hwf Hfl Hs. destruct (save_combined_written _ _ _ _ _ _ Hs) as [Hfile Hdir].
  split; [exact Hfile|]. split; [apply json_loads_dumps; assumption | exact Hdir].
Qed.

Lemma X8_witness :
  saved_fs !! [lit "work"; lit "out"; lit "data.json"]
  = Some (File (utf8_encode (@json_dumps literal_runtime true (JObj sample_data))))
  /\ @json_loads literal_runtime (json_dumps true (JObj sample_data))
     = Some (JObj sample_data)
  /\ node_at saved_fs [lit "work"; lit "out"] = Some Dir.
Proof.
  apply (@X8_combined_file_reads_back literal_runtime sample_environ sample_data
           (path_of_str (lit "out/data.json")) true sample_fs saved_fs).
  - split; [apply (bool_decide_unpack _); reflexivity|]. cbn. repeat split.
    + apply (bool_decide_unpack _); reflexivity.
    + apply (bool_decide_unpack _); reflexivity.
  - cbn. tauto.
  - reflexivity.
Defined.



(** ** One file for each key *)

Lemma split_slash_free (s cur : str) : slash_free s -> split_slash s cur = [cur ++ s].
Proof.
  intros Hs. revert cur. induction Hs as [|c s Hc _ IH]; intros cur; cbn [split_slash].
  - rewrite app_nil_r. reflexivity.
  - destruct (ascii_eqb c "/") eqn:E; [apply ascii_eqb_eq in E; contradiction|].
    rewrite IH, <- app_assoc. reflexivity.
Qed.

Lemma slash_free_app (a b : str) : slash_free a -> slash_free b -> slash_free (a ++ b).
Proof. apply Forall_app_2. Qed.

Lemma slash_free_json : slash_free (lit ".json").
Proof. repeat constructor; discriminate. Qed.

Lemma path_of_str_name (key : str) :
  slash_free key -> path_of_str (key ++ lit ".json") = MkPath false [key ++ lit ".json"].
Proof.
  intros Hk. unfold path_of_str.
  rewrite (split_slash_free _ [] (slash_free_app _ _ Hk slash_free_json)). cbn [app].
  assert (Hreal : real_part (key ++ lit ".json") = true).
  { unfold real_part. apply andb_true_intro. split; apply negb_true_iff, str_eqb_neq;
      intros E; apply (f_equal length) in E; rewrite length_app in E; cbn in E; lia. }
  rewrite filter_cons_True, filter_nil by exact Hreal. f_equal.
  destruct Hk as [|c k Hc _]; [reflexivity|]. cbn [app startswith].
  destruct (ascii_eqb "/" c) eqn:E; [apply ascii_eqb_eq in E; congruence | reflexivity].
Qed.

Lemma data_file_name (e : environ) (base_path : Path) (key : str) :
  slash_free key ->
  data_file e base_path key = resolve e base_path ++ [key ++ lit ".json"].
Proof.
  intros Hk. unfold data_file, path_join. rewrite (path_of_str_name key Hk).
  unfold resolve, path_absolute. cbn. destruct (is_absolute base_path); cbn.
  - reflexivity.
  - rewrite app_assoc. reflexivity.
Qed.

Lemma data_file_inj (e : environ) (base_path : Path) (k k' : str) :
  slash_free k -> slash_free k' ->
  data_file e base_path k = data_file e base_path k' -> k = k'.
Proof.
  intros Hk Hk' E. rewrite !data_file_name in E by assumption.
  apply app_inv_head in E. injection E as E. exact (app_inv_tail _ _ _ E).
Qed.

Lemma data_file_parent (e : environ) (base_path : Path) (key : str) :
  slash_free key -> removelast (data_file e base_path key) = resolve e base_path.
Proof. intros Hk. rewrite data_file_name by exact Hk. apply removelast_last. Qed.

(** The files the loop of [_save_separate_files] may write. *)
Lemma save_items_frame `{Runtime} (e : environ) (base_path : Path) (compact : bool)
    (items : dict) (fs fs' : filesystem) (r : exn + unit) :
  save_items e base_path compact items fs = (fs', r) ->
  kept_outside (fun q => exists k, k ∈ dict_keys items /\ k <> lit "extraction_metadata"
                                   /\ q = data_file e base_path k) fs fs'
  /\ never_removes fs fs'.
Proof.
  revert fs. induction items as [|[k v] items IH]; intros fs Hs.
  - injection Hs as <- _. split; [intros q n _ Hq; exact Hq | apply never_removes_refl].
  - cbn [save_items] in Hs. destruct (str_eqb k (lit "extraction_metadata")) eqn:E; cbn [negb] in Hs.
    + destruct (IH _ Hs) as [Hk Hn]. split; [|exact Hn].
      intros q n Hq. apply Hk. intros (k' & Hin & Hne & ->). apply Hq.
      exists k'. split; [apply list_elem_of_further, Hin | tauto].
    + apply str_eqb_neq in E.
      apply bind_inv in Hs as [(x & Hw & ->) | (fs1 & [] & Hw & Hs)].
      * split; [|exact (write_text_never_removes _ _ _ _ _ _ Hw)].
        intros q n Hq. apply (write_text_keeps _ _ _ _ _ _ _ _ Hw).
        intros ->. apply Hq. exists k. split; [apply list_elem_of_here | tauto].
      * destruct (IH _ Hs) as [Hk Hn]. split.
        -- intros q n Hq Hfs. apply Hk.
           ++ intros (k' & Hin & Hne & ->). apply Hq.
              exists k'. split; [apply list_elem_of_further, Hin | tauto].
           ++ apply (write_text_keeps _ _ _ _ _ _ _ _ Hw); [|exact Hfs].
              intros ->. apply Hq. exists k. split; [apply list_elem_of_here | tauto].
        -- eapply never_removes_trans; [exact (write_text_never_removes _ _ _ _ _ _ Hw) | exact Hn].
Qed.

Lemma save_items_ok `{Runtime} (e : environ) (base_path : Path) (compact : bool)
    (items : dict) (fs fs' : filesystem) :
  Forall slash_free (dict_keys items) -> NoDup (dict_keys items) ->
  save_items e base_path compact items fs = (fs', inr tt) ->
  forall k v, (k, v) ∈ items -> k <> lit "extraction_metadata" ->
  fs' !! data_file e base_path k = Some (File (utf8_encode (json_dumps compact v))).
Proof.
  revert fs. induction items as [|[k0 v0] items IH]; intros fs Hsf Hnd Hs k v Hin Hne.
  - apply elem_of_nil in Hin. destruct Hin.
  - cbn [dict_keys map fst] in Hsf, Hnd.
    apply Forall_cons in Hsf as [Hk0 Hsf]. apply NoDup_cons in Hnd as [Hfresh Hnd].
    cbn [save_items] in Hs. apply elem_of_cons in Hin as [Heq | Hin].
    + injection Heq as -> ->. apply str_eqb_neq in Hne. rewrite Hne in Hs. cbn [negb] in Hs.
      apply bind_inv in Hs as [(x & _ & Hx) | (fs1 & [] & Hw & Hs)]; [discriminate|].
      destruct (save_items_frame _ _ _ _ _ _ _ Hs) as [Hkept _].
      apply (Hkept (data_file e base_path k0)).
      * intros (k' & Hk' & _ & E). apply data_file_inj in E; [| exact Hk0 |].
        -- subst k'. exact (Hfresh Hk').
        -- rewrite Forall_forall in Hsf. apply Hsf, Hk'.
      * destruct (write_text_ok _ _ _ _ _ Hw) as [-> _]. apply lookup_insert_eq.
    + destruct (negb (str_eqb k0 (lit "extraction_metadata"))).
      * apply bind_inv in Hs as [(x & _ & Hx) | (fs1 & [] & Hw & Hs)]; [discriminate|].
        exact (IH _ Hsf Hnd Hs k v Hin Hne).
      * exact (IH _ Hsf Hnd Hs k v Hin Hne).
Qed.

Lemma dict_get_Some_elem `{Runtime} (d : dict) (k : str) (v : json) :
  dict_get d k = Some v -> (k, v) ∈ d.
Proof.
  induction d as [|[k0 v0] d IH]; cbn [dict_get]; [discriminate|].
  destruct (str_eqb k0 k) eqn:E.
  - apply str_eqb_eq in E as ->. intros [= ->]. apply list_elem_of_here.
  - intros Hd. apply list_elem_of_further, IH, Hd.
Qed.

Lemma slash_free_metadata : slash_free (lit "extraction_metadata").
Proof. repeat constructor; discriminate. Qed.

Lemma save_separate_inv `{Runtime} (e : environ) (data : dict) (p : Path) (compact : bool)
    (fs fs' : filesystem) :
  _save_separate_files e data p compact fs = (fs', inr tt) ->
  exists fs1 fs2 metadata,
    mkdir_parents e (path_join (path_parent p) (path_stem p)) fs = (fs1, inr tt)
    /\ dict_get data (lit "extraction_metadata") = Some metadata
    /\ write_text e (path_join (path_join (path_parent p) (path_stem p))
                       (lit "extraction_metadata.json"))
         (json_dumps compact metadata) fs1 = (fs2, inr tt)
    /\ save_items e (path_join (path_parent p) (path_stem p)) compact data fs2 = (fs', inr tt).
Proof.
  unfold _save_separate_files. intros Hs.
  apply bind_inv in Hs as [(x & _ & Hx) | (fs1 & [] & Hm & Hs)]; [discriminate|].
  destruct (dict_get data (lit "extraction_metadata")) as [metadata|].
  - apply bind_inv in Hs as [(x & _ & Hx) | (fs2 & [] & Hw & Hs)]; [discriminate|].
    exists fs1, fs2, metadata. tauto.
  - destruct (write_text e _ [] fs1) as [fs2 [x | u]]; discriminate.
Qed.

Lemma save_separate_written `{Runtime} (e : environ) (data : dict) (p : Path)
    (compact : bool) (fs fs' : filesystem) :
  NoDup (dict_keys data) -> Forall slash_free (dict_keys data) ->
  _save_separate_files e data p compact fs = (fs', inr tt) ->
  node_at fs' (resolve e (path_join (path_parent p) (path_stem p))) = Some Dir
  /\ forall key value, dict_get data key = Some value ->
       fs' !! (resolve e (path_join (path_parent p) (path_stem p)) ++ [key ++ lit ".json"])
       = Some (File (utf8_encode (json_dumps compact value))).
Proof.
  intros Hnd Hsf Hs. set (base := path_join (path_parent p) (path_stem p)) in *.
  apply save_separate_inv in Hs as (fs1 & fs2 & metadata & Hm & Hget & Hw & Hs).
  fold base in Hm, Hw, Hs.
  destruct (save_items_frame _ _ _ _ _ _ _ Hs) as [Hkept Hnr].
  split.
  - pose proof (mkdir_from_dir _ [] _ _ eq_refl Hm) as Hdir. cbn [app] in Hdir.
    destruct (resolve e base) as [|d ds]; [reflexivity|]. cbn [node_at] in Hdir |- *.
    apply (proj1 (Hnr _)). exact (write_text_dir _ _ _ _ _ _ _ Hw Hdir).
  - intros key value Hkey. pose proof (dict_get_Some_elem _ _ _ Hkey) as Hin.
    assert (Hkf : slash_free key).
    { rewrite Forall_forall in Hsf. apply Hsf.
      apply (list_elem_of_fmap_2 fst) in Hin. exact Hin. }
    rewrite <- (data_file_name e base key Hkf).
    destruct (decide (key = lit "extraction_metadata")) as [-> | Hne].
    + assert (metadata = value) as -> by congruence.
      apply Hkept.
      * intros (k & Hk & Hkne & E). apply data_file_inj in E;
          [congruence | exact slash_free_metadata |].
        rewrite Forall_forall in Hsf. apply Hsf, Hk.
      * destruct (write_text_ok _ _ _ _ _ Hw) as [-> _]. apply lookup_insert_eq.
    + exact (save_items_ok _ _ _ _ _ _ Hsf Hnd Hs key value Hin Hne).
Qed.

(** X10.  When [_save_separate_files] returns, the directory named after
    the stem of the output path exists, and for every key of the saved
    dictionary, the metadata key included, the file [<key>.json] in that
    directory holds the UTF-8 bytes of the text [json.dump] wrote for the
    key's value, from which [json.loads] reads that value back.  The keys
    are names without [/], as the extractor's keys are. *)
Theorem X10_separate_files_read_back `{Runtime} (e : environ) (data : dict) (p : Path)
    (compact : bool) (fs fs' : filesystem) :
  json_wf (JObj data) -> floats_ok (JObj data) ->
  Forall slash_free (dict_keys data) ->
  _save_separate_files e data p compact fs = (fs', inr tt) ->
  node_at fs' (resolve e (path_join (path_parent p) (path_stem p))) = Some Dir
  /\ forall key value, dict_get data key = Some value ->
       fs' !! (resolve e (path_join (path_parent p) (path_stem p)) ++ [key ++ lit ".json"])
       = Some (File (utf8_encode (json_dumps compact value)))
       /\ json_loads (json_dumps compact value) = Some value.
Proof.
  intros Hwf Hfl Hsf Hs.
  apply json_wf_obj in Hwf as [Hnd Hwf]. apply floats_ok_obj in Hfl.
  destruct (save_separate_written _ _ _ _ _ _ Hnd Hsf Hs) as [Hdir Hfiles].
  split; [exact Hdir|]. intros key value Hkey. split; [exact (Hfiles key value Hkey)|].
  pose proof (dict_get_Some_elem _ _ _ Hkey) as Hin. rewrite Forall_forall in Hwf, Hfl.
  apply json_loads_dumps; [exact (Hwf _ Hin) | exact (Hfl _ Hin)].
Qed.

Lemma X10_witness :
  node_at separate_fs [lit "work"; lit "out"; lit "data"] = Some Dir
  /\ forall key value, @dict_get literal_runtime sample_data key = Some value ->
       separate_fs !! ([lit "work"; lit "out"; lit "data"] ++ [key ++ lit ".json"])
       = Some (File (utf8_encode (json_dumps true value)))
       /\ json_loads (json_dumps true value) = Some value.
Proof.
  apply (@X10_separate_files_read_back literal_runtime sample_environ sample_data
           (path_of_str (lit "out/data.json")) true sample_fs separate_fs).
  - split; [apply (bool_decide_unpack _); reflexivity|]. cbn. repeat split.
    + apply (bool_decide_unpack _); reflexivity.
    + apply (bool_decide_unpack _); reflexivity.
  - cbn. tauto.
  - repeat constructor; discriminate.
  - reflexivity.
Defined.

(** X11.  A dictionary without the key [extraction_metadata] is never saved
    as separate files: [_save_separate_files] does not return normally, and
    when the directory could be made and the metadata file opened, it raises
    [KeyError] after leaving that file empty, with no data file written. *)
Theorem X11_separate_files_without_metadata `{Runtime} (e : environ) (data : dict)
    (p : Path) (compact : bool) :
  dict_get data (lit "extraction_metadata") = None ->
  (forall fs, (_save_separate_files e data p compact fs).2 <> inr tt)
  /\ (forall fs fs1,
        mkdir_parents e (path_join (path_parent p) (path_stem p)) fs = (fs1, inr tt) ->
        fs1 !! data_file e (path_join (path_parent p) (path_stem p))
                 (lit "extraction_metadata") <> Some Dir ->
        _save_separate_files e data p compact fs
        = (<[data_file e (path_join (path_parent p) (path_stem p))
               (lit "extraction_metadata") := File []]> fs1,
           inl (KeyError (lit "extraction_metadata")))).
Proof.
  intros Hget. split.
  - intros fs. destruct (_save_separate_files e data p compact fs) as [fs' [x | []]] eqn:Hs;
      [discriminate|].
    apply save_separate_inv in Hs as (_ & _ & metadata & _ & Hsome & _). congruence.
  - intros fs fs1 Hm Hnode. set (base := path_join (path_parent p) (path_stem p)) in *.
    unfold _save_separate_files, bind. fold base. rewrite Hm, Hget.
    pose proof (mkdir_from_dir _ [] _ _ eq_refl Hm) as Hdir. cbn [app] in Hdir.
    change (resolve e (path_join base (lit "extraction_metadata.json")))
      with (data_file e base (lit "extraction_metadata")) in *.
    unfold write_text.
    change (resolve e (path_join base (lit "extraction_metadata.json")))
      with (data_file e base (lit "extraction_metadata")) in *.
    rewrite (data_file_parent e base _ slash_free_metadata), Hdir.
    rewrite (data_file_name e base _ slash_free_metadata) in Hnode |- *.
    assert (Hat : forall fs0 : filesystem,
               node_at fs0 (resolve e base ++ [lit "extraction_metadata" ++ lit ".json"])
               = fs0 !! (resolve e base ++ [lit "extraction_metadata" ++ lit ".json"])).
    { intros fs0. destruct (resolve e base); reflexivity. }
    rewrite Hat.
    destruct (fs1 !! (resolve e base ++ [lit "extraction_metadata" ++ lit ".json"]))
      as [[bytes|]|]; [reflexivity | contradiction | reflexivity].
Qed.

Lemma X11_witness :
  (@_save_separate_files literal_runtime sample_environ bare_data
     (path_of_str (lit "out/data.json")) true sample_fs).2 <> inr tt
  /\ @_save_separate_files literal_runtime sample_environ bare_data
       (path_of_str (lit "out/data.json")) true sample_fs
     = (<[ [lit "work"; lit "out"; lit "data"; lit "extraction_metadata.json"] := File [] ]>
          made_fs,
        inl (KeyError (lit "extraction_metadata"))).
Proof.
  destruct (@X11_separate_files_without_metadata literal_runtime sample_environ bare_data
              (path_of_str (lit "out/data.json")) true eq_refl) as [Hnever Hraise].
  split; [apply Hnever|].
  refine (eq_trans (Hraise sample_fs made_fs eq_refl _) eq_refl).
  assert (E : made_fs !! [lit "work"; lit "out"; lit "data"; lit "extraction_metadata.json"]
              = None) by reflexivity.
  intros E'. refine (eq_ind None (fun o => match o with None => True | Some _ => False end)
                       I _ (eq_trans (eq_sym E) E')).
Defined.

(** ** What the decoder returns is well formed *)

Lemma dict_set_values `{Runtime} (P : json -> Prop) (d : dict) (k : str) (v : json) :
  Forall (fun kv => P (snd kv)) d -> P v ->
  Forall (fun kv => P (snd kv)) (dict_set d k v).
Proof.
  intros Hd Hv. induction Hd as [|[k0 v0] d H0 Hd IH]; cbn [dict_set].
  - repeat constructor. exact Hv.
  - destruct (str_eqb k0 k); constructor; assumption.
Qed.

Lemma dict_set_wf `{Runtime} (d : dict) (k : str) (v : json) :
  json_wf (JObj d) -> json_wf v -> json_wf (JObj (dict_set d k v)).
Proof.
  rewrite !json_wf_obj. intros [Hnd Hd] Hv. split.
  - apply dict_set_NoDup, Hnd.
  - apply dict_set_values; assumption.
Qed.

Lemma scan_number_wf `{Runtime} (s : str) (v : json) (r : str) :
  scan_number s = Some (v, r) -> json_wf v.
Proof.
  unfold scan_number. destruct (scan_sign s) as [negative s0].
  destruct (scan_int_part s0) as [[ip s1]|]; [|discriminate].
  destruct (scan_frac s1) as [fp s2]. destruct (scan_exp s2) as [ep s3].
  destruct fp, ep; intros [= <- _]; exact I.
Qed.

Lemma scan_word_wf `{Runtime} (w : str) (a v : json) (s r : str) :
  json_wf a -> scan_word w a s = Some (v, r) -> json_wf v.
Proof. unfold scan_word. intros Ha. destruct (startswith w s); intros [= <- _]; exact Ha. Qed.

Lemma scan_wf `{Runtime} (n : nat) :
  (forall s v r, scan_once n s = Some (v, r) -> json_wf v)
  /\ (forall s acc v r, Forall json_wf acc -> parse_array n s acc = Some (v, r) -> json_wf v)
  /\ (forall s acc v r, json_wf (JObj acc) -> parse_object n s acc = Some (v, r) -> json_wf v).
Proof.
  induction n as [|n (IHs & IHa & IHo)]; [repeat split; intros; discriminate|].
  repeat split.
  - intros s v r. cbn [scan_once]. destruct s as [|c s1]; [discriminate|].
    destruct (ascii_eqb c dquote).
    { destruct (scanstring s1) as [[t r0]|]; intros [= <- _]; exact I. }
    destruct (ascii_eqb c "{").
    { destruct (skip_ws s1) as [|c2 r0]; [discriminate|].
      destruct (ascii_eqb c2 "}"); [intros [= <- _]; split; [constructor | exact I]|].
      apply IHo. split; [constructor | exact I]. }
    destruct (ascii_eqb c "[").
    { destruct (skip_ws s1) as [|c2 r0]; [discriminate|].
      destruct (ascii_eqb c2 "]"); [intros [= <- _]; exact I|].
      apply IHa. constructor. }
    destruct (ascii_eqb c "n"); [apply scan_word_wf; exact I|].
    destruct (ascii_eqb c "t"); [apply scan_word_wf; exact I|].
    destruct (ascii_eqb c "f"); [apply scan_word_wf; exact I|].
    destruct (ascii_eqb c "N"); [apply scan_word_wf; exact I|].
    destruct (ascii_eqb c "I"); [apply scan_word_wf; exact I|].
    destruct (ascii_eqb c "-" && startswith (lit "-Infinity") (c :: s1));
      [apply scan_word_wf; exact I | apply scan_number_wf].
  - intros s acc v r Hacc. cbn [parse_array].
    destruct (scan_once n s) as [[x r0]|] eqn:Hx; [|discriminate].
    apply IHs in Hx.
    assert (Hacc' : Forall json_wf (acc ++ [x])).
    { apply Forall_app_2; [exact Hacc | repeat constructor; exact Hx]. }
    destruct (skip_ws r0) as [|c r1]; [discriminate|].
    destruct (ascii_eqb c "]"); [intros [= <- _]; apply json_wf_arr, Hacc'|].
    destruct (ascii_eqb c ","); [|discriminate]. apply IHa, Hacc'.
  - intros s acc v r Hacc. cbn [parse_object]. destruct s as [|q s1]; [discriminate|].
    destruct (ascii_eqb q dquote); [|discriminate].
    destruct (scanstring s1) as [[key r0]|]; [|discriminate].
    destruct (skip_ws r0) as [|c r1]; [discriminate|].
    destruct (ascii_eqb c ":"); [|discriminate].
    destruct (scan_once n (skip_ws r1)) as [[x r2]|] eqn:Hx; [|discriminate].
    apply IHs in Hx. pose proof (dict_set_wf acc key x Hacc Hx) as Hacc'.
    destruct (skip_ws r2) as [|c2 r3]; [discriminate|].
    destruct (ascii_eqb c2 "}"); [intros [= <- _]; exact Hacc'|].
    destruct (ascii_eqb c2 ","); [|discriminate]. apply IHo, Hacc'.
Qed.

Lemma json_loads_wf `{Runtime} (s : str) (v : json) : json_loads s = Some v -> json_wf v.
Proof.
  unfold json_loads.
  destruct (scan_once _ (skip_ws s)) as [[x r]|] eqn:Hx; [|discriminate].
  destruct (skip_ws r); [|discriminate]. intros [= <-].
  exact (proj1 (scan_wf _) _ _ _ Hx).
Qed.
(** ** The shape of a Combined Output *)

Lemma extract_from_file_inv `{Runtime} (e : environ) (p : str) (fs fs' : filesystem)
    (data : dict) :
  extract_from_file e p fs = (fs', inr data) ->
  exists bytes,
    node_at fs (resolve e (path_of_str p)) = Some (File bytes)
    /\ fs' = fs
    /\ data = combined e p (_extract_json_from_html (html_of_bytes bytes)).
Proof.
  destruct (node_at fs (resolve e (path_of_str p))) as [[bytes|]|] eqn:Hnode.
  - rewrite (extract_from_file_file e p fs bytes Hnode). intros [= <- <-]. eauto.
  - rewrite (extract_from_file_directory e p fs Hnode). discriminate.
  - rewrite (extract_from_file_missing e p fs Hnode). discriminate.
Qed.


Lemma slash_free_forallb (s : str) :
  forallb (fun c => negb (ascii_eqb c "/")) s = true -> slash_free s.
Proof.
  intros Hs. apply Forall_forall. intros c Hc Hc'. subst c.
  rewrite forallb_forall in Hs. apply list_elem_of_In in Hc. apply Hs in Hc. discriminate.
Qed.

Lemma marker_keys_slash_free : Forall slash_free (flat_map keys_of JSON_SCRIPT_IDS).
Proof. repeat (apply Forall_cons_2; [apply slash_free_forallb; reflexivity|]). constructor. Qed.

Lemma extracted_keys_markers `{Runtime} (html k : str) :
  k ∈ dict_keys (_extract_json_from_html html) -> k ∈ flat_map keys_of JSON_SCRIPT_IDS.
Proof.
  rewrite extract_by_marker. unfold dict_keys. generalize JSON_SCRIPT_IDS.
  intros ids. induction ids as [|id ids IH]; cbn [flat_map]; [exact (fun Hk => Hk)|].
  rewrite fmap_app, !elem_of_app. intros [Hk | Hk]; [left | right; exact (IH Hk)].
  exact (marker_entry_keys html id k Hk).
Qed.

Lemma extracted_wf `{Runtime} (html : str) :
  Forall (fun kv => json_wf (snd kv)) (_extract_json_from_html html).
Proof.
  rewrite extract_by_marker. generalize JSON_SCRIPT_IDS.
  intros ids. induction ids as [|id ids IH]; cbn [flat_map]; [constructor|].
  apply Forall_app_2; [|exact IH]. unfold marker_entry.
  destruct (extract_span id html) as [| |content]; try constructor.
  destruct (json_loads content) as [v|] eqn:Hv; repeat constructor.
  exact (json_loads_wf _ _ Hv).
Qed.

Lemma json_wf_strings `{Runtime} (l : list str) : json_wf (JArr (map JStr l)).
Proof. apply json_wf_arr, Forall_forall. intros x Hx. apply list_elem_of_fmap in Hx as (s & -> & _). exact I. Qed.

Lemma floats_ok_strings `{Runtime} (l : list str) : floats_ok (JArr (map JStr l)).
Proof. apply floats_ok_arr, Forall_forall. intros x Hx. apply list_elem_of_fmap in Hx as (s & -> & _). exact I. Qed.

Lemma combined_wf `{Runtime} (e : environ) (p html : str) :
  json_wf (JObj (combined e p (_extract_json_from_html html))).
Proof.
  apply json_wf_obj. unfold combined. split.
  - cbn [dict_keys map fst]. apply NoDup_cons. split; [|apply extracted_NoDup].
    intros Hk. exact (extracted_keys_fresh html _ Hk eq_refl).
  - constructor; [|apply extracted_wf]. cbn [snd]. apply json_wf_obj. split.
    + apply (bool_decide_unpack _). reflexivity.
    + unfold extraction_metadata. repeat (constructor; [exact I|]).
      constructor; [apply json_wf_strings | constructor].
Qed.

Lemma combined_slash_free `{Runtime} (e : environ) (p html : str) :
  Forall slash_free (dict_keys (combined e p (_extract_json_from_html html))).
Proof.
  unfold combined. cbn [dict_keys map fst]. constructor; [exact slash_free_metadata|].
  apply Forall_forall. intros k Hk. apply extracted_keys_markers in Hk.
  pose proof marker_keys_slash_free as Hall. rewrite Forall_forall in Hall. exact (Hall k Hk).
Qed.

(** X12.  Every dictionary [extract_from_file] returns begins with the
    metadata record, whose five keys come in a fixed order and whose
    [extracted_scripts] lists the keys that follow; those are at most six,
    each a marker's key or raw key; all keys are distinct names without [/],
    and every object inside the dictionary has distinct keys. *)
Theorem X12_combined_output_shape `{Runtime} (data : dict) :
  combined_output data ->
  json_wf (JObj data)
  /\ Forall slash_free (dict_keys data)
  /\ exists metadata extracted,
       data = (lit "extraction_metadata", JObj metadata) :: extracted
       /\ dict_keys metadata = metadata_keys
       /\ dict_get metadata (lit "extracted_scripts")
          = Some (JArr (map JStr (dict_keys extracted)))
       /\ length extracted <= 6
       /\ (forall k, k ∈ dict_keys extracted -> k ∈ flat_map keys_of JSON_SCRIPT_IDS).
Proof.
  intros (e & p & fs & fs' & Hx).
  apply extract_from_file_inv in Hx as (bytes & _ & _ & ->).
  split; [apply combined_wf|]. split; [apply combined_slash_free|].
  exists (extraction_metadata e (path_of_str p) (_extract_json_from_html (html_of_bytes bytes))),
    (_extract_json_from_html (html_of_bytes bytes)).
  split; [reflexivity|]. split; [reflexivity|]. split; [reflexivity|].
  split; [|intros k; apply extracted_keys_markers].
  rewrite extract_by_marker. unfold JSON_SCRIPT_IDS. cbn [flat_map].
  rewrite !length_app. cbn [length].
  assert (Hone : forall id, length (marker_entry (html_of_bytes bytes) id) <= 1).
  { intros id. unfold marker_entry. destruct (extract_span id _); cbn; try lia.
    destruct (json_loads content); cbn; lia. }
  pose proof (Hone (lit "headerJson")). pose proof (Hone (lit "entriesJson")).
  pose proof (Hone (lit "queriesJson")). pose proof (Hone (lit "sharedQueryTextsJson")).
  pose proof (Hone (lit "mainThreadProfileJson")). pose proof (Hone (lit "auxThreadProfileJson")).
  lia.
Qed.

Lemma X12_witness :
  @json_wf literal_runtime
    (JObj (combined sample_environ (lit "trace.html")
             [(lit "header", JObj [(lit "a", JInt 1)])]))
  /\ Forall slash_free
       (@dict_keys literal_runtime
          (combined sample_environ (lit "trace.html")
             [(lit "header", JObj [(lit "a", JInt 1)])]))
  /\ exists metadata extracted,
       @combined literal_runtime sample_environ (lit "trace.html")
         [(lit "header", JObj [(lit "a", JInt 1)])]
       = (lit "extraction_metadata", JObj metadata) :: extracted
       /\ dict_keys metadata = metadata_keys
       /\ dict_get metadata (lit "extracted_scripts")
          = Some (JArr (map JStr (dict_keys extracted)))
       /\ length extracted <= 6
       /\ (forall k, k ∈ dict_keys extracted -> k ∈ flat_map keys_of JSON_SCRIPT_IDS).
Proof.
  apply (@X12_combined_output_shape literal_runtime).
  exists sample_environ, (lit "trace.html"), sample_fs, sample_fs. reflexivity.
Defined.

(** ** Paths and their text *)

Lemma split_slash_pieces (s cur : str) :
  slash_free cur -> Forall slash_free (split_slash s cur).
Proof.
  revert cur. induction s as [|c s IH]; intros cur Hcur; cbn [split_slash].
  - repeat constructor. exact Hcur.
  - destruct (ascii_eqb c "/") eqn:E.
    + constructor; [exact Hcur | apply IH; constructor].
    + apply IH, slash_free_app; [exact Hcur|]. repeat constructor.
      apply ascii_eqb_neq, E.
Qed.

Lemma clean_path_of_str (s : str) : clean_path (path_of_str s).
Proof.
  unfold clean_path, path_of_str. cbn [parts]. apply Forall_forall. intros x Hx.
  apply list_elem_of_filter in Hx as [Hreal Hx]. split; [exact Hreal|].
  pose proof (split_slash_pieces s [] ltac:(constructor)) as Hall.
  rewrite Forall_forall in Hall. exact (Hall x Hx).
Qed.

Lemma clean_path_join (p : Path) (s : str) : clean_path p -> clean_path (path_join p s).
Proof.
  intros Hp. unfold path_join. pose proof (clean_path_of_str s) as Hq.
  destruct (is_absolute (path_of_str s)); [exact Hq|].
  unfold clean_path in *. cbn [parts]. apply Forall_app_2; assumption.
Qed.

Lemma split_slash_component (x rest cur : str) :
  slash_free x ->
  split_slash (x ++ "/" :: rest) cur = (cur ++ x) :: split_slash rest [].
Proof.
  intros Hx. revert cur. induction Hx as [|c x Hc _ IH]; intros cur; cbn [app split_slash].
  - rewrite app_nil_r. reflexivity.
  - destruct (ascii_eqb c "/") eqn:E; [apply ascii_eqb_eq in E; contradiction|].
    rewrite IH, <- app_assoc. reflexivity.
Qed.

Lemma split_slash_join (x : str) (xs : list str) (cur : str) :
  Forall slash_free (x :: xs) ->
  split_slash (join ["/"] (x :: xs)) cur = (cur ++ x) :: xs.
Proof.
  revert x cur. induction xs as [|y xs IH]; intros x cur Hall;
    apply Forall_cons in Hall as [Hx Hall].
  - cbn [join]. apply split_slash_free, Hx.
  - change (join ["/"] (x :: y :: xs)) with (x ++ ["/"] ++ join ["/"] (y :: xs)).
    cbn [app]. rewrite split_slash_component by exact Hx.
    rewrite (IH y [] Hall). reflexivity.
Qed.

Lemma filter_real_parts (l : list str) :
  Forall (fun x => real_part x = true /\ slash_free x) l ->
  filter (fun x => real_part x = true) l = l.
Proof.
  induction 1 as [|x l [Hx _] _ IH]; [reflexivity|].
  rewrite filter_cons_True by exact Hx. rewrite IH. reflexivity.
Qed.

(** [Path(str(p))] is [p]. *)
Lemma path_of_str_path_str (p : Path) : clean_path p -> path_of_str (path_str p) = p.
Proof.
  destruct p as [a l]. unfold clean_path. cbn [parts]. intros Hl.
  assert (Hsf : Forall slash_free l).
  { eapply Forall_impl; [exact Hl|]. intros x [_ Hx]. exact Hx. }
  unfold path_of_str, path_str. cbn [is_absolute parts]. destruct a.
  - f_equal. cbn [split_slash]. change (ascii_eqb "/" "/") with true. cbv iota.
    destruct l as [|x xs].
    + reflexivity.
    + rewrite (split_slash_join x xs [] Hsf). cbn [app].
      rewrite filter_cons_False by (cbn; discriminate).
      apply filter_real_parts, Hl.
  - destruct l as [|x xs]; [reflexivity|].
    rewrite (split_slash_join x xs [] Hsf). cbn [app].
    rewrite (filter_real_parts _ Hl). f_equal.
    apply Forall_cons in Hl as [[Hreal Hx] _].
    destruct x as [|c x]; [discriminate|].
    apply Forall_cons in Hx as [Hc _]. destruct xs; cbn [join app startswith].
    + destruct (ascii_eqb "/" c) eqn:E; [apply ascii_eqb_eq in E; congruence | reflexivity].
    + destruct (ascii_eqb "/" c) eqn:E; [apply ascii_eqb_eq in E; congruence | reflexivity].
Qed.

Lemma clean_chosen_output (args : arguments) : clean_path (chosen_output args).
Proof.
  unfold chosen_output. destruct (output_dir args) as [[|c dir]|];
    try apply clean_path_of_str.
  destruct (separate args); apply clean_path_join, clean_path_of_str.
Qed.

Lemma main_chosen_output `{Runtime} (e : environ) (args : arguments) (fs : filesystem) :
  main e args fs
  = match (do extracted_data <- extract_from_file e (input_file args);
           if separate args
           then _save_separate_files e extracted_data (chosen_output args) (negb (pretty args))
           else _save_combined_file e extracted_data (chosen_output args) (negb (pretty args)))
          fs with
    | (fs', inr _) => (fs', 0%Z)
    | (fs', inl _) => (fs', 1%Z)
    end.
Proof.
  unfold main, save_to_file. fold (chosen_output args).
  rewrite (path_of_str_path_str _ (clean_chosen_output args)). reflexivity.
Qed.
(** ** A whole run *)


Lemma main_inv `{Runtime} (e : environ) (args : arguments) (fs fs' : filesystem) :
  main e args fs = (fs', 0%Z) ->
  exists data,
    extract_from_file e (input_file args) fs = (fs, inr data)
    /\ (if separate args
        then _save_separate_files e data (chosen_output args) (negb (pretty args)) fs
        else _save_combined_file e data (chosen_output args) (negb (pretty args)) fs)
       = (fs', inr tt).
Proof.
  intros Hmain. rewrite main_chosen_output in Hmain. unfold bind in Hmain.
  destruct (extract_from_file e (input_file args) fs) as [fs1 [x | data]] eqn:Hx;
    [discriminate|].
  destruct (extract_from_file_inv _ _ _ _ _ Hx) as (_ & _ & -> & _).
  exists data. split; [reflexivity|].
  destruct (separate args).
  - destruct (_save_separate_files _ _ _ _ _) as [fs2 [x | []]]; [discriminate|].
    injection Hmain as <-. reflexivity.
  - destruct (_save_combined_file _ _ _ _ _) as [fs2 [x | []]]; [discriminate|].
    injection Hmain as <-. reflexivity.
Qed.

(** X13.  A run that ends with status 0 read the input without changing
    the file system and saved the dictionary [extract_from_file] returned:
    in combined mode the chosen output path holds the text of the whole
    dictionary; in separate mode the directory named after the stem of the
    chosen output path holds one file for each of its keys.  Each text reads
    back as the value it was written from, provided the floats of that value
    read back from their texts. *)
Theorem X13_main_success `{Runtime} (e : environ) (args : arguments) (fs fs' : filesystem) :
  main e args fs = (fs', 0%Z) ->
  exists data,
    extract_from_file e (input_file args) fs = (fs, inr data)
    /\ (separate args = false ->
        fs' !! resolve e (chosen_output args)
        = Some (File (utf8_encode (json_dumps (negb (pretty args)) (JObj data))))
        /\ (floats_ok (JObj data) ->
            json_loads (json_dumps (negb (pretty args)) (JObj data)) = Some (JObj data)))
    /\ (separate args = true ->
        forall key value, dict_get data key = Some value ->
          fs' !! (resolve e (path_join (path_parent (chosen_output args))
                               (path_stem (chosen_output args)))
                  ++ [key ++ lit ".json"])
          = Some (File (utf8_encode (json_dumps (negb (pretty args)) value)))
          /\ (floats_ok value ->
              json_loads (json_dumps (negb (pretty args)) value) = Some value)).
Proof.
  intros Hmain. apply main_inv in Hmain as (data & Hx & Hs).
  exists data. split; [exact Hx|].
  destruct (extract_from_file_inv _ _ _ _ _ Hx) as (bytes & _ & _ & ->).
  pose proof (combined_wf e (input_file args) (html_of_bytes bytes)) as Hwf.
  pose proof (combined_slash_free e (input_file args) (html_of_bytes bytes)) as Hsf.
  split; intros Hmode; rewrite Hmode in Hs.
  - split; [exact (proj1 (save_combined_written _ _ _ _ _ _ Hs))|].
    intros Hfl. apply json_loads_dumps; assumption.
  - apply json_wf_obj in Hwf as [Hnd Hwf].
    destruct (save_separate_written _ _ _ _ _ _ Hnd Hsf Hs) as [_ Hfiles].
    intros key value Hkey. split; [exact (Hfiles key value Hkey)|].
    intros Hfl. apply json_loads_dumps; [|exact Hfl].
    rewrite Forall_forall in Hwf. exact (Hwf _ (dict_get_Some_elem _ _ _ Hkey)).
Qed.

Lemma X13_witness :
  exists data,
    @extract_from_file literal_runtime sample_environ (lit "trace.html") sample_fs
    = (sample_fs, inr data)
    /\ (false = false ->
        run_fs !! [lit "work"; lit "out.json"]
        = Some (File (utf8_encode (json_dumps true (JObj data))))
        /\ (floats_ok (JObj data) ->
            json_loads (json_dumps true (JObj data)) = Some (JObj data)))
    /\ (false = true ->
        forall key value, dict_get data key = Some value ->
          run_fs !! ([lit "work"; lit "out"] ++ [key ++ lit ".json"])
          = Some (File (utf8_encode (json_dumps true value)))
          /\ (floats_ok value -> json_loads (json_dumps true value) = Some value)).
Proof.
  apply (@X13_main_success literal_runtime sample_environ
           (MkArguments (lit "trace.html") (lit "out.json") false false None)
           sample_fs run_fs).
  reflexivity.
Defined.


(** X15.  When the input path is a directory, [extract_from_file] passes the
    existence test and raises [IsADirectoryError] on opening it, and the run
    ends with status 1 and the file system it started with. *)
Theorem X15_directory_input `{Runtime} (e : environ) (fs : filesystem) (args : arguments) :
  node_at fs (resolve e (path_of_str (input_file args))) = Some Dir ->
  path_exists e (path_of_str (input_file args)) fs = (fs, inr true)
  /\ extract_from_file e (input_file args) fs = (fs, inl IsADirectoryError)
  /\ main e args fs = (fs, 1%Z).
Proof.
  intros Hnode. pose proof (extract_from_file_directory e _ fs Hnode) as Hx.
  split; [|split; [exact Hx|]].
  - unfold path_exists. rewrite Hnode, bool_decide_eq_true_2 by eauto. reflexivity.
  - unfold main, bind. rewrite Hx. reflexivity.
Qed.

Lemma X15_witness :
  path_exists sample_environ (path_of_str (lit ".")) sample_fs = (sample_fs, inr true)
  /\ @extract_from_file literal_runtime sample_environ (lit ".") sample_fs
     = (sample_fs, inl IsADirectoryError)
  /\ @main literal_runtime sample_environ
       (MkArguments (lit ".") (lit "out.json") false false None) sample_fs
     = (sample_fs, 1%Z).
Proof.
  apply (@X15_directory_input literal_runtime sample_environ sample_fs
           (MkArguments (lit ".") (lit "out.json") false false None)).
  reflexivity.
Defined.


(** ** The output directory *)

Lemma path_of_str_single (name : str) :
  slash_free name -> real_part name = true -> path_of_str name = MkPath false [name].
Proof.
  intros Hsf Hreal. unfold path_of_str.
  rewrite (split_slash_free _ [] Hsf). cbn [app].
  rewrite filter_cons_True, filter_nil by exact Hreal. f_equal.
  destruct Hsf as [|c k Hc _]; [reflexivity|]. cbn [startswith].
  destruct (ascii_eqb "/" c) eqn:E; [apply ascii_eqb_eq in E; congruence | reflexivity].
Qed.

Lemma path_join_single (p : Path) (name : str) :
  slash_free name -> real_part name = true ->
  path_join p name = MkPath (is_absolute p) (parts p ++ [name]).
Proof. intros Hsf Hreal. unfold path_join. rewrite (path_of_str_single name Hsf Hreal). reflexivity. Qed.

(** X16.  A non-empty [--output-dir] overrides [--output]: the run does not
    depend on the [--output] value; in combined mode the output path is
    [extracted_trace_data.json] in that directory, and in separate mode the
    directory the files go to is [extracted_data] in that directory. *)
Theorem X16_output_dir_overrides `{Runtime} (e : environ) (args : arguments)
    (c : ascii) (dir : str) :
  output_dir args = Some (c :: dir) ->
  (forall o fs,
     main e (MkArguments (input_file args) o (separate args) (pretty args) (output_dir args)) fs
     = main e args fs)
  /\ (separate args = false ->
      chosen_output args
      = MkPath (is_absolute (path_of_str (c :: dir)))
          (parts (path_of_str (c :: dir)) ++ [lit "extracted_trace_data.json"]))
  /\ (separate args = true ->
      path_join (path_parent (chosen_output args)) (path_stem (chosen_output args))
      = MkPath (is_absolute (path_of_str (c :: dir)))
          (parts (path_of_str (c :: dir)) ++ [lit "extracted_data"])).
Proof.
  intros Hdir. split; [|split].
  - intros o fs. unfold main. cbn [output_dir separate pretty input_file output].
    rewrite Hdir. reflexivity.
  - intros Hmode. unfold chosen_output. rewrite Hdir, Hmode.
    apply path_join_single; [apply slash_free_forallb|]; reflexivity.
  - intros Hmode. unfold chosen_output. rewrite Hdir, Hmode.
    rewrite (path_join_single _ (lit "extracted_data"))
      by ((apply slash_free_forallb; reflexivity) || reflexivity).
    unfold path_parent, path_stem, path_name. cbn [is_absolute parts].
    rewrite removelast_last, last_last.
    change (rfind_dot (lit "extracted_data") 0 None) with (@None nat). cbv iota.
    apply path_join_single; [apply slash_free_forallb|]; reflexivity.
Qed.

Lemma X16_witness :
  (forall o fs,
     @main literal_runtime sample_environ
       (MkArguments (lit "trace.html") o true false (Some (lit "analysis/"))) fs
     = @main literal_runtime sample_environ
         (MkArguments (lit "trace.html") (lit "out.json") true false (Some (lit "analysis/")))
         fs)
  /\ (true = false ->
      chosen_output
        (MkArguments (lit "trace.html") (lit "out.json") true false (Some (lit "analysis/")))
      = MkPath false [lit "analysis"; lit "extracted_trace_data.json"])
  /\ (true = true ->
      path_join
        (path_parent
           (chosen_output
              (MkArguments (lit "trace.html") (lit "out.json") true false
                 (Some (lit "analysis/")))))
        (path_stem
           (chosen_output
              (MkArguments (lit "trace.html") (lit "out.json") true false
                 (Some (lit "analysis/")))))
      = MkPath false [lit "analysis"; lit "extracted_data"]).
Proof.
  exact (@X16_output_dir_overrides literal_runtime sample_environ
           (MkArguments (lit "trace.html") (lit "out.json") true false (Some (lit "analysis/")))
           "a" (lit "nalysis/") eq_refl).
Defined.


(** ** Further concrete instances *)

Lemma X6_witness :
  Forall (fun c => isupper c = false) (_camel_to_snake (lit "header"))
  /\ _camel_to_snake (lit "header") = lit "header"
  /\ _camel_to_snake (_camel_to_snake (lit "header")) = _camel_to_snake (lit "header")
  /\ head (_camel_to_snake (lit "header")) = lower <$> head (lit "header").
Proof.
  refine (match X6_camel_to_snake_lowercase (lit "header") with
          | conj H1 (conj H2 (conj H3 H4)) => conj H1 (conj (H2 _) (conj H3 H4))
          end).
  repeat constructor.
Defined.



(** ** When a run completes *)














(** ** Nothing else is written *)






